(** * Rumor spreading on a scale-free network: model of [project.py]

    The development embeds the network generator ([generate_new_graph]),
    the majority selection ([get_mc]), the round loop of [run_rumors],
    the node colours ([str2col]) and the graph construction
    ([generate_graph]) and proves properties of them.

    Conventions of the embedding:
    - [np.random] is a global stream of raw draws [rnd : nat -> Z] read
      through a cursor that every library call advances; the cursor is
      threaded by the monad [M], which also carries the exceptions the
      source can raise;
    - NumPy's float64 values are idealised as exact numbers: rationals
      for the uniform draws of the seed matrix, real numbers for trust
      values and entropies; a weight handed to [np.random.choice] is an
      [option R], with [None] for the NaN that a division by [Hmax = 0]
      can produce;
    - a [collections.Counter] is an association list in insertion order,
      the order Python dictionaries iterate in;
    - arrays indexed by node are lists read with [!!] and written with
      [<[i:=x]>]; where an index of the source can be out of range the
      definition says what is raised. *)

From Stdlib Require Import ZArith QArith Reals Lia Lra String Ascii.
From stdpp Require Import base tactics option list strings.

Set Warnings "-clear-no-such-hyp".

Local Open Scope nat_scope.
Local Open Scope list_scope.
Close Scope Q_scope.

(** ** The random stream and the exception monad *)

Inductive exn := ValueError | IndexError | TypeError | ZeroDivisionError.

(** A computation returns a value and the new cursor, raises, or is
    still inside the seed loop of [generate_new_graph] when the number of
    attempts it was given is used up ([Spin]). *)
Inductive outcome (A : Type) :=
| Ok (a : A) (cursor : nat)
| Raise (e : exn)
| Spin.
Arguments Ok {A} a cursor.
Arguments Raise {A} e.
Arguments Spin {A}.

Definition M (A : Type) : Type := nat -> outcome A.

Definition ret {A} (a : A) : M A := fun c => Ok a c.

Definition bind {A B} (m : M A) (f : A -> M B) : M B :=
  fun c => match m c with
           | Ok a c' => f a c'
           | Raise e => Raise e
           | Spin => Spin
           end.

Definition raise {A} (e : exn) : M A := fun _ => Raise e.

Notation "'do' x <- m ; k" := (bind m (fun x => k))
  (at level 10, x name, m at level 100, k at level 200).
Notation "'do' ' p <- m ; k" := (bind m (fun x => let 'p := x in k))
  (at level 10, p pattern, m at level 100, k at level 200).

(** [for x in l: s = f x s] *)
Fixpoint forM {A S} (f : A -> S -> M S) (l : list A) (s : S) : M S :=
  match l with
  | [] => ret s
  | x :: l' => do s' <- f x s; forM f l' s'
  end.

(** ** Counters

    [counter_get] is [count[k]] (0 for a missing key), [counter_set] is
    [count[k] = v] (a new key goes last), [counter_del] is [del count[k]]. *)

Abbreviation Counter := (list (string * Z)).

Fixpoint counter_get (count : Counter) (k : string) : Z :=
  match count with
  | [] => 0
  | (k', v) :: rest => if String.eqb k' k then v else counter_get rest k
  end.

Fixpoint counter_set (count : Counter) (k : string) (v : Z) : Counter :=
  match count with
  | [] => [(k, v)]
  | (k', v') :: rest =>
      if String.eqb k' k then (k', v) :: rest
      else (k', v') :: counter_set rest k v
  end.

Fixpoint counter_del (count : Counter) (k : string) : Counter :=
  match count with
  | [] => []
  | (k', v') :: rest =>
      if String.eqb k' k then rest else (k', v') :: counter_del rest k
  end.

Definition keys (count : Counter) : list string := fst <$> count.
Definition values (count : Counter) : list Z := snd <$> count.

Definition sumZ (l : list Z) : Z := foldr Z.add 0%Z l.

(** [count[k] += 1] *)
Definition counter_incr (count : Counter) (k : string) : Counter :=
  counter_set count k (counter_get count k + 1).

(** [count[k] -= 1; if count[k] == 0: del count[k]] *)
Definition counter_decr (count : Counter) (k : string) : Counter :=
  let count' := counter_set count k (counter_get count k - 1) in
  if (counter_get count' k =? 0)%Z then counter_del count' k else count'.

(** [Counter.most_common()]: the items sorted by decreasing count, items
    of equal count in their dictionary order (Python's sort is stable). *)
Fixpoint mc_insert (x : string * Z) (l : Counter) : Counter :=
  match l with
  | [] => [x]
  | y :: l' => if (x.2 <? y.2)%Z then y :: mc_insert x l' else x :: l
  end.

Definition most_common (count : Counter) : Counter :=
  foldr mc_insert [] count.

(** The list handed to [np.random.choice] by [get_mc]. *)
Definition largest_vals (count : Counter) : list string :=
  match most_common count with
  | [] => []
  | (_, largest_num) :: _ =>
      fst <$> filter (fun ij => ij.2 = largest_num) (most_common count)
  end.


(** ** Node memories

    [mem_dict[i]] and [mem_list[i]] are the counter and the ordered
    sequence of node [i]. *)

(** Lines 248-251: the first entry equal to [rumor] becomes [new_rumor]. *)
Fixpoint relabel_first (rumor new_rumor : string) (l : list string)
  : list string :=
  match l with
  | [] => []
  | x :: l' =>
      if String.eqb x rumor then new_rumor :: l'
      else x :: relabel_first rumor new_rumor l'
  end.

(** [str(1-int(c))] for one character [c] of a code; [int] raises on a
    character that is not a digit. *)
Definition flip_char (c : ascii) : option string :=
  match c with
  | "0"%char => Some "1"%string
  | "1"%char => Some "0"%string
  | "2"%char => Some "-1"%string
  | "3"%char => Some "-2"%string
  | "4"%char => Some "-3"%string
  | "5"%char => Some "-4"%string
  | "6"%char => Some "-5"%string
  | "7"%char => Some "-6"%string
  | "8"%char => Some "-7"%string
  | "9"%char => Some "-8"%string
  | _ => None
  end.

(** Line 243: [rumor[0:bitflip]+str(1-int(rumor[bitflip]))+rumor[bitflip+1:]]. *)
Definition flip_bit (rumor : string) (bitflip : nat) : M string :=
  match String.get bitflip rumor with
  | None => raise IndexError
  | Some c =>
      match flip_char c with
      | None => raise ValueError
      | Some c' =>
          ret (String.append (substring 0 bitflip rumor)
                 (String.append c'
                    (substring (S bitflip)
                       (String.length rumor - S bitflip) rumor)))
      end
  end.

(** [format(a,'05b')] for [a] in [range(32)]. *)
Definition format_05b (a : nat) : string :=
  let b k := if Nat.testbit a k then "1"%char else "0"%char in
  String (b 4) (String (b 3) (String (b 2) (String (b 1)
    (String (b 0) EmptyString)))).

(** Position of the draw [r], [0 <= r < total weight], in a list of
    weighted items: the cumulative weights are walked from the left. *)
Fixpoint pick_weighted {A} (items : list (A * Z)) (r : Z) : option A :=
  match items with
  | [] => None
  | (x, w) :: rest =>
      if (r <? w)%Z then Some x else pick_weighted rest (r - w)
  end.

Global Instance R_inhabited : Inhabited R := populate 0%R.
Global Instance Q_inhabited : Inhabited Q := populate (0 # 1)%Q.

Definition sumR (l : list R) : R := foldl Rplus 0%R l.

(** [max(l)] and [min(l)] of a list [x :: xs]. *)
Definition Rmax_list (x : R) (xs : list R) : R := foldl Rmax x xs.
Definition Rmin_list (x : R) (xs : list R) : R := foldl Rmin x xs.

Definition log2R (x : R) : R := (ln x / ln 2)%R.

(** Line 238: the entropy of a counter whose counts sum to [totrum]. *)
Definition entropy (count : Counter) (totrum : Z) : R :=
  sumR ((fun val => (- IZR val / IZR totrum
                     * log2R (IZR val / IZR totrum))%R) <$> values count).

(** Line 239. *)
Definition mutation_probability (Hmax K Hi : R) : R :=
  (1 / (exp ((Hmax - Hi) * K / Hmax) + 1))%R.

(** The float [Pi] of line 239 as the weight handed to line 240.  With
    [Hmax] not 0 it is the quotient above.  With [Hmax = 0] the float
    division of [x = (Hmax-H[i])*K] by 0 gives NaN for [x = 0], inf for
    [x > 0] and -inf for [x < 0], so that [Pi] is NaN, [1/(inf+1) = 0]
    or [1/(0+1) = 1]. *)
Definition mutation_weight (Hmax K Hi : R) : option R :=
  if Req_dec_T Hmax 0 then
    let x := ((Hmax - Hi) * K)%R in
    if Req_dec_T x 0 then None
    else if Rlt_dec 0 x then Some 0%R else Some 1%R
  else Some (mutation_probability Hmax K Hi).

(** The state of [run_rumors]: the local variables its round loop reads
    and writes.  [opinion_frag] holds one column of 32 fractions for each
    round done (the source fills the columns of a zero matrix).
    [inserted] is a ghost counter, absent from the source: [inserted[j]]
    is the number of times [mem_list[j] += [..]] was executed. *)
Record sim := Sim {
  mem_dict : list Counter;
  mem_list : list (list string);
  H : list R;
  avgH : list R;
  varH : list R;
  maxH : list R;
  minH : list R;
  opinion_frag : list (list R);
  inserted : list nat
}.

Definition with_mem (st : sim) (d : list Counter) (l : list (list string))
  (ins : list nat) : sim :=
  Sim d l (H st) (avgH st) (varH st) (maxH st) (minH st)
      (opinion_frag st) ins.

Definition with_H (st : sim) (h : list R) : sim :=
  Sim (mem_dict st) (mem_list st) h (avgH st) (varH st) (maxH st)
      (minH st) (opinion_frag st) (inserted st).

(** [mem_dict[j][up] += 1; mem_list[j] += [up]] *)
Definition mem_append (j : nat) (up : string) (st : sim) : sim :=
  with_mem st
    (alter (fun count => counter_incr count up) j (mem_dict st))
    (alter (fun l => l ++ [up]) j (mem_list st))
    (alter S j (inserted st)).

(** Lines 265-269: the oldest entry leaves when the sequence is longer
    than [L]. *)
Definition mem_evict (L : Z) (j : nat) (st : sim) : sim :=
  match mem_list st !! j with
  | Some (first :: rest) =>
      if (L <? Z.of_nat (length (first :: rest)))%Z then
        with_mem st
          (alter (fun count => counter_decr count first) j (mem_dict st))
          (<[j := rest]> (mem_list st))
          (inserted st)
      else st
  | _ => st
  end.

(** Lines 263-269, the body of the insertion loop. *)
Definition mem_insert (L : Z) (j : nat) (up : string) (st : sim) : sim :=
  mem_evict L j (mem_append j up st).

(** Lines 244-251, the in-place mutation of a held rumor. *)
Definition mutate_held (i : nat) (rumor new_rumor : string) (st : sim)
  : sim :=
  with_mem st
    (alter (fun count => counter_decr (counter_incr count new_rumor) rumor)
           i (mem_dict st))
    (alter (relabel_first rumor new_rumor) i (mem_list st))
    (inserted st).

(** Lines 261-269: [for j, update_list in enumerate(updates)]. *)
Fixpoint apply_updates (L : Z) (j : nat) (updates : list (list string))
  (st : sim) : sim :=
  match updates with
  | [] => st
  | update_list :: updates' =>
      apply_updates L (S j) updates'
        (foldl (fun st up => mem_insert L j up st) st update_list)
  end.

(** ** Matrices *)

Abbreviation matrix A := (list (list A)).

(** [M[i,j]] *)
Definition at2 {A} `{!Inhabited A} (e : matrix A) (i j : nat) : A :=
  (e !!! i) !!! j.

(** [M[i,j] = v] *)
Definition set2 {A} (i j : nat) (v : A) (e : matrix A) : matrix A :=
  alter (fun row => <[j := v]> row) i e.

(** [e[i,j]] with the bounds check of the array. *)
Definition entry {A} (e : matrix A) (i j : nat) : M A :=
  match e !! i with
  | None => raise IndexError
  | Some row =>
      match row !! j with
      | None => raise IndexError
      | Some x => ret x
      end
  end.

(** [np.flatnonzero(row)] *)
Definition flatnonzero (row : list nat) : list nat :=
  filter (fun k => row !!! k <> 0) (seq 0 (length row)).

(** [sum(edges[i,:])] *)
Definition degree (edges : matrix nat) (i : nat) : nat :=
  sum_list (edges !!! i).

Definition neighbours (edges : matrix nat) (i : nat) : list nat :=
  flatnonzero (edges !!! i).

(** [d**beta] for a degree [d].  The power is read at positive degrees:
    a node of degree 0 makes line 147 raise in its own row, so no power
    of 0 reaches a returned matrix. *)
Definition dpow (beta : R) (d : nat) : R := Rpower (INR d) beta.

(** Right-hand side of line 147; [max] of an empty list raises. *)
Definition eta_entry (beta : R) (edges : matrix nat) (i j : nat) : M R :=
  match (fun k => dpow beta (degree edges k)) <$> neighbours edges i with
  | [] => raise ValueError
  | x :: xs => ret (dpow beta (degree edges j) / Rmax_list x xs)%R
  end.

(** Lines 144-148. *)
Definition generate_eta (beta : R) (edges : matrix nat) : M (matrix R) :=
  let n := length edges in
  forM (fun i eta =>
          forM (fun j eta =>
                  do v <- eta_entry beta edges i j;
                  let eta1 := set2 i j v eta in
                  ret (set2 j i (at2 eta1 i j) eta1))
               (seq i (n - i)) eta)
       (seq 0 n) (replicate n (replicate n 0%R)).

(** A uniform float of [[0,1)] from a raw draw: 53 random bits. *)
Definition u01 (d : Z) : Q := (d mod 2 ^ 53 # 2 ^ 53)%Q.

(** Lines 121-123: [0.5*edges + 0.5*edges.T], then 1 above 0.5 and 0
    otherwise. *)
Definition symmetric_threshold (e : matrix Q) : matrix nat :=
  imap (fun i row =>
          imap (fun j x =>
                  if Qle_bool ((1 # 2) * x + (1 # 2) * at2 e j i)%Q (1 # 2)%Q
                  then 0 else 1) row) e.

(** Lines 124-130: the diagonal is cleared row by row, and a row that
    sums to 0 sets [repeat]. *)
Definition seed_check (m0 : nat) (edges : matrix nat) : matrix nat * bool :=
  foldl (fun '(e, repeat) i =>
           let e' := set2 i i 0 e in
           (e', if decide (degree e' i = 0) then true else repeat))
        (edges, false) (seq 0 m0).

(** Lines 136-140: a column and a row for the new node. *)
Definition add_node (edges : matrix nat) (new_edges : list nat)
  : matrix nat :=
  let new_col :=
    foldl (fun col k => <[k := 1]> col) (replicate (length edges) 0)
          new_edges in
  zip_with (fun row x => row ++ [x]) edges new_col ++ [new_col ++ [0]].

Section RandomSource.

(** The raw draws of the global stream. *)
Variable rnd : nat -> Z.

(** [np.random.choice([True,False],p=[p,1.0-p])] as a function of the
    weight [p] and the raw draw it consumes: the boolean drawn, or
    [None] when the library refuses the weights with ValueError, as it
    does for a NaN and for a [p] outside [0,1]. *)
Variable bernoulli : option R -> Z -> option bool.

Definition draw : M Z := fun c => Ok (rnd c) (S c).

(** [np.random.choice(l)]: one element of [l], every position as likely
    as any other; the raw draw is reduced to a position. *)
Definition choice {A} (l : list A) : M A :=
  match l with
  | [] => raise ValueError
  | x :: _ =>
      do d <- draw;
      ret (nth (Z.to_nat (d mod Z.of_nat (length l))) l x)
  end.

Definition choice_bool (p : option R) : M bool :=
  do d <- draw;
  match bernoulli p d with
  | Some b => ret b
  | None => raise ValueError
  end.

(** [np.random.choice(l, p=[w/sum(w) ...])] for items with integer
    weights [w]. *)
Definition choice_weighted {A} (items : list (A * Z)) : M A :=
  do d <- draw;
  match pick_weighted items (d mod sumZ (snd <$> items)) with
  | Some x => ret x
  | None => raise ValueError
  end.

(** [np.random.choice(pop, size=k, replace=False)]: [k] distinct
    positions of [pop], drawn one after the other. *)
Fixpoint draw_distinct {A} (k : nat) (pop : list A) : M (list A) :=
  match k with
  | 0 => ret []
  | S k' =>
      match pop with
      | [] => raise ValueError
      | x :: _ =>
          do d <- draw;
          let i := Z.to_nat (d mod Z.of_nat (length pop)) in
          do rest <- draw_distinct k' (delete i pop);
          ret (nth i pop x :: rest)
      end
  end.

Definition sample {A} (pop : list A) (k : nat) : M (list A) :=
  if decide (length pop < k) then raise ValueError
  else draw_distinct k pop.

(** [get_mc], lines 13-31. *)
Definition get_mc (count : Counter) : M string :=
  match most_common count with
  | [] => raise IndexError
  | (_, largest_num) :: _ =>
      choice (fst <$> filter (fun ij => ij.2 = largest_num)
                              (most_common count))
  end.

(** *** [run_rumors] with [create_gif] false *)

Section RunRumors.

Variables (init_person : nat) (edges : matrix nat) (K Hmax : R)
          (eta : matrix R) (L : Z) (mcr : bool)
          (liarnum truthnum : nat).

(** Lines 180-207.  Node ids are natural numbers; an [init_person]
    beyond the last node raises at line 204, after both role draws. *)
Definition init_sim : M (sim * list nat * list nat) :=
  let n := length edges in
  let st0 := Sim (replicate n []) (replicate n []) [] [] [] [] []
                 [] (replicate n 0) in
  do liars <- sample (filter (fun k => k <> init_person) (seq 0 n))
                     liarnum;
  let st1 := foldl (fun st l => mem_append l "11111" st) st0 liars in
  do truths <- sample (filter (fun k => (k ∉ liars) /\ k <> init_person)
                              (seq 0 n)) truthnum;
  let st2 := foldl (fun st t => mem_append t "00000" st) st1 truths in
  if decide (init_person < n) then
    ret (with_H (mem_append init_person "00000" st2) (replicate n 0%R),
         liars, truths)
  else raise IndexError.

Variables (liars truths : list nat).

(** Lines 253-259: node [i] offers [rumor] to each neighbour.  Reading
    [eta[j,i]] and extending [updates[j]] raise IndexError when [eta] or
    [updates] has no such slot. *)
Definition offer (i : nat) (rumor : string)
  (updates : list (list string)) : M (list (list string)) :=
  forM (fun j updates =>
          do accept <-
            (if decide (j ∈ liars \/ j ∈ truths) then ret false
             else do p <- entry eta j i; choice_bool (Some p));
          if accept : bool then
            if decide (j < length updates)
            then ret (alter (fun u => u ++ [rumor]) j updates)
            else raise IndexError
          else ret updates)
       (flatnonzero (edges !!! i)) updates.

(** Lines 234-252: an ordinary node selects its rumor, records its
    entropy and may mutate the rumor in its memory. *)
Definition select_ordinary (i : nat) (st : sim) : M (string * sim) :=
  let count := mem_dict st !!! i in
  let totrum := sumZ (values count) in
  do rumor <- (if mcr then get_mc count else choice_weighted count);
  let Hi := entropy count totrum in
  let st := with_H st (<[i := Hi]> (H st)) in
  do mutate <- choice_bool (mutation_weight Hmax K Hi);
  if mutate : bool then
    do bitflip <- choice (seq 0 5);
    do new_rumor <- flip_bit rumor bitflip;
    ret (new_rumor, mutate_held i rumor new_rumor st)
  else ret (rumor, st).

(** Lines 229-259, the body of the loop over the nodes. *)
Definition node_step (i : nat) (su : sim * list (list string))
  : M (sim * list (list string)) :=
  let '(st, updates) := su in
  let totrum := sumZ (values (mem_dict st !!! i)) in
  if (totrum =? 0)%Z then ret su
  else
    do '(rumor, st') <-
      (if decide (i ∈ liars \/ i ∈ truths)
       then (do rumor <- get_mc (mem_dict st !!! i); ret (rumor, st))
       else select_ordinary i st);
    do updates' <- offer i rumor updates;
    ret (st', updates').

(** Lines 228-259: the broadcasts and acceptance decisions of a round. *)
Definition broadcast_phase (st : sim) : M (sim * list (list string)) :=
  let n := length edges in
  forM node_step (seq 0 n) (st, replicate n []).

(** Line 276: the majority codes of the nodes that hold a rumor. *)
Definition current_opinions (st : sim) : M (list string) :=
  forM (fun i ops =>
          match mem_dict st !!! i with
          | [] => ret ops
          | count => do op <- get_mc count; ret (ops ++ [op])
          end)
       (seq 0 (length edges)) [].

(** Lines 271-278. *)
Definition record_stats (st : sim) : M sim :=
  match H st with
  | [] => raise ZeroDivisionError
  | h :: hs =>
      let n := INR (length (H st)) in
      let avg := (sumR (H st) / n)%R in
      let var := sumR ((fun i => ((H st !!! i - avg) * (H st !!! i - avg)
                                  / n)%R) <$> seq 0 (length edges)) in
      do ops <- current_opinions st;
      let column :=
        (fun a => (INR (length (filter (fun op => op = format_05b a) ops))
                   / INR (length edges))%R) <$> seq 0 32 in
      ret (Sim (mem_dict st) (mem_list st) (H st)
               (avgH st ++ [avg]) (varH st ++ [var])
               (maxH st ++ [Rmax_list h hs])
               (minH st ++ [Rmin_list h hs])
               (opinion_frag st ++ [column]) (inserted st))
  end.

(** Lines 218-278, one iteration of the loop over [itnum]. *)
Definition round (st : sim) : M sim :=
  do '(st1, updates) <- broadcast_phase st;
  record_stats (apply_updates L 0 updates st1).

Fixpoint rounds (num_rounds : nat) (st : sim) : M sim :=
  match num_rounds with
  | 0 => ret st
  | S k => do st' <- round st; rounds k st'
  end.

End RunRumors.

(** The state after [num_rounds] rounds, with the roles drawn. *)
Definition run_state (init_person : nat) (edges : matrix nat) (K Hmax : R)
  (num_rounds : nat) (eta : matrix R) (L : Z) (mcr : bool)
  (liarnum truthnum : nat) : M (sim * list nat * list nat) :=
  do '(st, liars, truths) <- init_sim init_person edges liarnum truthnum;
  do st' <- rounds edges K Hmax eta L mcr liars truths num_rounds st;
  ret (st', liars, truths).

(** [run_rumors], lines 155-286. *)
Definition run_rumors (init_person : nat) (edges : matrix nat) (K Hmax : R)
  (num_rounds : nat) (eta : matrix R) (L : Z) (mcr : bool)
  (liarnum truthnum : nat)
  : M (list R * list R * list R * list R * list (list R)) :=
  do '(st, _, _) <- run_state init_person edges K Hmax num_rounds eta L
                              mcr liarnum truthnum;
  ret (avgH st, varH st, maxH st, minH st, opinion_frag st).

(** *** [generate_new_graph] *)

(** [np.random.rand(r, c)] *)
Fixpoint rand_row (c : nat) : M (list Q) :=
  match c with
  | 0 => ret []
  | S c' => do d <- draw; do row <- rand_row c'; ret (u01 d :: row)
  end.

Fixpoint rand (r c : nat) : M (matrix Q) :=
  match r with
  | 0 => ret []
  | S r' => do row <- rand_row c; do rows <- rand r' c; ret (row :: rows)
  end.

(** One pass of the seed loop, lines 119-130. *)
Definition seed_attempt (m0 : nat) : M (matrix nat * bool) :=
  do e <- rand m0 m0;
  ret (seed_check m0 (symmetric_threshold e)).

(** Lines 117-130; [fuel] bounds the number of passes. *)
Fixpoint seed_phase (fuel m0 : nat) : M (matrix nat) :=
  match fuel with
  | 0 => fun _ => Spin
  | S fuel' =>
      do '(edges, repeat) <- seed_attempt m0;
      if repeat : bool then seed_phase fuel' m0 else ret edges
  end.

(** [np.random.choice(range(n), m, replace=False, p=prob/sum(prob))]:
    [m] distinct nodes of positive weight, drawn one after the other
    in proportion to the weights. *)
Fixpoint draw_distinct_weighted (m : nat) (items : list (nat * Z))
  : M (list nat) :=
  match m with
  | 0 => ret []
  | S m' =>
      do x <- choice_weighted items;
      do rest <- draw_distinct_weighted m'
                   (filter (fun kw => kw.1 <> x) items);
      ret (x :: rest)
  end.

Definition sample_weighted (m : nat) (prob : list nat) : M (list nat) :=
  let items := imap (fun k w => (k, Z.of_nat w)) prob in
  match prob with
  | [] => raise TypeError
  | _ =>
      if decide (sum_list prob = 0) then raise ValueError
      else if decide (length prob < m) then raise ValueError
      else if decide (length (filter (fun kw => (0 < kw.2)%Z) items) < m)
           then raise ValueError
      else draw_distinct_weighted m
             (filter (fun kw => (0 < kw.2)%Z) items)
  end.

(** Lines 134-140, one growth step. *)
Definition grow_step (m : nat) (edges : matrix nat) : M (matrix nat) :=
  let prob := (fun i => degree edges i) <$> seq 0 (length edges) in
  do new_edges <- sample_weighted m prob;
  ret (add_node edges new_edges).

(** [generate_new_graph], lines 99-152, without the two [np.save]. *)
Definition generate_new_graph (fuel : nat) (beta : R) (T m0 m : nat)
  : M (matrix R * matrix nat) :=
  do edges <- seed_phase fuel m0;
  do edges <- forM (fun _ e => grow_step m e) (seq 0 T) edges;
  do eta <- generate_eta beta edges;
  ret (eta, edges).

End RandomSource.

(** ** [str2col] and [generate_graph] *)

(** [int(a)] for one character [a]; it raises on a character that is
    not a digit. *)
Definition int_char (a : ascii) : option nat :=
  let code := nat_of_ascii a in
  if (48 <=? code) && (code <=? 57) then Some (code - 48) else None.

(** [sum([int(a) for a in label])] *)
Fixpoint digit_sum (label : string) : option nat :=
  match label with
  | EmptyString => Some 0
  | String a rest =>
      match int_char a, digit_sum rest with
      | Some d, Some s => Some (d + s)
      | _, _ => None
      end
  end.

(** Lines 50-61: the colour of a number of flipped bits; the function
    falls off its last [elif] for a number above 5 and returns [None]. *)
Definition colour (num : nat) : option string :=
  match num with
  | 0 => Some "#33ccff"
  | 1 => Some "#e6ccff"
  | 2 => Some "#cc99ff"
  | 3 => Some "#ff99ff"
  | 4 => Some "#ff3399"
  | 5 => Some "#ff0000"
  | _ => None
  end.

(** [str2col], lines 34-61. *)
Definition str2col (rnd : nat -> Z) (count : Counter) : M (option string) :=
  match count with
  | [] => ret (Some "#ffffff")
  | _ =>
      do label <- get_mc rnd count;
      match digit_sum label with
      | None => raise ValueError
      | Some num => ret (colour num)
      end
  end.

(** A [networkx] graph on the nodes [0 .. n-1]: slot [i] of [adj] lists
    the keys of the adjacency dictionary of node [i], in insertion
    order. *)
Record graph := Graph { adj : list (list nat) }.

(** [G = nx.Graph(); G.add_nodes_from(range(n))] *)
Definition empty_graph (n : nat) : graph := Graph (replicate n []).

Definition add_nbr (v : nat) (nbrs : list nat) : list nat :=
  if decide (v ∈ nbrs) then nbrs else nbrs ++ [v].

(** [G.add_edge(u,v)] between two nodes of [G]: [v] becomes a key of
    the dictionary of [u], then [u] one of the dictionary of [v]. *)
Definition add_edge (u v : nat) (G : graph) : graph :=
  Graph (alter (add_nbr u) v (alter (add_nbr v) u (adj G))).

(** [generate_graph], lines 64-80. *)
Definition generate_graph (edges : matrix nat) : M graph :=
  let n := length edges in
  forM (fun i G =>
          forM (fun j G =>
                  do x <- entry edges i j;
                  ret (if decide (x = 1) then add_edge i j G else G))
               (seq i (n - i)) G)
       (seq 0 n) (empty_graph n).


(** * Predicates used in the statements *)

(** The first item of a sorted list carries the largest count. *)
Definition head_largest (l : Counter) : Prop :=
  match l with
  | [] => True
  | h :: _ => Forall (fun y => (y.2 <= h.2)%Z) l
  end.


(** Number of entries of the sequence [l] that hold the code [k]. *)
Definition occurrences (l : list string) (k : string) : nat :=
  length (filter (fun x => x = k) l).

(** The counter and the sequence of one node describe the same multiset:
    the keys are distinct, every stored count is positive, the count of
    a code is the number of its entries, and the counts sum to the
    length of the sequence. *)
Definition mem_ok (count : Counter) (l : list string) : Prop :=
  NoDup (keys count) /\
  Forall (fun kv => (0 < kv.2)%Z) count /\
  (forall k, counter_get count k = Z.of_nat (occurrences l k)) /\
  sumZ (values count) = Z.of_nat (length l).

(** The memory of node [j]: its counter, its sequence and the ghost
    number of appends. *)
Definition node_mem (st : sim) (j : nat) : Counter * list string * nat :=
  (mem_dict st !!! j, mem_list st !!! j, inserted st !!! j).

(** The operations of [run_rumors] on one node's memory. *)
Definition append_mem (up : string) (m : Counter * list string * nat)
  : Counter * list string * nat :=
  let '(count, l, ins) := m in (counter_incr count up, l ++ [up], S ins).

Definition evict_mem (L : Z) (m : Counter * list string * nat)
  : Counter * list string * nat :=
  let '(count, l, ins) := m in
  match l with
  | first :: rest =>
      if (L <? Z.of_nat (length l))%Z
      then (counter_decr count first, rest, ins) else m
  | [] => m
  end.

Definition insert_mem (L : Z) (m : Counter * list string * nat)
  (up : string) : Counter * list string * nat :=
  evict_mem L (append_mem up m).

Definition mutate_mem (rumor new_rumor : string)
  (m : Counter * list string * nat) : Counter * list string * nat :=
  let '(count, l, ins) := m in
  (counter_decr (counter_incr count new_rumor) rumor,
   relabel_first rumor new_rumor l, ins).

(** The invariant of one memory of capacity [L]: counter and sequence
    agree, and for a capacity of at least 1 the sequence holds the last
    [L] rumors appended. *)
Definition mem_inv (L : Z) (m : Counter * list string * nat) : Prop :=
  let '(count, l, ins) := m in
  mem_ok count l /\
  ((1 <= L)%Z -> Z.of_nat (length l) = Z.min (Z.of_nat ins) L).

(** The node-indexed arrays of a state have one slot per node. *)
Definition sim_wf (n : nat) (st : sim) : Prop :=
  length (mem_dict st) = n /\ length (mem_list st) = n /\
  length (inserted st) = n.

Definition sim_inv (L : Z) (n : nat) (st : sim) : Prop :=
  sim_wf n st /\ forall j, j < n -> mem_inv L (node_mem st j).

(** What the first part of [node_step] may do to the state when it
    handles node [i]: nothing, record the entropy of [i], or record it
    and relabel a rumor that [i] holds. *)
Inductive node_effect (liars truths : list nat) (i : nat) (st : sim)
  : sim -> Prop :=
| effect_none : node_effect liars truths i st st
| effect_entropy Hi :
    ~ (i ∈ liars \/ i ∈ truths) ->
    node_effect liars truths i st (with_H st (<[i := Hi]> (H st)))
| effect_mutate Hi rumor new_rumor :
    ~ (i ∈ liars \/ i ∈ truths) ->
    rumor ∈ keys (mem_dict st !!! i) ->
    node_effect liars truths i st
      (mutate_held i rumor new_rumor (with_H st (<[i := Hi]> (H st)))).

(** What a queue of accepted rumors may become while rumors are offered:
    no slot is added, the slots of liars and truth-tellers are untouched,
    and a slot only grows at its end. *)
Definition queued (liars truths : list nat)
  (updates updates' : list (list string)) : Prop :=
  length updates' = length updates /\
  (forall j, j ∈ liars \/ j ∈ truths -> updates' !! j = updates !! j) /\
  (forall j, exists more, updates' !!! j = updates !!! j ++ more).

(** Between the start of a round ([st0]) and a later point of its
    broadcast loop ([st]), the memory of node [j] is unchanged or has had
    one rumor that [j] held relabelled by [j]'s own mutation. *)
Definition own_mutation (liars truths : list nat) (st0 st : sim) (j : nat)
  : Prop :=
  node_mem st j = node_mem st0 j \/
  exists rumor new_rumor,
    ~ (j ∈ liars \/ j ∈ truths) /\
    rumor ∈ keys (mem_dict st0 !!! j) /\
    node_mem st j = mutate_mem rumor new_rumor (node_mem st0 j).

(** ** Graphs and trust *)

(** [e] has [n] rows of [n] entries. *)
Definition square {A} (n : nat) (e : matrix A) : Prop :=
  length e = n /\ forall i row, e !! i = Some row -> length row = n.

Definition symmetric (e : matrix nat) : Prop :=
  forall i j, at2 e i j = at2 e j i.

(** The largest [degree(k)**beta] over the neighbours [k] of [i]
    (0 when [i] has none). *)
Definition max_neighbour_trust (beta : R) (edges : matrix nat) (i : nat) : R :=
  match (fun k => dpow beta (degree edges k)) <$> neighbours edges i with
  | [] => 0%R
  | x :: xs => Rmax_list x xs
  end.

(** The trust formula: [degree(j)**beta] over the largest
    [degree(k)**beta] among the neighbours [k] of [i]. *)
Definition trust (beta : R) (edges : matrix nat) (i j : nat) : R :=
  (dpow beta (degree edges j) / max_neighbour_trust beta edges i)%R.

(** ** Rumor codes *)

(** A code is a string of five characters 0 or 1. *)
Definition is_bit (a : ascii) : bool :=
  (Ascii.eqb a "0" || Ascii.eqb a "1")%bool.

Definition is_code (s : string) : bool :=
  (String.length s =? 5) && forallb is_bit (list_ascii_of_string s).

(** Number of characters 1 of a string. *)
Definition ones (s : string) : nat :=
  length (filter (fun a => a = "1"%char) (list_ascii_of_string s)).

(** The 32 codes, in the order of the rows of [opinion_frag]. *)
Definition codes32 : list string := format_05b <$> seq 0 32.

(** Every entry of every sequence is a code. *)
Definition codes_ok (st : sim) : Prop :=
  forall j, Forall (fun s => is_code s = true) (mem_list st !!! j).

(** The entropy array has one slot per node, each between 0 and 5. *)
Definition entropies_ok (n : nat) (st : sim) : Prop :=
  length (H st) = n /\ Forall (fun h => (0 <= h <= 5)%R) (H st).

Definition run_inv (L : Z) (n : nat) (st : sim) : Prop :=
  sim_inv L n st /\ codes_ok st /\ entropies_ok n st.

(** A queue of accepted rumors: one slot per node, codes only. *)
Definition queue_ok (n : nat) (updates : list (list string)) : Prop :=
  length updates = n /\
  Forall (Forall (fun s => is_code s = true)) updates.

(** ** The library's test of weights *)

(** [np.random.choice] accepts every pair of weights [p, 1-p] with [p]
    in [0,1]. *)
Definition accepts_probabilities (bernoulli : option R -> Z -> option bool)
  : Prop :=
  forall p d, (0 <= p <= 1)%R -> is_Some (bernoulli (Some p) d).

(** It refuses a NaN. *)
Definition rejects_nan (bernoulli : option R -> Z -> option bool) : Prop :=
  forall d, bernoulli None d = None.

(** ** Statistics *)

(** The statistics arrays of a state. *)
Definition stats (st : sim)
  : list R * list R * list R * list R * list (list R) :=
  (avgH st, varH st, maxH st, minH st, opinion_frag st).

(** Number of nodes that hold a rumor. *)
Definition informed (n : nat) (st : sim) : nat :=
  length (filter (fun i => mem_dict st !!! i <> []) (seq 0 n)).

(** A column of [opinion_frag]: 32 fractions that sum to at most 1. *)
Definition column_ok (col : list R) : Prop :=
  length col = 32 /\ Forall (fun x => (0 <= x <= 1)%R) col /\
  (sumR col <= 1)%R.

(** The arrays have one entry per round done; in every round the
    minimum, the average and the maximum of the entropies are in this
    order between 0 and 5, and the variance is not negative. *)
Definition stats_ok (st : sim) : Prop :=
  Forall2 (fun mn av => (0 <= mn <= av)%R) (minH st) (avgH st) /\
  Forall2 (fun av mx => (av <= mx <= 5)%R) (avgH st) (maxH st) /\
  Forall2 (fun av vr => (0 <= vr)%R) (avgH st) (varH st) /\
  Forall2 (fun av col => column_ok col) (avgH st) (opinion_frag st).

(** ** Simple graphs *)

(** [e] is the adjacency matrix of a simple graph on [n] nodes: square
    and symmetric, with entries 0 or 1 and an empty diagonal. *)
Definition simple_graph (n : nat) (e : matrix nat) : Prop :=
  square n e /\ symmetric e /\
  (forall i j, at2 e i j <= 1) /\ (forall i, at2 e i i = 0).

(** Sum of the degrees: two for every edge of a simple graph. *)
Definition degree_sum (e : matrix nat) : nat :=
  sum_list ((fun i => degree e i) <$> seq 0 (length e)).

(** [G] holds the edges that [generate_graph] has found in the rows
    before [i] and in row [i] before column [j]: it reads the entries
    on and above the diagonal only. *)
Definition graph_upto (n : nat) (edges : matrix nat) (i j : nat) (G : graph)
  : Prop :=
  length (adj G) = n /\ (forall a, NoDup (adj G !!! a)) /\
  forall a b,
    b ∈ adj G !!! a <->
    a < n /\ b < n /\ at2 edges (a `min` b) (a `max` b) = 1 /\
    (a `min` b < i \/ (a `min` b = i /\ a `max` b < j)).


(** * Inputs of the examples *)

(** A star on three nodes, uniform trust, the raw draws 0, 1, 2, ... and
    a Bernoulli choice that follows the parity of its draw, whatever the
    weight. *)
Definition star3 : matrix nat := [[0; 1; 1]; [1; 0; 0]; [1; 0; 0]].
Definition ones3 : matrix R := [[1; 1; 1]; [1; 1; 1]; [1; 1; 1]]%R.
Definition counting (k : nat) : Z := Z.of_nat k.
Definition by_parity (p : option R) (d : Z) : option bool :=
  Some (Z.odd d).

(** Raw draws for seed matrices: [hi] is the largest 53-bit draw (a
    float just below 1), [0] the float 0.  [path_draws] gives the path
    0-1-2-3-4 at the first pass of the seed loop; [retry_draws] gives a
    first pass without any edge and the path at the second pass;
    [pair_triangle_draws] gives the edge 0-1 beside the triangle 2-3-4. *)
Definition hi : Z := (2 ^ 53 - 1)%Z.

Definition path_draws : list Z :=
  [0; hi; 0; 0; 0;
   hi; 0; hi; 0; 0;
   0; hi; 0; hi; 0;
   0; 0; hi; 0; hi;
   0; 0; 0; hi; 0]%Z.

Definition pair_triangle_draws : list Z :=
  [0; hi; 0; 0; 0;
   hi; 0; 0; 0; 0;
   0; 0; 0; hi; hi;
   0; 0; hi; 0; hi;
   0; 0; hi; hi; 0]%Z.

Definition retry_draws : list Z := replicate 25 0%Z ++ path_draws.

Definition from_list (l : list Z) (k : nat) : Z := nth k l 0%Z.

Definition path5 : matrix nat :=
  [[0; 1; 0; 0; 0]; [1; 0; 1; 0; 0]; [0; 1; 0; 1; 0]; [0; 0; 1; 0; 1];
   [0; 0; 0; 1; 0]].

Definition pair_triangle : matrix nat :=
  [[0; 1; 0; 0; 0]; [1; 0; 0; 0; 0]; [0; 0; 0; 1; 1]; [0; 0; 1; 0; 1];
   [0; 0; 1; 1; 0]].

(** All trust values one half. *)
Definition halves3 : matrix R :=
  [[/ 2; / 2; / 2]; [/ 2; / 2; / 2]; [/ 2; / 2; / 2]]%R.

(** * Properties *)

(** ** The definitions on small inputs *)

Example most_common_is_stable :
  most_common [("00001", 1); ("00010", 3); ("00100", 1); ("01000", 3)]%Z
  = [("00010", 3); ("01000", 3); ("00001", 1); ("00100", 1)]%Z.
Proof. reflexivity. Qed.

Example largest_vals_are_the_ties :
  largest_vals [("00001", 1); ("00010", 3); ("00100", 1); ("01000", 3)]%Z
  = ["00010"; "01000"].
Proof. reflexivity. Qed.

Example get_mc_of_empty_counter rnd c : get_mc rnd [] c = Raise IndexError.
Proof. reflexivity. Qed.

Example flip_bit_third_bit c : flip_bit "00000" 2 c = Ok "00100" c.
Proof. reflexivity. Qed.

Example flip_bit_out_of_range c : flip_bit "00000" 5 c = Raise IndexError.
Proof. reflexivity. Qed.

Example format_05b_five : format_05b 5 = "00101".
Proof. reflexivity. Qed.

Example counter_decr_removes_last_copy :
  counter_decr (counter_incr [("00000", 1%Z)] "00100") "00000"
  = [("00100", 1%Z)].
Proof. reflexivity. Qed.

Example relabel_first_only_the_oldest :
  relabel_first "11111" "01111" ["01010"; "11111"; "11111"]
  = ["01010"; "01111"; "11111"].
Proof. reflexivity. Qed.

Example insertion_evicts_the_oldest :
  insert_mem 2 ([("00000", 1%Z); ("11111", 1%Z)], ["00000"; "11111"], 2)
             "00100"
  = ([("11111", 1%Z); ("00100", 1%Z)], ["11111"; "00100"], 3).
Proof. reflexivity. Qed.

(** With a capacity of 0 a seeded memory keeps one entry after every
    insertion: the test of line 265 removes one entry per insertion. *)
Example capacity_zero_keeps_one_entry :
  insert_mem 0 ([("00000", 1%Z)], ["00000"], 1) "11111"
  = ([("11111", 1%Z)], ["11111"], 2).
Proof. reflexivity. Qed.

Example seed_loop_accepts_the_path :
  seed_phase (from_list path_draws) 3 5 0 = Ok path5 25.
Proof. vm_compute. reflexivity. Qed.

Example seed_loop_redraws :
  seed_phase (from_list retry_draws) 3 5 0 = Ok path5 50.
Proof. vm_compute. reflexivity. Qed.

Example seed_loop_out_of_passes :
  seed_phase (from_list retry_draws) 1 5 0 = Spin.
Proof. vm_compute. reflexivity. Qed.

Example add_node_to_path :
  add_node path5 [0; 1]
  = [[0; 1; 0; 0; 0; 1]; [1; 0; 1; 0; 0; 1]; [0; 1; 0; 1; 0; 0];
     [0; 0; 1; 0; 1; 0]; [0; 0; 0; 1; 0; 0]; [1; 1; 0; 0; 0; 0]].
Proof. reflexivity. Qed.

(** ** Counters *)

Section CounterFacts.

Implicit Types (count : Counter) (k : string) (v : Z).

Lemma counter_get_elem count k v :
  NoDup (keys count) -> (k, v) ∈ count -> counter_get count k = v.
Proof.
  unfold keys. induction count as [|[k' v'] rest IH]; simpl.
  - intros _ Hin. by apply elem_of_nil in Hin.
  - rewrite NoDup_cons. intros [Hk' Hnd] Hin.
    apply elem_of_cons in Hin as [Heq|Hin].
    + simplify_eq. by rewrite String.eqb_refl.
    + destruct (String.eqb_spec k' k) as [->|Hne]; [|by apply IH].
      destruct Hk'. apply list_elem_of_fmap. by exists (k, v).
Qed.

Lemma counter_get_key count k :
  k ∈ keys count -> (k, counter_get count k) ∈ count.
Proof.
  unfold keys. induction count as [|[k' v'] rest IH]; simpl.
  - intros Hin. by apply elem_of_nil in Hin.
  - intros Hin. destruct (String.eqb_spec k' k) as [->|Hne].
    + apply elem_of_cons. by left.
    + apply elem_of_cons in Hin as [Heq|Hin]; [done|].
      apply elem_of_cons. right. by apply IH.
Qed.

Lemma counter_get_missing count k :
  k ∉ keys count -> counter_get count k = 0%Z.
Proof.
  unfold keys. induction count as [|[k' v'] rest IH]; simpl; [done|].
  rewrite not_elem_of_cons. intros [Hne Hnin].
  destruct (String.eqb_spec k' k) as [->|_]; [done|by apply IH].
Qed.

Lemma mc_insert_perm x count : mc_insert x count ≡ₚ x :: count.
Proof.
  induction count as [|y rest IH]; simpl; [done|].
  destruct (x.2 <? y.2)%Z; [|done].
  rewrite IH. apply Permutation_swap.
Qed.

Lemma most_common_perm count : most_common count ≡ₚ count.
Proof.
  induction count as [|x rest IH]; simpl; [done|].
  by rewrite mc_insert_perm, IH.
Qed.

Lemma mc_insert_head_largest x l :
  head_largest l -> head_largest (mc_insert x l).
Proof.
  destruct l as [|h t]; simpl.
  - intros _. by repeat constructor.
  - intros Hl. destruct (Z.ltb_spec x.2 h.2) as [Hlt|Hge].
    + simpl. eapply Forall_forall. intros y Hy.
      rewrite Forall_forall in Hl.
      apply elem_of_cons in Hy as [->|Hy]; [lia|].
      assert (y ∈ x :: t) as Hy' by by rewrite <- mc_insert_perm.
      apply elem_of_cons in Hy' as [->|Hy']; [lia|].
      apply Hl. by right.
    + simpl. constructor; [lia|].
      eapply Forall_impl; [exact Hl|]. simpl. intros; lia.
Qed.

Lemma most_common_head_largest count : head_largest (most_common count).
Proof.
  induction count as [|x rest IH]; simpl; [done|].
  by apply mc_insert_head_largest.
Qed.

Lemma most_common_nil count : most_common count = [] -> count = [].
Proof.
  intros Hnil. apply Permutation_nil_r. by rewrite <- Hnil, most_common_perm.
Qed.

Lemma largest_vals_NoDup count :
  NoDup (keys count) -> NoDup (largest_vals count).
Proof.
  intros Hnd. unfold largest_vals.
  destruct (most_common count) as [|[k0 largest_num] rest] eqn:Hmc;
    [constructor|].
  rewrite <- Hmc. eapply sublist_NoDup.
  - unfold keys in Hnd. by rewrite <- (most_common_perm count) in Hnd.
  - apply fmap_sublist, sublist_filter.
Qed.

Lemma largest_vals_spec count k :
  NoDup (keys count) ->
  k ∈ largest_vals count <->
  k ∈ keys count /\
  forall k', k' ∈ keys count ->
             (counter_get count k' <= counter_get count k)%Z.
Proof.
  intros Hnd. unfold largest_vals.
  pose proof (most_common_head_largest count) as Hhead.
  pose proof (most_common_perm count) as Hperm.
  destruct (most_common count) as [|[k0 largest_num] rest] eqn:Hmc.
  { apply Permutation_nil_l in Hperm. subst count. split.
    - intros Hin. by apply elem_of_nil in Hin.
    - intros [Hin _]. by apply elem_of_nil in Hin. }
  clear Hmc. simpl in Hhead.
  assert (Hk0 : (k0, largest_num) ∈ count).
  { rewrite <- Hperm. by left. }
  assert (Hle : forall k' v', (k', v') ∈ count -> (v' <= largest_num)%Z).
  { intros k' v' Hin. rewrite Forall_forall in Hhead.
    rewrite <- Hperm in Hin. by apply Hhead in Hin. }
  rewrite list_elem_of_fmap. split.
  - intros ([k1 v1] & -> & Hin). apply list_elem_of_filter in Hin as [Hv Hin].
    simpl in *. subst v1. rewrite Hperm in Hin. split.
    + apply list_elem_of_fmap. by exists (k1, largest_num).
    + intros k' Hk'. rewrite (counter_get_elem _ _ _ Hnd Hin).
      apply (Hle k'). by apply counter_get_key.
  - intros [Hin Hmax]. exists (k, counter_get count k). split; [done|].
    apply list_elem_of_filter. split.
    + simpl. apply Z.le_antisymm.
      * apply (Hle k). by apply counter_get_key.
      * rewrite <- (counter_get_elem _ _ _ Hnd Hk0). apply Hmax.
        apply list_elem_of_fmap. by exists (k0, largest_num).
    + rewrite Hperm. by apply counter_get_key.
Qed.

Lemma largest_vals_nonempty count : count <> [] -> largest_vals count <> [].
Proof.
  intros Hne. unfold largest_vals.
  pose proof (most_common_head_largest count) as Hhead.
  destruct (most_common count) as [|[k0 largest_num] rest] eqn:Hmc.
  { by apply most_common_nil in Hmc. }
  rewrite filter_cons. by case_decide.
Qed.

End CounterFacts.

(** ** [get_mc] *)

Lemma choice_lookup {A} rnd (l : list A) c :
  l <> [] ->
  exists x, choice rnd l c = Ok x (S c) /\
            l !! Z.to_nat (rnd c mod Z.of_nat (length l)) = Some x.
Proof.
  intros Hne. destruct l as [|x0 l']; [done|].
  unfold choice, bind, draw, ret. eexists. split; [done|].
  set (i := Z.to_nat _).
  assert (i < length (x0 :: l')) as Hi.
  { subst i. simpl length.
    pose proof (Z.mod_pos_bound (rnd c) (Z.of_nat (S (length l')))). lia. }
  apply lookup_lt_is_Some_2 in Hi as [y Hy].
  rewrite Hy. f_equal. symmetry. by apply nth_lookup_Some.
Qed.

Lemma get_mc_choice rnd count c :
  count <> [] -> get_mc rnd count c = choice rnd (largest_vals count) c.
Proof.
  intros Hne. unfold get_mc, largest_vals.
  destruct (most_common count) as [|[k0 n0] rest] eqn:Hmc; [|done].
  by apply most_common_nil in Hmc.
Qed.

(** C7. For a non-empty counter, [get_mc] returns a code of maximal
    count; the list it hands to the uniform choice holds exactly the
    codes tied at the maximum, each of them once, the returned code is
    the one at the position the draw reduces to, and every tied code is
    returned for some draw. *)
Theorem get_mc_uniform_among_ties rnd count c :
  NoDup (keys count) -> count <> [] ->
  exists r,
    get_mc rnd count c = Ok r (S c) /\
    r ∈ keys count /\
    (forall k, k ∈ keys count ->
               (counter_get count k <= counter_get count r)%Z) /\
    NoDup (largest_vals count) /\
    (forall k, k ∈ largest_vals count <->
               k ∈ keys count /\
               forall k', k' ∈ keys count ->
                          (counter_get count k' <= counter_get count k)%Z) /\
    largest_vals count
      !! Z.to_nat (rnd c mod Z.of_nat (length (largest_vals count))) = Some r /\
    (forall k, k ∈ largest_vals count ->
               exists i, i < length (largest_vals count) /\
                         forall rnd', rnd' c = Z.of_nat i ->
                                      get_mc rnd' count c = Ok k (S c)).
Proof.
  intros Hnd Hne.
  pose proof (largest_vals_nonempty count Hne) as Hlv.
  destruct (choice_lookup rnd (largest_vals count) c Hlv) as (r & Hr & Hlook).
  exists r. rewrite get_mc_choice by done.
  assert (r ∈ largest_vals count) as Hin by by eapply list_elem_of_lookup_2.
  apply largest_vals_spec in Hin as [Hkey Hmax]; [|done].
  split_and!; try done.
  - by apply largest_vals_NoDup.
  - intros k. by apply largest_vals_spec.
  - intros k Hk. apply list_elem_of_lookup_1 in Hk as [i Hi].
    exists i. split; [by eapply lookup_lt_Some|].
    intros rnd' Hrnd. rewrite get_mc_choice by done.
    destruct (choice_lookup rnd' (largest_vals count) c Hlv) as (x & Hx & Hl).
    rewrite Hx. f_equal. rewrite Hrnd in Hl.
    apply lookup_lt_Some in Hi as Hlt.
    rewrite Z.mod_small, Nat2Z.id in Hl by lia. congruence.
Qed.

Lemma get_mc_uniform_among_ties_witness :
  let count : Counter := [("00000", 3); ("00100", 3); ("11111", 1)]%Z in
  (get_mc (fun _ => 0%Z) count 0 = Ok "00000" 1 /\
   get_mc (fun _ => 1%Z) count 0 = Ok "00100" 1) /\
  exists r,
    get_mc (fun _ => 1%Z) count 0 = Ok r 1 /\
    r ∈ keys count /\
    (forall k, k ∈ keys count ->
               (counter_get count k <= counter_get count r)%Z) /\
    NoDup (largest_vals count) /\
    (forall k, k ∈ largest_vals count <->
               k ∈ keys count /\
               forall k', k' ∈ keys count ->
                          (counter_get count k' <= counter_get count k)%Z) /\
    largest_vals count
      !! Z.to_nat (1 mod Z.of_nat (length (largest_vals count))) = Some r /\
    (forall k, k ∈ largest_vals count ->
               exists i, i < length (largest_vals count) /\
                         forall rnd', rnd' 0 = Z.of_nat i ->
                                      get_mc rnd' count 0 = Ok k 1).
Proof.
  intros count. split; [split; reflexivity|].
  apply (get_mc_uniform_among_ties (fun _ => 1%Z) count 0).
  - apply (bool_decide_unpack _). vm_compute. exact I.
  - discriminate.
Defined.

(** ** One node's memory *)

Section MemoryFacts.

Implicit Types (count : Counter) (k : string) (v : Z) (l : list string).

Lemma counter_set_get count k v k' :
  counter_get (counter_set count k v) k'
  = if decide (k = k') then v else counter_get count k'.
Proof.
  induction count as [|[k0 v0] rest IH]; simpl.
  - destruct (String.eqb_spec k k'); by case_decide.
  - destruct (String.eqb_spec k0 k) as [->|Hne]; simpl.
    + destruct (String.eqb_spec k k'); by case_decide.
    + rewrite IH. destruct (String.eqb_spec k0 k'); [|done].
      subst. by case_decide.
Qed.

Lemma counter_set_keys count k v :
  keys (counter_set count k v)
  = if decide (k ∈ keys count) then keys count else keys count ++ [k].
Proof.
  unfold keys. induction count as [|[k0 v0] rest IH]; csimpl.
  - first [done|case_decide as Hin; [by apply elem_of_nil in Hin|done]].
  - destruct (String.eqb_spec k0 k) as [->|Hne]; csimpl.
    + rewrite decide_True; [done|by left].
    + rewrite IH. case_decide as Hin.
      * rewrite decide_True; [done|by right].
      * rewrite decide_False; [done|].
        rewrite not_elem_of_cons. split; [done|done].
Qed.

Lemma counter_set_NoDup count k v :
  NoDup (keys count) -> NoDup (keys (counter_set count k v)).
Proof.
  intros Hnd. rewrite counter_set_keys. case_decide as Hin; [done|].
  apply NoDup_app. split_and!; [done| |apply NoDup_singleton].
  intros x Hx Hx'. apply list_elem_of_singleton in Hx'. by subst.
Qed.

Lemma counter_set_sum count k v :
  sumZ (values (counter_set count k v))
  = (sumZ (values count) - counter_get count k + v)%Z.
Proof.
  unfold values. induction count as [|[k0 v0] rest IH]; csimpl; [lia|].
  destruct (String.eqb_spec k0 k); csimpl; [lia|]. rewrite IH. lia.
Qed.

Lemma counter_set_positive count k v :
  (0 < v)%Z -> Forall (fun kv => (0 < kv.2)%Z) count ->
  Forall (fun kv => (0 < kv.2)%Z) (counter_set count k v).
Proof.
  intros Hv. induction count as [|[k0 v0] rest IH]; simpl.
  - intros _. by repeat constructor.
  - rewrite Forall_cons. intros [H0 Hrest].
    destruct (String.eqb_spec k0 k); constructor; auto.
Qed.

Lemma counter_del_sublist count k : counter_del count k `sublist_of` count.
Proof.
  induction count as [|[k0 v0] rest IH]; simpl; [done|].
  destruct (String.eqb_spec k0 k).
  - by apply sublist_cons.
  - by apply sublist_skip.
Qed.

Lemma counter_del_NoDup count k :
  NoDup (keys count) -> NoDup (keys (counter_del count k)).
Proof.
  intros Hnd. eapply sublist_NoDup; [exact Hnd|].
  apply fmap_sublist, counter_del_sublist.
Qed.

(** A key set to any value and then deleted leaves the other items. *)
Lemma counter_del_set_positive count k v :
  Forall (fun kv => (0 < kv.2)%Z) count ->
  Forall (fun kv => (0 < kv.2)%Z) (counter_del (counter_set count k v) k).
Proof.
  induction count as [|[k0 v0] rest IH]; simpl; intros Hpos.
  - rewrite String.eqb_refl. constructor.
  - apply Forall_cons in Hpos as [H0 Hrest].
    destruct (String.eqb_spec k0 k) as [->|Hne]; simpl.
    + by rewrite String.eqb_refl.
    + destruct (String.eqb_spec k0 k); [done|]. constructor; auto.
Qed.

Lemma counter_del_get count k k' :
  NoDup (keys count) ->
  counter_get (counter_del count k) k'
  = if decide (k = k') then 0%Z else counter_get count k'.
Proof.
  unfold keys. induction count as [|[k0 v0] rest IH]; simpl.
  - intros _. by case_decide.
  - rewrite NoDup_cons. intros [Hk0 Hnd].
    destruct (String.eqb_spec k0 k) as [->|Hne]; simpl.
    + case_decide as Hk.
      * subst. by apply counter_get_missing.
      * by destruct (String.eqb_spec k k').
    + rewrite IH by done. destruct (String.eqb_spec k0 k'); [|done].
      subst. by case_decide.
Qed.

Lemma counter_del_sum count k :
  sumZ (values (counter_del count k))
  = (sumZ (values count) - counter_get count k)%Z.
Proof.
  unfold values. induction count as [|[k0 v0] rest IH]; csimpl; [lia|].
  destruct (String.eqb_spec k0 k); csimpl; [lia|]. rewrite IH. lia.
Qed.

Lemma counter_get_nonneg count k :
  Forall (fun kv => (0 < kv.2)%Z) count -> (0 <= counter_get count k)%Z.
Proof.
  induction count as [|[k0 v0] rest IH]; simpl; [done|].
  rewrite Forall_cons. simpl. intros [H0 Hrest].
  destruct (String.eqb_spec k0 k); [lia|auto].
Qed.

Lemma counter_get_positive count k :
  Forall (fun kv => (0 < kv.2)%Z) count -> k ∈ keys count ->
  (0 < counter_get count k)%Z.
Proof.
  intros Hpos Hin. apply counter_get_key in Hin.
  rewrite Forall_forall in Hpos. by apply Hpos in Hin.
Qed.

Lemma occurrences_app l1 l2 k :
  occurrences (l1 ++ l2) k = occurrences l1 k + occurrences l2 k.
Proof. unfold occurrences. by rewrite filter_app, length_app. Qed.

Lemma occurrences_cons x l k :
  occurrences (x :: l) k
  = (if decide (x = k) then 1 else 0) + occurrences l k.
Proof. unfold occurrences. rewrite filter_cons. by case_decide. Qed.

Lemma occurrences_nil k : occurrences [] k = 0.
Proof. done. Qed.

Lemma occurrences_elem l k : k ∈ l <-> 0 < occurrences l k.
Proof.
  induction l as [|x l IH].
  - rewrite occurrences_nil. split; [by intros ?%elem_of_nil|lia].
  - rewrite occurrences_cons, elem_of_cons, IH.
    case_decide as Hx; split.
    + lia.
    + intros _. by left.
    + intros [Heq|Hpos]; [by subst|lia].
    + intros Hpos. right. lia.
Qed.

Lemma relabel_first_length rumor new_rumor l :
  length (relabel_first rumor new_rumor l) = length l.
Proof.
  induction l as [|x l IH]; simpl; [done|].
  destruct (String.eqb_spec x rumor); simpl; by rewrite ?IH.
Qed.

(** The relabelled entry is the first one that holds [rumor]; the
    entries before and after it are untouched. *)
Lemma relabel_first_split rumor new_rumor l :
  rumor ∈ l ->
  exists l1 l2,
    l = l1 ++ rumor :: l2 /\ (rumor ∉ l1) /\
    relabel_first rumor new_rumor l = l1 ++ new_rumor :: l2.
Proof.
  induction l as [|x l IH]; simpl.
  - by intros ?%elem_of_nil.
  - intros Hin. destruct (String.eqb_spec x rumor) as [->|Hne].
    + exists [], l. split_and!; [done|apply not_elem_of_nil|done].
    + apply elem_of_cons in Hin as [->|Hin]; [done|].
      destruct (IH Hin) as (l1 & l2 & -> & Hnin & ->).
      exists (x :: l1), l2. split_and!; [done| |done].
      rewrite not_elem_of_cons. by split.
Qed.

Lemma mem_ok_nil : mem_ok [] [].
Proof.
  split_and!; try done.
  - constructor.
Qed.

Lemma mem_ok_held count l k :
  mem_ok count l -> k ∈ keys count -> k ∈ l.
Proof.
  intros (Hnd & Hpos & Hocc & Hsum) Hin.
  apply occurrences_elem. pose proof (counter_get_positive _ _ Hpos Hin).
  rewrite Hocc in *. lia.
Qed.

Lemma counter_incr_ok count l up :
  mem_ok count l -> mem_ok (counter_incr count up) (l ++ [up]).
Proof.
  intros (Hnd & Hpos & Hocc & Hsum). unfold counter_incr.
  pose proof (counter_get_nonneg count up Hpos).
  split_and!.
  - by apply counter_set_NoDup.
  - apply counter_set_positive; [lia|done].
  - intros k. rewrite counter_set_get, occurrences_app, occurrences_cons.
    rewrite !Hocc, occurrences_nil.
    repeat case_decide; subst; lia.
  - rewrite counter_set_sum, length_app. simpl. lia.
Qed.

Lemma counter_decr_ok count first rest :
  mem_ok count (first :: rest) -> mem_ok (counter_decr count first) rest.
Proof.
  intros (Hnd & Hpos & Hocc & Hsum). unfold counter_decr.
  pose proof (Hocc first) as Hfirst. rewrite occurrences_cons in Hfirst.
  rewrite decide_True in Hfirst by done.
  rewrite counter_set_get, decide_True by done.
  destruct (Z.eqb_spec (counter_get count first - 1) 0) as [Hz|Hnz].
  - split_and!.
    + by apply counter_del_NoDup, counter_set_NoDup.
    + by apply counter_del_set_positive.
    + intros k. rewrite counter_del_get by by apply counter_set_NoDup.
      rewrite counter_set_get. pose proof (Hocc k) as Hk.
      rewrite occurrences_cons in Hk. repeat case_decide; subst; lia.
    + rewrite counter_del_sum, counter_set_sum, counter_set_get.
      rewrite decide_True by done. simpl in Hsum. lia.
  - split_and!.
    + by apply counter_set_NoDup.
    + apply counter_set_positive; [lia|done].
    + intros k. rewrite counter_set_get. pose proof (Hocc k) as Hk.
      rewrite occurrences_cons in Hk. repeat case_decide; subst; lia.
    + rewrite counter_set_sum. simpl in Hsum. lia.
Qed.

End MemoryFacts.

(** ** Operations on one memory *)

Section MemOps.

Implicit Types (count : Counter) (l : list string) (k up : string).

Lemma counter_decr_ok_gen count l l' k :
  mem_ok count l ->
  (forall k', occurrences l k'
              = occurrences l' k' + (if decide (k = k') then 1 else 0)) ->
  length l = S (length l') ->
  mem_ok (counter_decr count k) l'.
Proof.
  intros (Hnd & Hpos & Hocc & Hsum) Hrel Hlen. unfold counter_decr.
  pose proof (Hrel k) as Hk. rewrite decide_True in Hk by done.
  rewrite counter_set_get, decide_True by done.
  destruct (Z.eqb_spec (counter_get count k - 1) 0) as [Hz|Hnz].
  - split_and!.
    + by apply counter_del_NoDup, counter_set_NoDup.
    + by apply counter_del_set_positive.
    + intros k'. rewrite counter_del_get by by apply counter_set_NoDup.
      rewrite counter_set_get. pose proof (Hrel k') as Hk'.
      pose proof (Hocc k'). pose proof (Hocc k).
      repeat case_decide; subst; lia.
    + rewrite counter_del_sum, counter_set_sum, counter_set_get.
      rewrite decide_True by done. lia.
  - pose proof (Hocc k). split_and!.
    + by apply counter_set_NoDup.
    + apply counter_set_positive; [lia|done].
    + intros k'. rewrite counter_set_get. pose proof (Hrel k') as Hk'.
      pose proof (Hocc k'). repeat case_decide; subst; lia.
    + rewrite counter_set_sum. lia.
Qed.

Lemma relabel_first_occurrences rumor new_rumor l k :
  rumor ∈ l ->
  occurrences (relabel_first rumor new_rumor l) k
  + (if decide (rumor = k) then 1 else 0)
  = occurrences l k + (if decide (new_rumor = k) then 1 else 0).
Proof.
  intros Hin.
  destruct (relabel_first_split rumor new_rumor l Hin)
    as (l1 & l2 & -> & _ & ->).
  rewrite !occurrences_app, !occurrences_cons. lia.
Qed.

Lemma mutate_mem_ok count l rumor new_rumor :
  mem_ok count l -> rumor ∈ l ->
  mem_ok (counter_decr (counter_incr count new_rumor) rumor)
         (relabel_first rumor new_rumor l).
Proof.
  intros Hok Hin.
  apply (counter_decr_ok_gen _ (l ++ [new_rumor])).
  - by apply counter_incr_ok.
  - intros k'. rewrite occurrences_app, occurrences_cons, occurrences_nil.
    pose proof (relabel_first_occurrences rumor new_rumor l k' Hin). lia.
  - rewrite length_app, relabel_first_length. simpl. lia.
Qed.

(** Insertion with eviction keeps the invariant of a memory. *)
Lemma insert_mem_inv L m up :
  mem_inv L m -> mem_inv L (insert_mem L m up).
Proof.
  destruct m as [[count l] ins]. intros [Hok Hlen].
  unfold insert_mem, append_mem, evict_mem.
  pose proof (counter_incr_ok count l up Hok) as Hok'.
  destruct (l ++ [up]) as [|first rest] eqn:Happ.
  { by destruct l. }
  assert (length (first :: rest) = S (length l)) as Hlen'.
  { rewrite <- Happ, length_app. simpl. lia. }
  destruct (Z.ltb_spec L (Z.of_nat (length (first :: rest)))) as [Hlt|Hge];
    simpl length in *.
  - split; [by apply counter_decr_ok|lia].
  - split; [done|]. simpl length. lia.
Qed.

(** Mutation of a held rumor keeps the invariant of a memory. *)
Lemma mutate_mem_inv L m rumor new_rumor :
  mem_inv L m -> rumor ∈ keys m.1.1 ->
  mem_inv L (mutate_mem rumor new_rumor m).
Proof.
  destruct m as [[count l] ins]. intros [Hok Hlen] Hin. simpl in *.
  split.
  - apply mutate_mem_ok; [done|]. by eapply mem_ok_held.
  - by rewrite relabel_first_length.
Qed.

End MemOps.

(** ** Operations on the arrays of the state *)

Section SimOps.

Implicit Types (st : sim) (n i j : nat).

Lemma mem_append_wf n st j up : sim_wf n st -> sim_wf n (mem_append j up st).
Proof.
  intros (Hd & Hl & Hi). unfold sim_wf, mem_append; simpl.
  by rewrite !length_alter.
Qed.

Lemma mem_append_node n st j up j' :
  sim_wf n st -> j < n ->
  node_mem (mem_append j up st) j'
  = if decide (j' = j) then append_mem up (node_mem st j)
    else node_mem st j'.
Proof.
  intros (Hd & Hl & Hi) Hj. unfold node_mem, mem_append; simpl.
  case_decide as Heq.
  - subst j'. by rewrite !list_lookup_total_alter_eq by lia.
  - by rewrite !list_lookup_total_alter_ne by done.
Qed.

Lemma mem_evict_wf L n st j : sim_wf n st -> sim_wf n (mem_evict L j st).
Proof.
  intros (Hd & Hl & Hi). unfold mem_evict.
  destruct (mem_list st !! j) as [[|first rest]|]; try done.
  case_match; [|done]. unfold sim_wf; simpl.
  by rewrite length_alter, length_insert.
Qed.

Lemma mem_evict_node L n st j j' :
  sim_wf n st -> j < n ->
  node_mem (mem_evict L j st) j'
  = if decide (j' = j) then evict_mem L (node_mem st j)
    else node_mem st j'.
Proof.
  intros (Hd & Hl & Hi) Hj. unfold mem_evict, node_mem, evict_mem.
  destruct (mem_list st !! j) as [[|first rest]|] eqn:Hlook.
  - apply list_lookup_total_correct in Hlook.
    case_decide; subst; by rewrite ?Hlook.
  - apply list_lookup_total_correct in Hlook as Htot. rewrite Htot.
    case_match; simpl.
    + case_decide as Heq.
      * subst j'. rewrite list_lookup_total_alter_eq by lia.
        by rewrite list_lookup_total_insert_eq by lia.
      * rewrite list_lookup_total_alter_ne by done.
        by rewrite list_lookup_total_insert_ne by done.
    + case_decide; subst; by rewrite ?Htot.
  - apply lookup_ge_None_1 in Hlook. lia.
Qed.

Lemma mem_insert_wf L n st j up :
  sim_wf n st -> sim_wf n (mem_insert L j up st).
Proof. intros Hwf. by apply mem_evict_wf, mem_append_wf. Qed.

Lemma mem_insert_node L n st j up j' :
  sim_wf n st -> j < n ->
  node_mem (mem_insert L j up st) j'
  = if decide (j' = j) then insert_mem L (node_mem st j) up
    else node_mem st j'.
Proof.
  intros Hwf Hj. unfold mem_insert, insert_mem.
  rewrite (mem_evict_node L n) by (by try apply mem_append_wf).
  rewrite !(mem_append_node n) by done.
  case_decide; [|done]. by rewrite decide_True.
Qed.

Lemma mem_insert_H L st j up : H (mem_insert L j up st) = H st.
Proof.
  unfold mem_insert, mem_evict.
  destruct (mem_list (mem_append j up st) !! j) as [[|first rest]|];
    try done.
  by case_match.
Qed.

Lemma mutate_held_wf n st i rumor new_rumor :
  sim_wf n st -> sim_wf n (mutate_held i rumor new_rumor st).
Proof.
  intros (Hd & Hl & Hi). unfold sim_wf, mutate_held; simpl.
  by rewrite !length_alter.
Qed.

Lemma mutate_held_node n st i rumor new_rumor j' :
  sim_wf n st -> i < n ->
  node_mem (mutate_held i rumor new_rumor st) j'
  = if decide (j' = i) then mutate_mem rumor new_rumor (node_mem st i)
    else node_mem st j'.
Proof.
  intros (Hd & Hl & Hi) Hlt. unfold node_mem, mutate_held; simpl.
  case_decide as Heq.
  - subst j'. by rewrite !list_lookup_total_alter_eq by lia.
  - by rewrite !list_lookup_total_alter_ne by done.
Qed.

Lemma with_H_wf n st h : sim_wf n st -> sim_wf n (with_H st h).
Proof. done. Qed.

Lemma with_H_node st h j : node_mem (with_H st h) j = node_mem st j.
Proof. done. Qed.

(** The queued rumors of node [j] are inserted into the memory of
    [j], in their order in the queue, and into no other memory. *)
Lemma foldl_mem_insert L n st j ul :
  sim_wf n st -> j < n ->
  let st' := foldl (fun st up => mem_insert L j up st) st ul in
  sim_wf n st' /\ H st' = H st /\
  forall j', node_mem st' j'
             = if decide (j' = j) then foldl (insert_mem L) (node_mem st j) ul
               else node_mem st j'.
Proof.
  intros Hwf Hj. revert st Hwf.
  induction ul as [|up ul IH]; intros st Hwf; simpl.
  - split_and!; [done|done|]. intros j'. by case_decide; subst.
  - destruct (IH (mem_insert L j up st)) as (Hwf' & HH & Hnode).
    { by apply mem_insert_wf. }
    split_and!; [done|by rewrite HH, mem_insert_H|].
    intros j'. rewrite Hnode, !(mem_insert_node L n) by done.
    case_decide; [|done]. by rewrite decide_True.
Qed.

Lemma apply_updates_node L n st j0 updates :
  sim_wf n st -> j0 + length updates <= n ->
  let st' := apply_updates L j0 updates st in
  sim_wf n st' /\ H st' = H st /\
  forall j, node_mem st' j
            = if decide (j0 <= j < j0 + length updates)
              then foldl (insert_mem L) (node_mem st j)
                         (updates !!! (j - j0))
              else node_mem st j.
Proof.
  revert st j0. induction updates as [|ul updates IH];
    intros st j0 Hwf Hlen; simpl in *.
  - split_and!; [done|done|]. intros j. case_decide; [lia|done].
  - destruct (foldl_mem_insert L n st j0 ul Hwf) as (Hwf1 & HH1 & Hnode1);
      [lia|].
    destruct (IH _ (S j0) Hwf1) as (Hwf2 & HH2 & Hnode2); [lia|].
    split_and!; [done|by rewrite HH2|].
    intros j. rewrite Hnode2, !Hnode1.
    destruct (decide (j = j0)) as [->|Hne].
    + rewrite decide_False by lia. rewrite decide_True by lia.
      by rewrite Nat.sub_diag.
    + repeat case_decide; try lia; try done.
      by replace (j - j0) with (S (j - S j0)) by lia.
Qed.

End SimOps.

(** ** Reasoning about monadic code *)

Lemma bind_Ok {A B} (m : M A) (f : A -> M B) c b c' :
  bind m f c = Ok b c' -> exists a c1, m c = Ok a c1 /\ f a c1 = Ok b c'.
Proof. unfold bind. destruct (m c) as [a c1| |]; [eauto|done|done]. Qed.

Lemma ret_Ok {A} (a b : A) c c' : ret a c = Ok b c' -> a = b /\ c = c'.
Proof. unfold ret. by intros [= -> ->]. Qed.

Lemma raise_Ok {A} e (b : A) c c' : raise e c = Ok b c' -> False.
Proof. done. Qed.

(** Decompose a hypothesis [m c = Ok r c'] along the binds of [m]. *)
Ltac inv_M Hrun :=
  repeat match type of Hrun with
  | bind _ _ _ = Ok _ _ =>
      let a := fresh "a" in let c := fresh "c" in let Hm := fresh "Hm" in
      apply bind_Ok in Hrun as (a & c & Hm & Hrun)
  | ret _ _ = Ok _ _ => apply ret_Ok in Hrun as [? ?]
  | raise _ _ = Ok _ _ => by apply raise_Ok in Hrun
  end.

Lemma forM_app {A S} (f : A -> S -> M S) l1 l2 s c :
  forM f (l1 ++ l2) s c = bind (forM f l1 s) (forM f l2) c.
Proof.
  revert s c. induction l1 as [|x l1 IH]; intros s c; simpl.
  - done.
  - unfold bind in *. destruct (f x s c) as [s1 c1| |]; [apply IH|done|done].
Qed.

(** A property kept by every step of a loop holds when the loop ends. *)
Lemma forM_inv {A S} (P : S -> Prop) (f : A -> S -> M S) l :
  (forall x s c s' c', x ∈ l -> P s -> f x s c = Ok s' c' -> P s') ->
  forall s c s' c', P s -> forM f l s c = Ok s' c' -> P s'.
Proof.
  induction l as [|x l IH]; intros Hstep s c s' c' HP Hrun; simpl in Hrun.
  - apply ret_Ok in Hrun as [-> _]. done.
  - apply bind_Ok in Hrun as (s1 & c1 & Hx & Hrun).
    eapply IH; [|eapply Hstep; [left|exact HP|exact Hx]|exact Hrun].
    intros y t d t' d' Hy. apply Hstep. by right.
Qed.

(** A loop whose steps all return does return. *)
Lemma forM_total {A S} (P : S -> Prop) (f : A -> S -> M S) l :
  (forall x s c, x ∈ l -> P s -> exists s' c', f x s c = Ok s' c' /\ P s') ->
  forall s c, P s -> exists s' c', forM f l s c = Ok s' c' /\ P s'.
Proof.
  induction l as [|x l IH]; intros Hstep s c HP; simpl.
  - by exists s, c.
  - destruct (Hstep x s c) as (s1 & c1 & Hx & HP1); [left|done|].
    destruct (IH (fun y t d Hy => Hstep y t d (list_elem_of_further _ _ _ Hy))
                 s1 c1 HP1) as (s' & c' & Hrun & HP').
    exists s', c'. split; [|done]. unfold bind. by rewrite Hx.
Qed.

(** A loop raises what one of its steps raises. *)
Lemma forM_raise {A S} (f : A -> S -> M S) l1 x l2 s c s1 c1 e :
  forM f l1 s c = Ok s1 c1 -> f x s1 c1 = Raise e ->
  forM f (l1 ++ x :: l2) s c = Raise e.
Proof.
  intros Hpre Hx. rewrite forM_app. unfold bind at 1. rewrite Hpre.
  simpl. unfold bind. by rewrite Hx.
Qed.

(** A loop whose steps all do nothing does nothing. *)
Lemma forM_skip {A S} (f : A -> S -> M S) l s c :
  (forall x, x ∈ l -> f x s c = Ok s c) -> forM f l s c = Ok s c.
Proof.
  induction l as [|x l IH]; intros Hskip; simpl; [done|].
  unfold bind. rewrite Hskip by left. apply IH.
  intros y Hy. apply Hskip. by right.
Qed.

Lemma choice_elem {A} rnd (l : list A) c x c' :
  choice rnd l c = Ok x c' -> x ∈ l /\ c' = S c.
Proof.
  intros Hrun. destruct l as [|x0 l0]; [discriminate Hrun|].
  destruct (choice_lookup rnd (x0 :: l0) c) as (y & Hy & Hlook); [done|].
  rewrite Hy in Hrun. injection Hrun as <- <-.
  split; [by eapply list_elem_of_lookup_2|done].
Qed.

Lemma largest_vals_keys count k : k ∈ largest_vals count -> k ∈ keys count.
Proof.
  unfold largest_vals, keys.
  destruct (most_common count) as [|[k0 n0] rest] eqn:Hmc.
  { by intros ?%elem_of_nil. }
  rewrite <- Hmc. intros ([k1 v1] & -> & Hin)%list_elem_of_fmap.
  apply list_elem_of_filter in Hin as [_ Hin].
  rewrite most_common_perm in Hin.
  apply list_elem_of_fmap. by exists (k1, v1).
Qed.

Lemma get_mc_key rnd count c r c' :
  get_mc rnd count c = Ok r c' -> r ∈ keys count.
Proof.
  intros Hrun. destruct count as [|kv count]; [discriminate Hrun|].
  rewrite get_mc_choice in Hrun by done.
  apply choice_elem in Hrun as [Hin _]. by apply largest_vals_keys.
Qed.

Lemma pick_weighted_elem {A} (items : list (A * Z)) r x :
  pick_weighted items r = Some x -> x ∈ items.*1.
Proof.
  revert r. induction items as [|[y w] items IH]; intros r; simpl; [done|].
  destruct (r <? w)%Z.
  - intros [= ->]. by left.
  - intros Hpick. right. by eapply IH.
Qed.

Lemma choice_weighted_key {A} rnd (items : list (A * Z)) c x c' :
  choice_weighted rnd items c = Ok x c' -> x ∈ items.*1.
Proof.
  unfold choice_weighted. intros Hrun. inv_M Hrun.
  destruct (pick_weighted _ _) as [y|] eqn:Hpick; [|done].
  apply ret_Ok in Hrun as [-> _]. by eapply pick_weighted_elem.
Qed.

(** ** One round of [run_rumors] *)

Section RoundFacts.

Variables (rnd : nat -> Z) (bernoulli : option R -> Z -> option bool).
Variables (edges : matrix nat) (K Hmax : R) (eta : matrix R) (L : Z)
          (mcr : bool) (liars truths : list nat).

Local Abbreviation n := (length edges).
Local Abbreviation role j := (j ∈ liars \/ j ∈ truths).
Local Abbreviation queued := (queued liars truths).
Local Abbreviation offer' := (offer rnd bernoulli edges eta liars truths).
Local Abbreviation node_step' :=
  (node_step rnd bernoulli edges K Hmax eta mcr liars truths).
Local Abbreviation broadcast_phase' :=
  (broadcast_phase rnd bernoulli edges K Hmax eta mcr liars truths).
Local Abbreviation round' :=
  (round rnd bernoulli edges K Hmax eta L mcr liars truths).
Local Abbreviation rounds' :=
  (rounds rnd bernoulli edges K Hmax eta L mcr liars truths).

Lemma queued_refl updates : queued updates updates.
Proof.
  split_and!; [done|done|]. intros j. exists []. by rewrite app_nil_r.
Qed.

Lemma queued_trans u1 u2 u3 : queued u1 u2 -> queued u2 u3 -> queued u1 u3.
Proof.
  intros (Hl1 & Hr1 & Ha1) (Hl2 & Hr2 & Ha2). split_and!.
  - congruence.
  - intros j Hj. by rewrite Hr2, Hr1.
  - intros j. destruct (Ha1 j) as [m1 Hm1], (Ha2 j) as [m2 Hm2].
    exists (m1 ++ m2). by rewrite Hm2, Hm1, app_assoc.
Qed.

Lemma queued_accept updates j rumor :
  ~ role j -> queued updates (alter (fun u => u ++ [rumor]) j updates).
Proof.
  intros Hj. split_and!.
  - by rewrite length_alter.
  - intros j' Hj'. rewrite list_lookup_alter_ne; [done|]. by intros ->.
  - intros j'. rewrite list_lookup_total_alter. case_decide as Hd.
    + destruct Hd as [-> _]. by exists [rumor].
    + exists []. by rewrite app_nil_r.
Qed.

Lemma offer_queued i rumor updates c updates' c' :
  offer' i rumor updates c = Ok updates' c' -> queued updates updates'.
Proof.
  unfold offer. intros Hrun.
  eapply (forM_inv (queued updates)); [|apply queued_refl|exact Hrun].
  clear. intros j upd c upd' c' _ Hq Hstep.
  apply bind_Ok in Hstep as (accept & c1 & Hacc & Hstep).
  destruct accept; [|by apply ret_Ok in Hstep as [<- _]].
  case_decide; [|done]. apply ret_Ok in Hstep as [<- _].
  eapply queued_trans; [exact Hq|]. apply queued_accept.
  intros Hrole. rewrite decide_True in Hacc by done.
  by apply ret_Ok in Hacc as [? _].
Qed.

Lemma select_ordinary_effect i st c rumor st' c' :
  select_ordinary rnd bernoulli K Hmax mcr i st c = Ok (rumor, st') c' ->
  ~ role i -> node_effect liars truths i st st'.
Proof.
  unfold select_ordinary. intros Hrun Hrole.
  apply bind_Ok in Hrun as (r & c1 & Hsel & Hrun).
  assert (r ∈ keys (mem_dict st !!! i)) as Hkey.
  { destruct mcr; [by eapply get_mc_key|by eapply choice_weighted_key]. }
  apply bind_Ok in Hrun as (mutate & c2 & _ & Hrun).
  destruct mutate.
  - apply bind_Ok in Hrun as (bitflip & c3 & _ & Hrun).
    apply bind_Ok in Hrun as (new_rumor & c4 & _ & Hrun).
    apply ret_Ok in Hrun as [[= <- <-] _].
    by apply effect_mutate.
  - apply ret_Ok in Hrun as [[= <- <-] _]. by apply effect_entropy.
Qed.

Lemma node_step_effect i st updates c st' updates' c' :
  node_step' i (st, updates) c = Ok (st', updates') c' ->
  node_effect liars truths i st st' /\ queued updates updates'.
Proof.
  unfold node_step. intros Hrun.
  destruct (sumZ (values (mem_dict st !!! i)) =? 0)%Z.
  { apply ret_Ok in Hrun as [[= <- <-] _].
    split; [constructor|apply queued_refl]. }
  apply bind_Ok in Hrun as ([rumor st1] & c1 & Hsel & Hrun).
  apply bind_Ok in Hrun as (upd & c2 & Hoff & Hrun).
  apply ret_Ok in Hrun as [[= <- <-] _].
  split; [|by eapply offer_queued].
  destruct (decide (role i)) as [Hrole|Hrole].
  - apply bind_Ok in Hsel as (r & c3 & _ & Hsel).
    apply ret_Ok in Hsel as [[= <- <-] _]. constructor.
  - by eapply select_ordinary_effect.
Qed.

(** The effect of a node step on the arrays. *)
Lemma node_effect_wf i st st' :
  sim_wf n st -> node_effect liars truths i st st' -> sim_wf n st'.
Proof.
  intros Hwf Heff.
  destruct Heff as [|Hi Hrole|Hi rumor new_rumor Hrole Hkey].
  - done.
  - by apply with_H_wf.
  - by apply mutate_held_wf, with_H_wf.
Qed.

Lemma node_effect_node i st st' j :
  sim_wf n st -> i < n -> node_effect liars truths i st st' ->
  (j <> i -> node_mem st' j = node_mem st j /\ H st' !!! j = H st !!! j) /\
  (node_mem st' i = node_mem st i \/
   exists rumor new_rumor,
     ~ role i /\ rumor ∈ keys (node_mem st i).1.1 /\
     node_mem st' i = mutate_mem rumor new_rumor (node_mem st i)) /\
  (role i -> st' = st).
Proof.
  intros Hwf Hi Heff.
  destruct Heff as [|Hi' Hrole|Hi' rumor new_rumor Hrole Hkey].
  - split_and!; [done|by left|done].
  - split_and!; [|by left|done].
    intros Hne. split; [done|]. simpl.
    by rewrite list_lookup_total_insert_ne.
  - split_and!; [| |done].
    + intros Hne.
      rewrite (mutate_held_node n) by (try apply with_H_wf; done).
      rewrite decide_False by done. split; [done|]. simpl.
      by rewrite list_lookup_total_insert_ne.
    + right. exists rumor, new_rumor. split_and!; [done|done|].
      rewrite (mutate_held_node n) by (try apply with_H_wf; done).
      by rewrite decide_True.
Qed.

Lemma node_effect_inv i st st' :
  sim_inv L n st -> i < n -> node_effect liars truths i st st' ->
  sim_inv L n st'.
Proof.
  intros [Hwf Hinv] Hi Heff. split; [by eapply node_effect_wf|].
  intros j Hj.
  destruct (node_effect_node i st st' j Hwf Hi Heff) as (Hother & Hown & _).
  destruct (decide (j = i)) as [->|Hne].
  - destruct Hown as [->|(rumor & new_rumor & _ & Hkey & ->)]; [auto|].
    apply mutate_mem_inv; auto.
  - destruct (Hother Hne) as [-> _]. auto.
Qed.

Lemma record_stats_frame st c st' c' :
  record_stats rnd edges st c = Ok st' c' ->
  mem_dict st' = mem_dict st /\ mem_list st' = mem_list st /\
  H st' = H st /\ inserted st' = inserted st.
Proof.
  unfold record_stats. destruct (H st) as [|h hs] eqn:HH; [done|].
  intros Hrun. apply bind_Ok in Hrun as (ops & c1 & _ & Hrun).
  by apply ret_Ok in Hrun as [<- _].
Qed.

(** The state after the first [k] nodes of the broadcast loop. *)
Lemma broadcast_prefix k st0 upd0 c stk updk ck :
  k <= n -> sim_wf n st0 ->
  forM node_step' (seq 0 k) (st0, upd0) c = Ok (stk, updk) ck ->
  sim_wf n stk /\ queued upd0 updk /\
  (forall j, k <= j ->
             node_mem stk j = node_mem st0 j /\ H stk !!! j = H st0 !!! j) /\
  (forall j, own_mutation liars truths st0 stk j) /\
  (forall j, role j ->
             node_mem stk j = node_mem st0 j /\ H stk !!! j = H st0 !!! j).
Proof.
  intros Hk Hwf. revert stk updk ck.
  induction k as [|k IH]; intros stk updk ck Hrun.
  - apply ret_Ok in Hrun as [[= <- <-] _].
    split_and!; [done|apply queued_refl|done|by left|done].
  - rewrite seq_S, forM_app in Hrun. simpl in Hrun.
    apply bind_Ok in Hrun as ([st1 upd1] & c1 & Hpre & Hrun).
    apply bind_Ok in Hrun as ([st2 upd2] & c2 & Hstep & Hrun).
    apply ret_Ok in Hrun as [[= <- <-] _].
    destruct (IH ltac:(lia) _ _ _ Hpre)
      as (Hwf1 & Hq1 & Hrest1 & Hown1 & Hrole1).
    apply node_step_effect in Hstep as [Heff Hq2].
    split_and!.
    + by eapply node_effect_wf.
    + by eapply queued_trans.
    + intros j Hj.
      destruct (node_effect_node k st1 st2 j Hwf1 ltac:(lia) Heff)
        as (Hother & _ & _).
      destruct (Hother ltac:(lia)) as [-> ->]. apply Hrest1. lia.
    + intros j.
      destruct (node_effect_node k st1 st2 j Hwf1 ltac:(lia) Heff)
        as (Hother & Hself & _).
      destruct (decide (j = k)) as [->|Hne].
      * destruct (Hrest1 k ltac:(lia)) as [Hmem _]. unfold own_mutation.
        destruct Hself as [Hs|(rumor & new_rumor & Hr & Hkey & Hs)].
        { left. by rewrite Hs. }
        right. exists rumor, new_rumor. rewrite Hmem in Hkey, Hs. done.
      * destruct (Hother Hne) as [Hmem _]. unfold own_mutation.
        rewrite Hmem. apply Hown1.
    + intros j Hj.
      destruct (node_effect_node k st1 st2 j Hwf1 ltac:(lia) Heff)
        as (Hother & _ & Hrole).
      destruct (decide (j = k)) as [->|Hne].
      * rewrite (Hrole Hj). by apply Hrole1.
      * destruct (Hother Hne) as [-> ->]. by apply Hrole1.
Qed.

Lemma broadcast_phase_inv st c st1 updates c1 :
  sim_inv L n st ->
  broadcast_phase' st c = Ok (st1, updates) c1 -> sim_inv L n st1.
Proof.
  unfold broadcast_phase. intros Hinv Hrun.
  eapply (forM_inv (fun su => sim_inv L n su.1)) in Hrun; [done| |done].
  clear. intros i [st upd] c [st' upd'] c' Hi Hinv Hstep. simpl in *.
  apply elem_of_seq in Hi. apply node_step_effect in Hstep as [Heff _].
  eapply node_effect_inv; [done| |done]. lia.
Qed.

Lemma foldl_insert_mem_inv m ul :
  mem_inv L m -> mem_inv L (foldl (insert_mem L) m ul).
Proof.
  revert m. induction ul as [|up ul IH]; intros m Hm; [done|].
  simpl. by apply IH, insert_mem_inv.
Qed.

Lemma apply_updates_inv st updates :
  sim_inv L n st -> length updates <= n ->
  sim_inv L n (apply_updates L 0 updates st).
Proof.
  intros [Hwf Hinv] Hlen.
  destruct (apply_updates_node L n st 0 updates Hwf ltac:(lia))
    as (Hwf' & _ & Hnode).
  split; [done|]. intros j Hj. rewrite Hnode.
  case_decide; [|auto]. apply foldl_insert_mem_inv; auto.
Qed.

Lemma mem_insert_inv st j up :
  sim_inv L n st -> j < n -> sim_inv L n (mem_insert L j up st).
Proof.
  intros [Hwf Hinv] Hj. split; [by apply mem_insert_wf|].
  intros j' Hj'. rewrite (mem_insert_node L n) by done.
  case_decide; [|auto]. apply insert_mem_inv; auto.
Qed.

Lemma sim_inv_frame st st' :
  mem_dict st' = mem_dict st -> mem_list st' = mem_list st ->
  H st' = H st -> inserted st' = inserted st ->
  sim_inv L n st -> sim_inv L n st'.
Proof.
  unfold sim_inv, sim_wf, node_mem. intros -> -> _ ->. done.
Qed.

(** A round is the broadcast loop, then the queued insertions, then
    the statistics. *)
Lemma round_phases st c st2 c2 :
  round' st c = Ok st2 c2 ->
  exists st1 updates c1,
    broadcast_phase' st c = Ok (st1, updates) c1 /\
    record_stats rnd edges (apply_updates L 0 updates st1) c1 = Ok st2 c2.
Proof.
  unfold round. intros Hrun.
  apply bind_Ok in Hrun as ([st1 updates] & c1 & Hb & Hrun). eauto.
Qed.

Lemma round_inv st c st2 c2 :
  sim_inv L n st -> round' st c = Ok st2 c2 -> sim_inv L n st2.
Proof.
  intros Hinv Hrun.
  apply round_phases in Hrun as (st1 & updates & c1 & Hb & Hstats).
  apply record_stats_frame in Hstats as (Hd & Hl & Hh & Hi).
  eapply sim_inv_frame; [done..|].
  pose proof (broadcast_phase_inv _ _ _ _ _ Hinv Hb) as Hinv1.
  unfold broadcast_phase in Hb.
  apply broadcast_prefix in Hb as (_ & (Hlen & _) & _); [|done|apply Hinv].
  apply apply_updates_inv; [done|].
  rewrite Hlen, length_replicate. done.
Qed.

Lemma rounds_inv num_rounds st c st' c' :
  sim_inv L n st -> rounds' num_rounds st c = Ok st' c' ->
  sim_inv L n st'.
Proof.
  revert st c. induction num_rounds as [|k IH];
    intros st c Hinv Hrun; simpl in Hrun.
  - by apply ret_Ok in Hrun as [<- _].
  - apply bind_Ok in Hrun as (st1 & c1 & Hround & Hrun).
    eapply IH; [|exact Hrun]. by eapply round_inv.
Qed.

(** Liars and truth-tellers come out of a round as they went in. *)
Lemma round_roles st c st2 c2 j :
  sim_wf n st -> round' st c = Ok st2 c2 -> role j -> j < n ->
  node_mem st2 j = node_mem st j /\ H st2 !!! j = H st !!! j.
Proof.
  intros Hwf Hrun Hrole Hj.
  apply round_phases in Hrun as (st1 & updates & c1 & Hb & Hstats).
  apply record_stats_frame in Hstats as (Hd & Hl & Hh & Hi).
  assert (node_mem st2 j = node_mem (apply_updates L 0 updates st1) j)
    as -> by (unfold node_mem; by rewrite Hd, Hl, Hi).
  rewrite Hh. unfold broadcast_phase in Hb.
  apply broadcast_prefix in Hb
    as (Hwf1 & (Hlen & Hq & _) & _ & _ & Hroles); [|done|done].
  destruct (apply_updates_node L n st1 0 updates Hwf1) as (_ & HH & Hnode).
  { rewrite Hlen, length_replicate. lia. }
  rewrite Hnode, HH. destruct (Hroles j Hrole) as [Hm HHj].
  rewrite Hm, HHj. split; [|done]. case_decide; [|done].
  pose proof (Hq j Hrole) as Hqj.
  rewrite lookup_replicate_2 in Hqj by done.
  rewrite Nat.sub_0_r, (list_lookup_total_correct _ _ _ Hqj). done.
Qed.

Lemma round_wf st c st2 c2 :
  sim_wf n st -> round' st c = Ok st2 c2 -> sim_wf n st2.
Proof.
  intros Hwf Hrun.
  apply round_phases in Hrun as (st1 & updates & c1 & Hb & Hstats).
  apply record_stats_frame in Hstats as (Hd & Hl & Hh & Hi).
  unfold sim_wf. rewrite Hd, Hl, Hi.
  unfold broadcast_phase in Hb.
  apply broadcast_prefix in Hb as (Hwf1 & (Hlen & _) & _); [|done|done].
  apply (apply_updates_node L n st1 0 updates Hwf1).
  rewrite Hlen, length_replicate. lia.
Qed.

Lemma rounds_roles num_rounds st c st' c' j :
  sim_wf n st -> rounds' num_rounds st c = Ok st' c' -> role j -> j < n ->
  node_mem st' j = node_mem st j /\ H st' !!! j = H st !!! j.
Proof.
  revert st c. induction num_rounds as [|k IH];
    intros st c Hwf Hrun Hrole Hj; simpl in Hrun.
  - by apply ret_Ok in Hrun as [<- _].
  - apply bind_Ok in Hrun as (st1 & c1 & Hround & Hrun).
    destruct (IH st1 c1) as [-> ->]; [by eapply round_wf|done..|].
    by eapply round_roles.
Qed.

Lemma broadcast_prefix_inv k st0 upd0 c stk updk ck :
  k <= n -> sim_inv L n st0 ->
  forM node_step' (seq 0 k) (st0, upd0) c = Ok (stk, updk) ck ->
  sim_inv L n stk.
Proof.
  intros Hk Hinv Hrun.
  eapply (forM_inv (fun su => sim_inv L n su.1)) in Hrun; [done| |done].
  clear -Hk. intros i [st upd] c [st' upd'] c' Hi Hinv Hstep. simpl in *.
  apply elem_of_seq in Hi. apply node_step_effect in Hstep as [Heff _].
  eapply node_effect_inv; [done| |done]. lia.
Qed.

(** The broadcast loop passes through the state reached after its
    first [k] nodes. *)
Lemma broadcast_phase_split k st0 c st1 updates c1 :
  k <= n ->
  broadcast_phase' st0 c = Ok (st1, updates) c1 ->
  exists stk updk ck,
    forM node_step' (seq 0 k) (st0, replicate n []) c = Ok (stk, updk) ck /\
    forM node_step' (seq k (n - k)) (stk, updk) ck = Ok (st1, updates) c1.
Proof.
  unfold broadcast_phase. intros Hk Hrun.
  replace n with (k + (n - k)) in Hrun at 1 by lia.
  rewrite seq_app, forM_app in Hrun.
  apply bind_Ok in Hrun as ([stk updk] & ck & Hpre & Hpost).
  by exists stk, updk, ck.
Qed.

(** With the draw that decides the mutation saying yes, an ordinary
    node relabels the rumor it selected with the flipped code. *)
Lemma select_ordinary_mutates i st c rumor' st' c' :
  select_ordinary rnd bernoulli K Hmax mcr i st c = Ok (rumor', st') c' ->
  let count := mem_dict st !!! i in
  let Hi := entropy count (sumZ (values count)) in
  bernoulli (mutation_weight Hmax K Hi) (rnd (S c)) = Some true ->
  exists rumor,
    (if mcr then get_mc rnd count else choice_weighted rnd count) c
    = Ok rumor (S c) /\
    flip_bit rumor (Z.to_nat (rnd (S (S c)) mod 5)) (S (S (S c)))
    = Ok rumor' c' /\
    rumor ∈ keys count /\
    st' = mutate_held i rumor rumor' (with_H st (<[i := Hi]> (H st))).
Proof.
  intros Hrun count Hi Hmut. unfold select_ordinary in Hrun.
  fold count in Hrun. fold Hi in Hrun.
  apply bind_Ok in Hrun as (rumor & c1 & Hsel & Hrun).
  assert (c1 = S c /\ rumor ∈ keys count) as [-> Hkey].
  { destruct mcr.
    - split; [|by eapply get_mc_key].
      destruct count as [|kv rest]; [done|].
      rewrite get_mc_choice in Hsel by done.
      by apply choice_elem in Hsel as [_ ->].
    - split; [|by eapply choice_weighted_key].
      unfold choice_weighted in Hsel.
      apply bind_Ok in Hsel as (d & c2 & Hd & Hsel).
      injection Hd as <- <-.
      destruct (pick_weighted _ _); [|done].
      by apply ret_Ok in Hsel as [_ <-]. }
  apply bind_Ok in Hrun as (mutate & c2 & Hm & Hrun).
  unfold choice_bool in Hm.
  apply bind_Ok in Hm as (d & c3 & Hd & Hm). injection Hd as <- <-.
  rewrite Hmut in Hm. apply ret_Ok in Hm as [<- <-].
  apply bind_Ok in Hrun as (bitflip & c4 & Hbit & Hrun).
  destruct (choice_lookup rnd (seq 0 5) (S (S c))) as (b & Hb & Hlook);
    [done|].
  rewrite Hb in Hbit. injection Hbit as <- <-.
  apply lookup_seq in Hlook as [-> _].
  apply bind_Ok in Hrun as (new_rumor & c5 & Hflip & Hrun).
  apply ret_Ok in Hrun as [[= <- <-] <-].
  exists rumor. by split_and!.
Qed.

End RoundFacts.

(** ** The start of a run *)

Lemma not_elem_of_delete {A} (l : list A) i y :
  NoDup l -> l !! i = Some y -> y ∉ delete i l.
Proof.
  intros Hnd Hlook. rewrite delete_take_drop.
  rewrite <- (take_drop_middle l i y Hlook) in Hnd.
  apply NoDup_app in Hnd as (_ & Hdisj & Hnd).
  apply NoDup_cons in Hnd as [Hy _].
  rewrite elem_of_app. intros [Hin|Hin]; [|done].
  apply (Hdisj y Hin). by left.
Qed.

Lemma draw_distinct_spec {A} rnd k (pop : list A) c s c' :
  draw_distinct rnd k pop c = Ok s c' -> NoDup pop ->
  NoDup s /\ (forall x, x ∈ s -> x ∈ pop) /\ length s = k.
Proof.
  revert pop c s c'. induction k as [|k IH]; intros pop c s c' Hrun Hnd;
    simpl in Hrun.
  - apply ret_Ok in Hrun as [<- _].
    split_and!; [constructor|by intros x ?%elem_of_nil|done].
  - destruct pop as [|x0 pop0] eqn:Hpop; [done|]. rewrite <- Hpop in *.
    apply bind_Ok in Hrun as (d & c1 & Hd & Hrun).
    apply bind_Ok in Hrun as (rest & c2 & Hrest & Hrun).
    apply ret_Ok in Hrun as [<- _].
    set (i := Z.to_nat (d mod Z.of_nat (length pop))) in *.
    assert (i < length pop) as Hi.
    { subst i. pose proof (Z.mod_pos_bound d (Z.of_nat (length pop))).
      rewrite Hpop in *. simpl length in *. lia. }
    apply lookup_lt_is_Some_2 in Hi as [y Hy].
    rewrite (nth_lookup_Some _ _ _ _ Hy).
    apply IH in Hrest as (Hnd' & Hsub & Hlen).
    2:{ eapply sublist_NoDup; [exact Hnd|apply sublist_delete]. }
    split_and!.
    + apply NoDup_cons. split; [|done].
      intros Hin. apply Hsub in Hin. by eapply not_elem_of_delete.
    + intros z [->|Hz]%elem_of_cons.
      * by eapply list_elem_of_lookup_2.
      * eapply list_elem_of_delete_inv. by apply Hsub.
    + simpl. by rewrite Hlen.
Qed.

Lemma sample_spec {A} rnd (pop : list A) k c s c' :
  sample rnd pop k c = Ok s c' -> NoDup pop ->
  NoDup s /\ (forall x, x ∈ s -> x ∈ pop) /\ length s = k.
Proof.
  unfold sample. case_decide; [done|]. apply draw_distinct_spec.
Qed.

Lemma foldl_mem_append n st ls code :
  sim_wf n st -> NoDup ls -> (forall l, l ∈ ls -> l < n) ->
  let st' := foldl (fun st l => mem_append l code st) st ls in
  sim_wf n st' /\ H st' = H st /\
  forall j, node_mem st' j
            = if decide (j ∈ ls) then append_mem code (node_mem st j)
              else node_mem st j.
Proof.
  revert st. induction ls as [|l ls IH]; intros st Hwf Hnd Hlt; simpl.
  - split_and!; [done|done|]. intros j.
    destruct (decide (j ∈ [])) as [Hin|]; [by apply elem_of_nil in Hin|done].
  - apply NoDup_cons in Hnd as [Hl Hnd].
    destruct (IH (mem_append l code st)) as (Hwf' & HH & Hnode).
    { by apply mem_append_wf. }
    { done. }
    { intros l' Hl'. apply Hlt. by right. }
    assert (l < n) as Hln by (apply Hlt; by left).
    split_and!; [done|by rewrite HH|].
    intros j. rewrite Hnode, !(mem_append_node n) by done.
    destruct (decide (j = l)) as [->|Hne].
    + rewrite decide_False by done. rewrite decide_True; [done|by left].
    + destruct (decide (j ∈ ls)) as [Hin|Hnin].
      * rewrite decide_True; [done|by right].
      * rewrite decide_False; [done|].
        rewrite not_elem_of_cons. by split.
Qed.

(** The state and the roles that [init_sim] returns. *)
Lemma init_sim_spec rnd init_person edges liarnum truthnum c st liars truths c' :
  init_sim rnd init_person edges liarnum truthnum c = Ok (st, liars, truths) c' ->
  let n := length edges in
  sim_wf n st /\ init_person < n /\
  (forall l, l ∈ liars -> l < n /\ l <> init_person /\ l ∉ truths) /\
  (forall t, t ∈ truths -> t < n /\ t <> init_person) /\
  H st = replicate n 0%R /\
  forall j, j < n ->
    node_mem st j
    = if decide (j ∈ liars) then ([("11111", 1%Z)], ["11111"], 1)
      else if decide (j ∈ truths \/ j = init_person)
           then ([("00000", 1%Z)], ["00000"], 1)
           else ([], [], 0).
Proof.
  intros Hrun n. unfold init_sim in Hrun. fold n in Hrun.
  apply bind_Ok in Hrun as (ls & c1 & Hliars & Hrun).
  apply bind_Ok in Hrun as (ts & c2 & Htruths & Hrun).
  case_decide as Hinit; [|done].
  apply ret_Ok in Hrun as [[= <- <- <-] _].
  apply sample_spec in Hliars as (Hnd_l & Hsub_l & _).
  2:{ apply NoDup_filter, NoDup_seq. }
  apply sample_spec in Htruths as (Hnd_t & Hsub_t & _).
  2:{ apply NoDup_filter, NoDup_seq. }
  assert (Hl : forall l, l ∈ ls -> l < n /\ l <> init_person).
  { intros l Hin. apply Hsub_l, list_elem_of_filter in Hin as [Hne Hin].
    apply elem_of_seq in Hin. split; [lia|done]. }
  assert (Ht : forall t, t ∈ ts -> t < n /\ t <> init_person /\ t ∉ ls).
  { intros t Hin. apply Hsub_t, list_elem_of_filter in Hin as [[Hnl Hne] Hin].
    apply elem_of_seq in Hin. split_and!; [lia|done|done]. }
  set (st0 := Sim (replicate n []) (replicate n []) [] [] [] [] [] []
                  (replicate n 0)).
  assert (Hwf0 : sim_wf n st0).
  { unfold sim_wf, st0; simpl. rewrite !length_replicate.
    split_and!; try done. }
  assert (Hnode0 : forall j, j < n -> node_mem st0 j = ([], [], 0)).
  { intros j Hj. unfold node_mem, st0; simpl.
    by rewrite !lookup_total_replicate_2 by done. }
  destruct (foldl_mem_append n st0 ls "11111" Hwf0 Hnd_l)
    as (Hwf1 & _ & Hnode1); [intros l Hin; by apply Hl|].
  set (st1 := foldl (fun st l => mem_append l "11111" st) st0 ls) in *.
  destruct (foldl_mem_append n st1 ts "00000" Hwf1 Hnd_t)
    as (Hwf2 & _ & Hnode2); [intros t Hin; by apply Ht|].
  set (st2 := foldl (fun st t => mem_append t "00000" st) st1 ts) in *.
  split_and!.
  - by apply with_H_wf, mem_append_wf.
  - done.
  - intros l Hin. destruct (Hl l Hin). split_and!; [done|done|].
    intros Hin'. by apply Ht in Hin' as (_ & _ & Hnin).
  - intros t Hin. by destruct (Ht t Hin) as (? & ? & _).
  - done.
  - intros j Hj. rewrite with_H_node, (mem_append_node n) by done.
    rewrite !Hnode2, !Hnode1, !Hnode0 by done.
    pose proof (Hl j) as Hlj. pose proof (Ht j) as Htj.
    pose proof (Hl init_person) as Hli. pose proof (Ht init_person) as Hti.
    repeat case_decide; subst; try done; naive_solver.
Qed.

Lemma mem_inv_initial L code :
  mem_inv L ([], [], 0) /\ mem_inv L ([(code, 1%Z)], [code], 1).
Proof.
  split.
  - split; [apply mem_ok_nil|]. simpl. lia.
  - split; [|simpl; lia].
    apply (counter_incr_ok [] [] code mem_ok_nil).
Qed.

Lemma init_sim_inv rnd init_person edges liarnum truthnum L c st liars truths c' :
  init_sim rnd init_person edges liarnum truthnum c = Ok (st, liars, truths) c' ->
  sim_inv L (length edges) st.
Proof.
  intros Hrun. apply init_sim_spec in Hrun as (Hwf & _ & _ & _ & _ & Hnode).
  split; [done|]. intros j Hj. rewrite Hnode by done.
  repeat case_decide;
    first [apply (proj1 (mem_inv_initial L ""))
          |apply (proj2 (mem_inv_initial L _))].
Qed.

Lemma run_state_phases rnd bernoulli init_person edges K Hmax num_rounds eta L
      mcr liarnum truthnum c st liars truths c' :
  run_state rnd bernoulli init_person edges K Hmax num_rounds eta L mcr
            liarnum truthnum c = Ok (st, liars, truths) c' ->
  exists st0 c0,
    init_sim rnd init_person edges liarnum truthnum c
    = Ok (st0, liars, truths) c0 /\
    rounds rnd bernoulli edges K Hmax eta L mcr liars truths num_rounds st0 c0
    = Ok st c'.
Proof.
  unfold run_state. intros Hrun.
  apply bind_Ok in Hrun as ([[st0 ls] ts] & c0 & Hinit & Hrun).
  apply bind_Ok in Hrun as (st1 & c1 & Hrounds & Hrun).
  apply ret_Ok in Hrun as [[= <- <- <-] <-]. eauto.
Qed.

Lemma run_state_inv rnd bernoulli init_person edges K Hmax num_rounds eta L
      mcr liarnum truthnum c st liars truths c' :
  run_state rnd bernoulli init_person edges K Hmax num_rounds eta L mcr
            liarnum truthnum c = Ok (st, liars, truths) c' ->
  sim_inv L (length edges) st.
Proof.
  intros Hrun. apply run_state_phases in Hrun as (st0 & c0 & Hinit & Hrounds).
  eapply rounds_inv; [|exact Hrounds]. by eapply init_sim_inv.
Qed.

(** What the invariant says about the memory of a node. *)
Lemma mem_inv_counts L m :
  mem_inv L m ->
  sumZ (values m.1.1) = Z.of_nat (length m.1.2) /\
  ((1 <= L)%Z ->
   (Z.of_nat (length m.1.2) <= L)%Z /\
   Z.of_nat (length m.1.2) = Z.min (Z.of_nat m.2) L).
Proof.
  destruct m as [[count l] ins]. intros [(_ & _ & _ & Hsum) Hlen]. simpl.
  split; [done|]. intros HL. specialize (Hlen HL). lia.
Qed.

(** ** Claims about [run_rumors] *)

Lemma get_mc_single rnd code v k : get_mc rnd [(code, v)] k = Ok code (S k).
Proof.
  unfold get_mc. simpl. rewrite filter_cons, decide_True by done.
  unfold choice, bind, draw, ret. simpl. by rewrite Z.mod_1_r.
Qed.

(** C4. In the state after any number of rounds, a liar holds the single
    code 11111 once, appended once and never again, its slot of the
    entropy array is 0 and its majority is 11111 whatever is drawn; the
    same holds for a truth-teller with 00000. *)
Theorem liar_and_truth_teller_fixed rnd bernoulli init_person edges K Hmax
        num_rounds eta L mcr liarnum truthnum c st liars truths c' :
  run_state rnd bernoulli init_person edges K Hmax num_rounds eta L mcr
            liarnum truthnum c = Ok (st, liars, truths) c' ->
  (forall l, l ∈ liars ->
     node_mem st l = ([("11111", 1%Z)], ["11111"], 1) /\
     H st !!! l = 0%R /\
     forall rnd' k, get_mc rnd' (mem_dict st !!! l) k = Ok "11111" (S k)) /\
  (forall t, t ∈ truths ->
     node_mem st t = ([("00000", 1%Z)], ["00000"], 1) /\
     H st !!! t = 0%R /\
     forall rnd' k, get_mc rnd' (mem_dict st !!! t) k = Ok "00000" (S k)).
Proof.
  intros Hrun. apply run_state_phases in Hrun as (st0 & c0 & Hinit & Hrounds).
  apply init_sim_spec in Hinit as (Hwf & Hip & Hl & Ht & HH & Hnode).
  split.
  - intros l Hin. destruct (Hl l Hin) as (Hlt & Hne & Hnt).
    destruct (rounds_roles rnd bernoulli edges K Hmax eta L mcr liars truths
                num_rounds st0 c0 st c' l Hwf Hrounds)
      as [Hmem HHl]; [by left|done|].
    pose proof (Hnode l Hlt) as Hn. rewrite decide_True in Hn by done.
    rewrite <- Hmem in Hn. split_and!; [done| |].
    + by rewrite HHl, HH, lookup_total_replicate_2.
    + intros rnd' k. unfold node_mem in Hn. injection Hn as -> _ _.
      apply get_mc_single.
  - intros t Hin. destruct (Ht t Hin) as (Hlt & Hne).
    destruct (rounds_roles rnd bernoulli edges K Hmax eta L mcr liars truths
                num_rounds st0 c0 st c' t Hwf Hrounds)
      as [Hmem HHt]; [by right|done|].
    assert (t ∉ liars) as Hnl.
    { intros Hin'. by apply Hl in Hin' as (_ & _ & ?). }
    pose proof (Hnode t Hlt) as Hn. rewrite decide_False in Hn by done.
    rewrite decide_True in Hn by (by left).
    rewrite <- Hmem in Hn. split_and!; [done| |].
    + by rewrite HHt, HH, lookup_total_replicate_2.
    + intros rnd' k. unfold node_mem in Hn. injection Hn as -> _ _.
      apply get_mc_single.
Qed.

Lemma liar_and_truth_teller_fixed_witness :
  exists st liars truths c',
    run_state counting by_parity 0 star3 1 5 3 ones3 2 true 1 1 0
    = Ok (st, liars, truths) c' /\
    liars = [1] /\ truths = [2] /\
    (forall l, l ∈ liars ->
       node_mem st l = ([("11111", 1%Z)], ["11111"], 1) /\
       H st !!! l = 0%R /\
       forall rnd' k, get_mc rnd' (mem_dict st !!! l) k = Ok "11111" (S k)) /\
    (forall t, t ∈ truths ->
       node_mem st t = ([("00000", 1%Z)], ["00000"], 1) /\
       H st !!! t = 0%R /\
       forall rnd' k, get_mc rnd' (mem_dict st !!! t) k = Ok "00000" (S k)).
Proof.
  eexists _, _, _, _. split; [vm_compute; reflexivity|].
  split; [reflexivity|]. split; [reflexivity|].
  eapply (liar_and_truth_teller_fixed counting by_parity 0 star3 1 5 3 ones3 2
                                      true 1 1 0).
  vm_compute; reflexivity.
Defined.

(** C5, as the code has it.  At the head of the round loop, after any
    number of rounds, every memory satisfies the invariant; every step
    of the broadcast loop (with its in-place mutation) and every queued
    insertion (with its eviction) keeps it; and under it the counts of a
    node sum to the length of its sequence, which for a capacity [L] of
    at least 1 is at most [L] and is the minimum of [L] and the number
    of appends. *)
Theorem memory_counts_invariant rnd bernoulli init_person edges K Hmax
        num_rounds eta L mcr liarnum truthnum c st liars truths c' :
  run_state rnd bernoulli init_person edges K Hmax num_rounds eta L mcr
            liarnum truthnum c = Ok (st, liars, truths) c' ->
  let n := length edges in
  sim_inv L n st /\
  (forall s updates i c1 s' updates' c2,
     sim_inv L n s -> i < n ->
     node_step rnd bernoulli edges K Hmax eta mcr liars truths i
               (s, updates) c1 = Ok (s', updates') c2 ->
     sim_inv L n s') /\
  (forall s j up,
     sim_inv L n s -> j < n -> sim_inv L n (mem_insert L j up s)) /\
  (forall s j,
     sim_inv L n s -> j < n ->
     sumZ (values (mem_dict s !!! j)) = Z.of_nat (length (mem_list s !!! j)) /\
     ((1 <= L)%Z ->
      (Z.of_nat (length (mem_list s !!! j)) <= L)%Z /\
      Z.of_nat (length (mem_list s !!! j))
      = Z.min (Z.of_nat (inserted s !!! j)) L)).
Proof.
  intros Hrun n. split_and!.
  - by eapply run_state_inv.
  - intros s updates i c1 s' updates' c2 Hinv Hi Hstep.
    apply node_step_effect in Hstep as [Heff _].
    by eapply node_effect_inv.
  - intros s j up Hinv Hj. by apply mem_insert_inv.
  - intros s j [_ Hinv] Hj. apply (mem_inv_counts L (node_mem s j)). auto.
Qed.

Lemma memory_counts_invariant_witness :
  exists st liars truths c',
    run_state counting by_parity 0 star3 1 5 3 ones3 2 true 1 0 0
    = Ok (st, liars, truths) c' /\
    mem_list st = [["11111"; "01010"]; ["11111"]; ["11111"; "01000"]] /\
    inserted st = [6; 1; 3] /\
    sim_inv 2 3 st /\
    (forall s updates i c1 s' updates' c2,
       sim_inv 2 3 s -> i < 3 ->
       node_step counting by_parity star3 1 5 ones3 true liars truths i
                 (s, updates) c1 = Ok (s', updates') c2 ->
       sim_inv 2 3 s') /\
    (forall s j up,
       sim_inv 2 3 s -> j < 3 -> sim_inv 2 3 (mem_insert 2 j up s)) /\
    (forall s j,
       sim_inv 2 3 s -> j < 3 ->
       sumZ (values (mem_dict s !!! j))
       = Z.of_nat (length (mem_list s !!! j)) /\
       ((1 <= 2)%Z ->
        (Z.of_nat (length (mem_list s !!! j)) <= 2)%Z /\
        Z.of_nat (length (mem_list s !!! j))
        = Z.min (Z.of_nat (inserted s !!! j)) 2)).
Proof.
  eexists _, _, _, _. split; [vm_compute; reflexivity|].
  split; [reflexivity|]. split; [reflexivity|].
  eapply (memory_counts_invariant counting by_parity 0 star3 1 5 3 ones3 2
                                  true 1 0 0).
  vm_compute; reflexivity.
Defined.

(** C5 fails as stated for a capacity below 1: lines 204-205 seed a
    memory without a test of [L].  With [L = 0] the seed node of the
    star holds one rumor at the head of the first round and still holds
    one after the round: its sequence is longer than the capacity and
    than the minimum of the capacity and its number of appends.  Node 1
    accepted the rumor in that round and lost it again at line 266. *)
Lemma seeded_memory_exceeds_zero_capacity :
  exists st0 c0 st c,
    run_state counting by_parity 0 star3 1 5 0 halves3 0 true 0 0 0
    = Ok (st0, [], []) c0 /\
    run_state counting by_parity 0 star3 1 5 1 halves3 0 true 0 0 0
    = Ok (st, [], []) c /\
    mem_list st0 = [["00000"]; []; []] /\ inserted st0 = [1; 0; 0] /\
    mem_list st = [["00100"]; []; []] /\ inserted st = [1; 1; 0] /\
    ~ (Z.of_nat (length (mem_list st !!! 0%nat)) <= 0)%Z /\
    Z.of_nat (length (mem_list st !!! 0))
    <> Z.min (Z.of_nat (inserted st !!! 0)) 0.
Proof.
  eexists _, _, _, _. split; [vm_compute; reflexivity|].
  split; [vm_compute; reflexivity|].
  split_and!; [reflexivity..| |]; simpl; lia.
Qed.

(** C8. In the round that starts from a state [st0] of the run, the
    broadcast loop runs first and the queued insertions after it.  When
    the loop reaches node [k] the memories of [k] and of the nodes after
    it are those of [st0], the memory of an earlier node is that of
    [st0] up to one relabelling of a rumor by that node's own mutation,
    and the accepted rumors sit in the queue; after the loop the memory
    of node [j] receives the rumors queued for [j], in queue order. *)
Theorem round_is_synchronous rnd bernoulli init_person edges K Hmax
        num_rounds eta L mcr liarnum truthnum c0 st0 liars truths c st2 c2 :
  run_state rnd bernoulli init_person edges K Hmax num_rounds eta L mcr
            liarnum truthnum c0 = Ok (st0, liars, truths) c ->
  round rnd bernoulli edges K Hmax eta L mcr liars truths st0 c = Ok st2 c2 ->
  let n := length edges in
  let step := node_step rnd bernoulli edges K Hmax eta mcr liars truths in
  exists st1 updates c1,
    broadcast_phase rnd bernoulli edges K Hmax eta mcr liars truths st0 c
    = Ok (st1, updates) c1 /\
    record_stats rnd edges (apply_updates L 0 updates st1) c1 = Ok st2 c2 /\
    (forall k, k <= n ->
       exists stk updk ck,
         forM step (seq 0 k) (st0, replicate n []) c = Ok (stk, updk) ck /\
         forM step (seq k (n - k)) (stk, updk) ck = Ok (st1, updates) c1 /\
         (forall j, k <= j -> node_mem stk j = node_mem st0 j) /\
         (forall j, own_mutation liars truths st0 stk j) /\
         queued liars truths (replicate n []) updk) /\
    (forall j, j < n ->
       node_mem st2 j
       = foldl (insert_mem L) (node_mem st1 j) (updates !!! j)).
Proof.
  intros Hrun Hround n step.
  apply run_state_inv in Hrun as [Hwf _].
  apply round_phases in Hround as (st1 & updates & c1 & Hb & Hstats).
  exists st1, updates, c1. split_and!; [done|done| |].
  - intros k Hk.
    destruct (broadcast_phase_split _ _ _ _ _ _ _ _ _ k st0 c st1 updates c1
                Hk Hb) as (stk & updk & ck & Hpre & Hpost).
    destruct (broadcast_prefix rnd bernoulli edges K Hmax eta mcr liars truths
                k st0 _ c stk updk ck Hk Hwf Hpre)
      as (_ & Hq & Hrest & Hown & _).
    exists stk, updk, ck. split_and!; [done|done| |done|done].
    intros j Hj. by apply Hrest.
  - intros j Hj.
    apply record_stats_frame in Hstats as (Hd & Hl & _ & Hi).
    unfold broadcast_phase in Hb.
    apply broadcast_prefix in Hb as (Hwf1 & (Hlen & _) & _); [|done|done].
    destruct (apply_updates_node L n st1 0 updates Hwf1) as (_ & _ & Hnode).
    { rewrite Hlen, length_replicate. lia. }
    assert (node_mem st2 j = node_mem (apply_updates L 0 updates st1) j)
      as -> by (unfold node_mem; by rewrite Hd, Hl, Hi).
    rewrite Hnode, decide_True, Nat.sub_0_r; [done|].
    rewrite Hlen, length_replicate. lia.
Qed.

Lemma round_is_synchronous_witness :
  exists st0 liars truths c st2 c2,
    run_state counting by_parity 0 star3 1 5 1 ones3 2 true 1 0 0
    = Ok (st0, liars, truths) c /\
    round counting by_parity star3 1 5 ones3 2 true liars truths st0 c
    = Ok st2 c2 /\
    mem_list st0 = [["00000"; "11111"]; ["11111"]; ["00000"]] /\
    mem_list st2 = [["11111"; "01000"]; ["11111"]; ["01000"; "11111"]] /\
    let n := length star3 in
    let step := node_step counting by_parity star3 1 5 ones3 true liars truths in
    exists st1 updates c1,
      broadcast_phase counting by_parity star3 1 5 ones3 true liars truths st0 c
      = Ok (st1, updates) c1 /\
      record_stats counting star3 (apply_updates 2 0 updates st1) c1
      = Ok st2 c2 /\
      (forall k, k <= n ->
         exists stk updk ck,
           forM step (seq 0 k) (st0, replicate n []) c = Ok (stk, updk) ck /\
           forM step (seq k (n - k)) (stk, updk) ck = Ok (st1, updates) c1 /\
           (forall j, k <= j -> node_mem stk j = node_mem st0 j) /\
           (forall j, own_mutation liars truths st0 stk j) /\
           queued liars truths (replicate n []) updk) /\
      (forall j, j < n ->
         node_mem st2 j
         = foldl (insert_mem 2) (node_mem st1 j) (updates !!! j)).
Proof.
  eexists _, _, _, _, _, _. split; [vm_compute; reflexivity|].
  split; [vm_compute; reflexivity|].
  split; [reflexivity|]. split; [reflexivity|].
  eapply (round_is_synchronous counting by_parity 0 star3 1 5 1 ones3 2 true
                               1 0 0).
  - vm_compute; reflexivity.
  - vm_compute; reflexivity.
Defined.

Lemma flip_bit_cursor rumor bitflip c new_rumor c' :
  flip_bit rumor bitflip c = Ok new_rumor c' -> c' = c.
Proof.
  unfold flip_bit. destruct (get bitflip rumor) as [ch|]; [|done].
  destruct (flip_char ch); [|done]. by intros [_ ->]%ret_Ok.
Qed.

(** C10. When the loop of a round reaches an ordinary node [i] that
    holds a rumor and the draw deciding its mutation says yes, the
    selected rumor is flipped in one bit and, in the sequence of [i], the
    first entry holding the selected rumor takes the new code: the
    entries before and after it, the length of the sequence, the sum of
    the counts and the memories of the other nodes are unchanged. *)
Theorem mutation_relabels_oldest rnd bernoulli init_person edges K Hmax
        num_rounds eta L mcr liarnum truthnum c0 st0 liars truths c
        i st updates ci st' updates' c' :
  run_state rnd bernoulli init_person edges K Hmax num_rounds eta L mcr
            liarnum truthnum c0 = Ok (st0, liars, truths) c ->
  let n := length edges in
  let step := node_step rnd bernoulli edges K Hmax eta mcr liars truths in
  let count := mem_dict st !!! i in
  i < n ->
  forM step (seq 0 i) (st0, replicate n []) c = Ok (st, updates) ci ->
  step i (st, updates) ci = Ok (st', updates') c' ->
  ~ (i ∈ liars \/ i ∈ truths) ->
  sumZ (values count) <> 0%Z ->
  bernoulli (mutation_weight Hmax K (entropy count (sumZ (values count))))
            (rnd (S ci)) = Some true ->
  exists rumor new_rumor l1 l2,
    (if mcr then get_mc rnd count else choice_weighted rnd count) ci
    = Ok rumor (S ci) /\
    flip_bit rumor (Z.to_nat (rnd (S (S ci)) mod 5)) (S (S (S ci)))
    = Ok new_rumor (S (S (S ci))) /\
    mem_list st !!! i = l1 ++ rumor :: l2 /\
    (rumor ∉ l1) /\
    mem_list st' !!! i = l1 ++ new_rumor :: l2 /\
    length (mem_list st' !!! i) = length (mem_list st !!! i) /\
    sumZ (values (mem_dict st' !!! i)) = sumZ (values (mem_dict st !!! i)) /\
    (forall j, j <> i -> node_mem st' j = node_mem st j).
Proof.
  intros Hrun n step count Hi Hpre Hstep Hrole Htot Hmut.
  apply (run_state_inv _ _ _ _ _ _ _ _ L) in Hrun as Hinv0.
  assert (sim_inv L n st) as [Hwf Hinv].
  { eapply broadcast_prefix_inv; [|exact Hinv0|exact Hpre]. lia. }
  unfold step, node_step in Hstep. fold count in Hstep.
  destruct (Z.eqb_spec (sumZ (values count)) 0) as [|_]; [done|].
  apply bind_Ok in Hstep as ([rumor' st1] & c1 & Hsel & Hstep).
  rewrite decide_False in Hsel by done.
  apply bind_Ok in Hstep as (upd & c2 & _ & Hstep).
  apply ret_Ok in Hstep as [[= <- <-] _].
  apply select_ordinary_mutates in Hsel
    as (rumor & Hsel & Hflip & Hkey & ->); [|done].
  apply flip_bit_cursor in Hflip as Hc. subst c1.
  pose proof (Hinv i Hi) as Hmem. unfold node_mem in Hmem.
  fold count in Hmem. destruct Hmem as [Hok Hlen].
  assert (rumor ∈ mem_list st !!! i) as Hheld by by eapply mem_ok_held.
  destruct (relabel_first_split rumor rumor' _ Hheld)
    as (l1 & l2 & Hl & Hnin & Hrel).
  assert (Hnode : forall j,
             node_mem (mutate_held i rumor rumor'
                         (with_H st (<[i:=entropy count (sumZ (values count))]>
                                       (H st)))) j
             = if decide (j = i)
               then mutate_mem rumor rumor' (node_mem st i)
               else node_mem st j).
  { intros j. by rewrite (mutate_held_node n) by done. }
  pose proof (Hnode i) as Hown. rewrite decide_True in Hown by done.
  unfold node_mem in Hown. simpl in Hown.
  injection Hown as Hd' Hl'.
  exists rumor, rumor', l1, l2. split_and!; try done.
  - simpl. by rewrite Hl', Hrel.
  - simpl. by rewrite Hl', relabel_first_length.
  - simpl. rewrite Hd'.
    destruct (mutate_mem_ok count _ rumor rumor' Hok Hheld)
      as (_ & _ & _ & Hsum').
    destruct Hok as (_ & _ & _ & Hsum).
    fold count. rewrite Hsum', Hsum, relabel_first_length. done.
  - intros j Hj. by rewrite Hnode, decide_False.
Qed.

Lemma mutation_relabels_oldest_witness :
  exists st0 liars truths c st updates ci st' updates' c',
    run_state counting by_parity 0 star3 1 5 3 ones3 3 true 1 0 0
    = Ok (st0, liars, truths) c /\
    forM (node_step counting by_parity star3 1 5 ones3 true liars truths)
         (seq 0 2) (st0, replicate 3 []) c = Ok (st, updates) ci /\
    node_step counting by_parity star3 1 5 ones3 true liars truths 2
              (st, updates) ci = Ok (st', updates') c' /\
    mem_list st !!! 2 = ["01010"; "11111"; "11111"] /\
    mem_list st' !!! 2 = ["01010"; "01111"; "11111"] /\
    exists rumor new_rumor l1 l2,
      (if true then get_mc counting (mem_dict st !!! 2)
       else choice_weighted counting (mem_dict st !!! 2)) ci
      = Ok rumor (S ci) /\
      flip_bit rumor (Z.to_nat (counting (S (S ci)) mod 5)) (S (S (S ci)))
      = Ok new_rumor (S (S (S ci))) /\
      mem_list st !!! 2 = l1 ++ rumor :: l2 /\
      (rumor ∉ l1) /\
      mem_list st' !!! 2 = l1 ++ new_rumor :: l2 /\
      length (mem_list st' !!! 2) = length (mem_list st !!! 2) /\
      sumZ (values (mem_dict st' !!! 2)) = sumZ (values (mem_dict st !!! 2)) /\
      (forall j, j <> 2 -> node_mem st' j = node_mem st j).
Proof.
  eexists _, _, _, _, _, _, _, _, _, _.
  split; [vm_compute; reflexivity|].
  split; [vm_compute; reflexivity|].
  split; [vm_compute; reflexivity|].
  split; [reflexivity|]. split; [reflexivity|].
  eapply (mutation_relabels_oldest counting by_parity 0 star3 1 5 3 ones3 3
                                   true 1 0 0).
  - vm_compute; reflexivity.
  - simpl; lia.
  - vm_compute; reflexivity.
  - vm_compute; reflexivity.
  - apply (bool_decide_unpack _). vm_compute. exact I.
  - vm_compute. discriminate.
  - reflexivity.
Defined.

(** ** Matrices *)

Section MatrixFacts.

Context {A : Type} `{!Inhabited A}.
Implicit Types (e : matrix A) (n i j a b : nat).

Lemma square_row n e i : square n e -> i < n -> length (e !!! i) = n.
Proof.
  intros [Hlen Hrows] Hi. apply (Hrows i).
  apply list_lookup_lookup_total_lt. lia.
Qed.

(** Inside a square matrix the checked read returns the entry. *)
Lemma entry_square n e i j c :
  square n e -> i < n -> j < n -> entry e i j c = Ok (at2 e i j) c.
Proof.
  intros [Hlen Hrows] Hi Hj. unfold entry, at2.
  destruct (lookup_lt_is_Some_2 e i ltac:(lia)) as [row Hrow].
  rewrite Hrow, (list_lookup_total_correct _ _ _ Hrow).
  destruct (lookup_lt_is_Some_2 row j) as [x Hx].
  { rewrite (Hrows _ _ Hrow). lia. }
  by rewrite Hx, (list_lookup_total_correct _ _ _ Hx).
Qed.

Lemma square_set2 n e i j v : square n e -> square n (set2 i j v e).
Proof.
  intros [Hlen Hrows]. unfold set2. split; [by rewrite length_alter|].
  intros a row. rewrite list_lookup_alter. case_decide as Heq.
  - subst a. destruct (e !! i) as [r|] eqn:Hr; [|done].
    intros [= <-]. rewrite length_insert. by eapply Hrows.
  - apply Hrows.
Qed.

Lemma at2_set2 n e i j v a b :
  square n e -> i < n -> j < n ->
  at2 (set2 i j v e) a b
  = if decide (a = i /\ b = j) then v else at2 e a b.
Proof.
  intros Hsq Hi Hj. unfold at2, set2.
  pose proof (square_row n e i Hsq Hi) as Hrow.
  destruct Hsq as [Hlen _].
  rewrite list_lookup_total_alter. case_decide as Ha.
  - destruct Ha as [<- _]. rewrite list_lookup_total_insert.
    repeat case_decide; try done; exfalso; naive_solver lia.
  - rewrite decide_False; [done|]. intros [-> _]. apply Ha. lia.
Qed.

Lemma square_replicate n (x : A) : square n (replicate n (replicate n x)).
Proof.
  split; [apply length_replicate|].
  intros i row [-> _]%lookup_replicate. apply length_replicate.
Qed.

End MatrixFacts.

Lemma flatnonzero_elem (row : list nat) k :
  k ∈ flatnonzero row <-> k < length row /\ row !!! k <> 0.
Proof.
  unfold flatnonzero. rewrite list_elem_of_filter, elem_of_seq.
  split; intros [? ?]; split; lia || done.
Qed.

Lemma sum_list_lookup_le (row : list nat) k : row !!! k <= sum_list row.
Proof.
  destruct (row !! k) as [x|] eqn:Hk.
  - rewrite (list_lookup_total_correct _ _ _ Hk).
    apply (sum_list_with_in x Datatypes.id). by eapply list_elem_of_lookup_2.
  - rewrite list_lookup_total_alt, Hk. simpl. lia.
Qed.

Lemma neighbours_degree edges i :
  neighbours edges i <> [] -> 1 <= degree edges i.
Proof.
  unfold neighbours, degree. intros Hne.
  destruct (flatnonzero (edges !!! i)) as [|k ks] eqn:Hfl; [done|].
  assert (k ∈ flatnonzero (edges !!! i)) as Hk by (rewrite Hfl; by left).
  apply flatnonzero_elem in Hk as [_ Hk].
  pose proof (sum_list_lookup_le (edges !!! i) k). lia.
Qed.

Lemma degree_neighbours edges i :
  1 <= degree edges i -> neighbours edges i <> [].
Proof.
  unfold neighbours, degree. intros Hdeg Hnil.
  assert (Hall : forall k, k < length (edges !!! i) -> (edges !!! i) !!! k = 0).
  { intros k Hk. destruct (decide ((edges !!! i) !!! k = 0)) as [|Hne]; [done|].
    assert (k ∈ flatnonzero (edges !!! i)) as Hin
      by by apply flatnonzero_elem.
    rewrite Hnil in Hin. by apply elem_of_nil in Hin. }
  clear Hnil. revert Hdeg Hall. generalize (edges !!! i). intros row.
  induction row as [|x row IH]; simpl; [lia|].
  intros Hsum Hall. pose proof (Hall 0 ltac:(simpl; lia)) as H0.
  simpl in H0. subst x. apply IH; [done|].
  intros k Hk. apply (Hall (S k)). simpl. lia.
Qed.

(** ** The seed graph *)

Lemma at2_outside {A} `{!Inhabited A} n (e : matrix A) i j :
  square n e -> n <= i \/ n <= j -> at2 e i j = inhabitant.
Proof.
  intros [Hlen Hrows] Hout. unfold at2.
  destruct (e !! i) as [row|] eqn:Hi.
  - rewrite (list_lookup_total_correct _ _ _ Hi).
    apply Hrows in Hi as Hrow. apply lookup_lt_Some in Hi.
    rewrite list_lookup_total_alt, (lookup_ge_None_2 row j); [done|lia].
  - by rewrite (list_lookup_total_alt e), Hi.
Qed.

Lemma rand_row_spec rnd k c :
  exists row, rand_row rnd k c = Ok row (c + k) /\ length row = k.
Proof.
  revert c. induction k as [|k IH]; intros c; simpl.
  - exists []. by rewrite Nat.add_0_r.
  - destruct (IH (S c)) as (row & Hrow & Hlen).
    exists (u01 (rnd c) :: row). unfold bind, draw. rewrite Hrow.
    unfold ret. split; [f_equal; lia|simpl; lia].
Qed.

Lemma rand_spec rnd r k c :
  exists e, rand rnd r k c = Ok e (c + r * k) /\ length e = r /\
            forall i row, e !! i = Some row -> length row = k.
Proof.
  revert c. induction r as [|r IH]; intros c; simpl.
  - exists []. rewrite Nat.add_0_r. split_and!; [done|done|].
    intros i row Hi. by rewrite lookup_nil in Hi.
  - destruct (rand_row_spec rnd k c) as (row & Hrow & Hlen).
    destruct (IH (c + k)) as (e & He & Hr & Hrows).
    exists (row :: e). unfold bind. rewrite Hrow, He. unfold ret.
    split_and!; [f_equal; lia|simpl; lia|].
    intros [|i] row'; simpl; [by intros [= <-]|apply Hrows].
Qed.

Lemma symmetric_threshold_square n (e : matrix Q) :
  square n e -> square n (symmetric_threshold e).
Proof.
  intros [Hlen Hrows]. unfold symmetric_threshold.
  split; [by rewrite length_imap|].
  intros i row. rewrite list_lookup_imap.
  destruct (e !! i) as [r|] eqn:Hr; [|done]. intros [= <-].
  rewrite length_imap. by eapply Hrows.
Qed.

Lemma symmetric_threshold_at2 n (e : matrix Q) i j :
  square n e -> i < n -> j < n ->
  at2 (symmetric_threshold e) i j
  = if Qle_bool ((1 # 2) * at2 e i j + (1 # 2) * at2 e j i)%Q (1 # 2)%Q
    then 0 else 1.
Proof.
  intros Hsq Hi Hj. pose proof (square_row n e i Hsq Hi) as Hrow.
  destruct Hsq as [Hlen Hrows]. unfold at2 at 1 2, symmetric_threshold.
  destruct (lookup_lt_is_Some_2 e i) as [r Hr]; [lia|].
  rewrite (list_lookup_total_correct _ _ _ Hr) in *.
  destruct (lookup_lt_is_Some_2 r j) as [x Hx]; [lia|].
  rewrite (list_lookup_total_correct _ _ _ Hx).
  erewrite (list_lookup_total_correct (imap _ e) i);
    [|by rewrite list_lookup_imap, Hr].
  erewrite list_lookup_total_correct; [|by rewrite list_lookup_imap, Hx].
  done.
Qed.

Lemma symmetric_threshold_symmetric n (e : matrix Q) :
  square n e -> symmetric (symmetric_threshold e).
Proof.
  intros Hsq i j. pose proof (symmetric_threshold_square n e Hsq) as Hsq'.
  destruct (decide (i < n /\ j < n)) as [[Hi Hj]|Hout].
  - rewrite !(symmetric_threshold_at2 n) by done.
    assert (Qle_bool ((1 # 2) * at2 e i j + (1 # 2) * at2 e j i)%Q (1 # 2)%Q
            = Qle_bool ((1 # 2) * at2 e j i + (1 # 2) * at2 e i j)%Q (1 # 2)%Q)
      as ->; [|done].
    apply eq_true_iff_eq. rewrite !Qle_bool_iff. by rewrite Qplus_comm.
  - rewrite !(at2_outside n) by (done || lia). done.
Qed.

(** The seed check on the first [k] rows. *)
Lemma seed_check_prefix n k (e : matrix nat) :
  k <= n -> square n e -> symmetric e ->
  let '(e', repeat) :=
    foldl (fun '(e, repeat) i =>
             let e' := set2 i i 0 e in
             (e', if decide (degree e' i = 0) then true else repeat))
          (e, false) (seq 0 k) in
  square n e' /\ symmetric e' /\
  (repeat = false -> forall i, i < k -> 1 <= degree e' i) /\
  (forall i j, at2 e' i j = if decide (i = j /\ i < k) then 0 else at2 e i j).
Proof.
  intros Hk Hsq Hsym. induction k as [|k IH].
  - simpl. split_and!; [done|done|lia|].
    intros i j. rewrite decide_False; [done|lia].
  - rewrite seq_S, foldl_app. simpl.
    destruct (foldl _ _ (seq 0 k)) as [e1 rep1].
    destruct (IH ltac:(lia)) as (Hsq1 & Hsym1 & Hdeg1 & Hat1).
    assert (Hat : forall i j,
               at2 (set2 k k 0 e1) i j
               = if decide (i = j /\ i < S k) then 0 else at2 e i j).
    { intros i j. rewrite (at2_set2 n) by (done || lia). rewrite Hat1.
      repeat case_decide; try done; exfalso; lia. }
    split_and!.
    + by apply square_set2.
    + intros i j. rewrite !Hat. rewrite (Hsym i j).
      repeat case_decide; try done; exfalso; lia.
    + intros Hrep i Hi. destruct (decide (i = k)) as [->|Hne].
      * case_decide; [done|lia].
      * assert (degree (set2 k k 0 e1) i = degree e1 i) as ->.
        { unfold degree, set2. by rewrite list_lookup_total_alter_ne. }
        apply Hdeg1; [|lia]. by case_decide.
    + done.
Qed.

Lemma seed_check_spec n (e : matrix nat) :
  square n e -> symmetric e ->
  square n (seed_check n e).1 /\ symmetric (seed_check n e).1 /\
  ((seed_check n e).2 = false ->
   forall i, i < n -> 1 <= degree (seed_check n e).1 i) /\
  (forall i, at2 (seed_check n e).1 i i = 0).
Proof.
  intros Hsq Hsym. pose proof (seed_check_prefix n n e (le_n n) Hsq Hsym) as Hp.
  unfold seed_check. destruct (foldl _ _ _) as [e' rep]. simpl.
  destruct Hp as (Hsq' & Hsym' & Hdeg & Hat).
  split_and!; [done|done|done|].
  intros i. destruct (decide (i < n)) as [Hi|Hi].
  - rewrite Hat. by rewrite decide_True.
  - rewrite (at2_outside n) by (done || lia). done.
Qed.

(** One pass of the seed loop uses [m0 * m0] fresh draws and returns a
    symmetric square matrix with an empty diagonal; when [repeat] is
    not set no row of it sums to 0. *)
Lemma seed_attempt_spec rnd m0 c :
  exists e repeat,
    seed_attempt rnd m0 c = Ok (e, repeat) (c + m0 * m0) /\
    square m0 e /\ symmetric e /\ (forall i, at2 e i i = 0) /\
    (repeat = false -> forall i, i < m0 -> 1 <= degree e i).
Proof.
  unfold seed_attempt.
  destruct (rand_spec rnd m0 m0 c) as (q & Hq & Hlen & Hrows).
  assert (square m0 q) as Hsq by done.
  pose proof (symmetric_threshold_square m0 q Hsq) as Hsq'.
  pose proof (symmetric_threshold_symmetric m0 q Hsq) as Hsym'.
  destruct (seed_check_spec m0 _ Hsq' Hsym') as (H1 & H2 & H3 & H4).
  destruct (seed_check m0 (symmetric_threshold q)) as [e rep] eqn:Hchk.
  exists e, rep. unfold bind. rewrite Hq. unfold ret. rewrite Hchk.
  by split_and!.
Qed.

(** The seed loop returns the matrix of its first pass that does not set
    [repeat]; the passes before it were discarded whole, and every pass
    draws its own [m0 * m0] numbers. *)
Lemma seed_phase_spec rnd fuel m0 c e c' :
  seed_phase rnd fuel m0 c = Ok e c' ->
  exists k,
    k < fuel /\ c' = c + S k * (m0 * m0) /\
    seed_attempt rnd m0 (c + k * (m0 * m0)) = Ok (e, false) c' /\
    (forall k', k' < k ->
       exists e', seed_attempt rnd m0 (c + k' * (m0 * m0))
                  = Ok (e', true) (c + S k' * (m0 * m0))).
Proof.
  revert c. induction fuel as [|fuel IH]; intros c Hrun; [done|].
  simpl in Hrun.
  destruct (seed_attempt_spec rnd m0 c) as (e0 & rep & Hatt & _).
  unfold bind in Hrun. rewrite Hatt in Hrun. destruct rep.
  - apply IH in Hrun as (k & Hk & Hc' & Hlast & Hprev).
    exists (S k). split_and!; [lia|lia| |].
    + by replace (c + S k * (m0 * m0)) with (c + m0 * m0 + k * (m0 * m0))
        by lia.
    + intros [|k'] Hk'.
      * exists e0. rewrite Nat.add_0_r. rewrite Hatt. f_equal. lia.
      * destruct (Hprev k' ltac:(lia)) as (e' & He').
        exists e'.
        replace (c + S k' * (m0 * m0)) with (c + m0 * m0 + k' * (m0 * m0))
          by lia.
        by replace (c + S (S k') * (m0 * m0))
          with (c + m0 * m0 + S k' * (m0 * m0)) by lia.
  - apply ret_Ok in Hrun as [<- <-]. exists 0.
    split_and!; try lia.
    rewrite Nat.add_0_r. rewrite Hatt. f_equal; lia.
Qed.

(** ** Growth *)

Lemma sum_list_insert (col : list nat) k x :
  k < length col -> sum_list (<[k:=x]> col) + col !!! k = sum_list col + x.
Proof.
  revert k. induction col as [|y col IH]; intros k Hk; simpl in *; [lia|].
  destruct k as [|k]; simpl.
  - lia.
  - specialize (IH k ltac:(lia)).
    change ((y :: col) !!! S k) with (col !!! k). lia.
Qed.

(** [new_col[new_edges] = 1] on a column [col]. *)
Lemma mark_spec (s : list nat) (col : list nat) :
  (forall k, k ∈ s -> k < length col) ->
  let col' := foldl (fun col k => <[k:=1]> col) col s in
  length col' = length col /\
  (forall i, col' !!! i = if decide (i ∈ s) then 1 else col !!! i) /\
  (NoDup s -> (forall k, k ∈ s -> col !!! k = 0) ->
   sum_list col' = sum_list col + length s).
Proof.
  revert col. induction s as [|k s IH]; intros col Hlt; simpl.
  - split_and!; [done| |lia]. intros i.
    destruct (decide (i ∈ [])) as [Hin|]; [by apply elem_of_nil in Hin|done].
  - assert (k < length col) as Hk by (apply Hlt; by left).
    destruct (IH (<[k:=1]> col)) as (Hlen & Hlook & Hsum).
    { intros k' Hk'. rewrite length_insert. apply Hlt. by right. }
    split_and!.
    + by rewrite Hlen, length_insert.
    + intros i. rewrite Hlook, list_lookup_total_insert.
      destruct (decide (i = k)) as [->|Hne].
      * rewrite (decide_True (P := k ∈ k :: s)) by (by left).
        case_decide; [done|]. by rewrite decide_True.
      * destruct (decide (i ∈ s)) as [Hin|Hnin].
        -- rewrite decide_True; [done|by right].
        -- rewrite decide_False by (intros [? _]; done).
           rewrite decide_False; [done|].
           rewrite not_elem_of_cons. by split.
    + intros [Hk' Hnd]%NoDup_cons Hzero. rewrite Hsum; [|done|].
      * pose proof (sum_list_insert col k 1 Hk) as Hins.
        rewrite (Hzero k) in Hins by (by left). lia.
      * intros k' Hin. rewrite list_lookup_total_insert_ne.
        -- apply Hzero. by right.
        -- by intros ->.
Qed.

Lemma new_col_spec n (s : list nat) :
  (forall k, k ∈ s -> k < n) ->
  let col := foldl (fun col k => <[k:=1]> col) (replicate n 0) s in
  length col = n /\
  (forall i, i < n -> col !!! i = if decide (i ∈ s) then 1 else 0) /\
  (NoDup s -> sum_list col = length s).
Proof.
  intros Hlt. destruct (mark_spec s (replicate n 0)) as (Hlen & Hlook & Hsum).
  { intros k Hk. rewrite length_replicate. by apply Hlt. }
  rewrite length_replicate in Hlen. split_and!; [done| |].
  - intros i Hi. rewrite Hlook. case_decide; [done|].
    by rewrite lookup_total_replicate_2.
  - intros Hnd. rewrite Hsum; [|done|].
    + rewrite sum_list_replicate. lia.
    + intros k Hk. rewrite lookup_total_replicate_2; [done|by apply Hlt].
Qed.

(** The graph with one more node, joined to the nodes of [s]. *)
Lemma add_node_spec n (e : matrix nat) (s : list nat) :
  square n e -> symmetric e -> NoDup s -> (forall k, k ∈ s -> k < n) ->
  let e' := add_node e s in
  square (S n) e' /\ symmetric e' /\
  (forall i, i < n ->
             degree e' i = degree e i + (if decide (i ∈ s) then 1 else 0)) /\
  degree e' n = length s /\
  (forall i j, i < n -> j < n -> at2 e' i j = at2 e i j).
Proof.
  intros Hsq Hsym Hnd Hlt.
  destruct (new_col_spec n s Hlt) as (Hclen & Hclook & Hcsum).
  unfold add_node. destruct Hsq as [Hlen Hrows]. rewrite Hlen.
  set (col := foldl _ (replicate n 0) s) in *.
  set (body := zip_with (fun row x => row ++ [x]) e col).
  assert (length body = n) as Hblen.
  { unfold body. rewrite length_zip_with_l_eq; lia. }
  assert (Hrow : forall i, i < n ->
            (body ++ [col ++ [0]]) !!! i = (e !!! i) ++ [col !!! i]).
  { intros i Hi. rewrite lookup_total_app_l by lia.
    apply list_lookup_total_correct. unfold body.
    rewrite lookup_zip_with.
    destruct (lookup_lt_is_Some_2 e i) as [r Hr]; [lia|].
    destruct (lookup_lt_is_Some_2 col i) as [x Hx]; [lia|].
    rewrite Hr, Hx. simpl.
    by rewrite (list_lookup_total_correct _ _ _ Hr),
               (list_lookup_total_correct _ _ _ Hx). }
  assert (Hlast : (body ++ [col ++ [0]]) !!! n = col ++ [0]).
  { rewrite lookup_total_app_r by lia. by rewrite Hblen, Nat.sub_diag. }
  assert (Hrlen : forall i, i < n -> length (e !!! i) = n).
  { intros i Hi. by apply (square_row n e i). }
  assert (Hsq' : square (S n) (body ++ [col ++ [0]])).
  { split; [rewrite length_app; simpl; lia|].
    intros i row Hi. apply lookup_lt_Some in Hi as Hlti.
    rewrite length_app in Hlti. simpl in Hlti.
    apply list_lookup_total_correct in Hi.
    destruct (decide (i = n)) as [->|Hne].
    - rewrite Hlast in Hi. subst row. rewrite length_app. simpl. lia.
    - rewrite Hrow in Hi by lia. subst row. rewrite length_app, Hrlen by lia.
      simpl. lia. }
  assert (Hat : forall i j, i <= n -> j <= n ->
            at2 (body ++ [col ++ [0]]) i j
            = if decide (i < n /\ j < n) then at2 e i j
              else if decide (i < n) then col !!! i
              else if decide (j < n) then col !!! j else 0).
  { intros i j Hi Hj. unfold at2.
    destruct (decide (i = n)) as [->|Hne].
    - rewrite Hlast. rewrite decide_False by lia. rewrite decide_False by lia.
      case_decide.
      + by rewrite lookup_total_app_l by lia.
      + assert (j = n) as -> by lia.
        rewrite lookup_total_app_r by lia. by rewrite Hclen, Nat.sub_diag.
    - rewrite Hrow by lia. case_decide as Hd.
      + rewrite lookup_total_app_l; [done|]. rewrite Hrlen; lia.
      + rewrite decide_True by lia. assert (j = n) as -> by lia.
        rewrite lookup_total_app_r by (rewrite Hrlen; lia).
        rewrite Hrlen by lia. by rewrite Nat.sub_diag. }
  split_and!.
  - done.
  - intros i j. destruct (decide (i <= n /\ j <= n)) as [[Hi Hj]|Hout].
    + rewrite !Hat by done. rewrite (Hsym i j).
      repeat case_decide; try done; exfalso; lia.
    + rewrite !(at2_outside (S n)) by (done || lia). done.
  - intros i Hi. unfold degree. rewrite Hrow by done.
    rewrite sum_list_with_app. simpl. rewrite Hclook by done.
    case_decide; lia.
  - unfold degree. rewrite Hlast, sum_list_with_app. simpl.
    rewrite Hcsum by done. lia.
  - intros i j Hi Hj. rewrite Hat by lia. by rewrite decide_True.
Qed.

Lemma draw_distinct_weighted_spec rnd m (items : list (nat * Z)) c s c' :
  draw_distinct_weighted rnd m items c = Ok s c' ->
  NoDup s /\ length s = m /\ forall k, k ∈ s -> k ∈ items.*1.
Proof.
  revert items c s c'. induction m as [|m IH]; intros items c s c' Hrun;
    simpl in Hrun.
  - apply ret_Ok in Hrun as [<- _].
    split_and!; [constructor|done|by intros k ?%elem_of_nil].
  - apply bind_Ok in Hrun as (x & c1 & Hx & Hrun).
    apply bind_Ok in Hrun as (rest & c2 & Hrest & Hrun).
    apply ret_Ok in Hrun as [<- _].
    apply choice_weighted_key in Hx.
    apply IH in Hrest as (Hnd & Hlen & Hsub).
    split_and!.
    + apply NoDup_cons. split; [|done]. intros Hin.
      apply Hsub, list_elem_of_fmap in Hin as ([k w] & -> & Hin).
      by apply list_elem_of_filter in Hin as [Hne _].
    + simpl. by rewrite Hlen.
    + intros k [->|Hk]%elem_of_cons; [done|].
      apply Hsub, list_elem_of_fmap in Hk as ([k' w] & -> & Hin).
      apply list_elem_of_filter in Hin as [_ Hin].
      apply list_elem_of_fmap. by exists (k', w).
Qed.

Lemma sample_weighted_spec rnd m (prob : list nat) c s c' :
  sample_weighted rnd m prob c = Ok s c' ->
  NoDup s /\ length s = m /\ forall k, k ∈ s -> k < length prob.
Proof.
  unfold sample_weighted. destruct prob as [|p0 ps] eqn:Hprob; [done|].
  rewrite <- Hprob.
  repeat (case_decide; [done|]). intros Hrun.
  apply draw_distinct_weighted_spec in Hrun as (Hnd & Hlen & Hsub).
  split_and!; [done|done|].
  intros k Hk. apply Hsub, list_elem_of_fmap in Hk as ([k' w] & -> & Hin).
  apply list_elem_of_filter in Hin as [_ Hin].
  apply list_elem_of_lookup_1 in Hin as [i Hi].
  rewrite list_lookup_imap in Hi.
  destruct (prob !! i) as [x|] eqn:Hx; [|done].
  injection Hi as <- _. by eapply lookup_lt_Some.
Qed.

Lemma grow_step_spec rnd m n (e : matrix nat) c e' c' :
  square n e -> symmetric e ->
  grow_step rnd m e c = Ok e' c' ->
  square (S n) e' /\ symmetric e' /\
  (forall i, i < n -> degree e i <= degree e' i) /\
  degree e' n = m /\
  (forall i j, i < n -> j < n -> at2 e' i j = at2 e i j).
Proof.
  intros Hsq Hsym Hrun. unfold grow_step in Hrun.
  apply bind_Ok in Hrun as (s & c1 & Hs & Hrun).
  apply ret_Ok in Hrun as [<- _].
  apply sample_weighted_spec in Hs as (Hnd & Hlen & Hlt).
  rewrite length_fmap, length_seq in Hlt. destruct Hsq as [Hl Hrows].
  rewrite Hl in Hlt.
  destruct (add_node_spec n e s) as (H1 & H2 & H3 & H4 & H5); try done.
  split_and!; [done|done| |by rewrite H4|done].
  intros i Hi. rewrite H3 by done. lia.
Qed.

Lemma grow_loop_spec {I} rnd m (l : list I) (e : matrix nat) c e' c' :
  square (length e) e -> symmetric e ->
  forM (fun _ e => grow_step rnd m e) l e c = Ok e' c' ->
  square (length e') e' /\ symmetric e' /\
  length e' = length e + length l /\
  (forall i, i < length e -> degree e i <= degree e' i) /\
  (forall i, length e <= i < length e' -> m <= degree e' i) /\
  (forall i j, i < length e -> j < length e -> at2 e' i j = at2 e i j).
Proof.
  revert e c. induction l as [|x l IH]; intros e c Hsq Hsym Hrun;
    simpl in Hrun.
  - apply ret_Ok in Hrun as [<- _].
    split_and!; try done; simpl; lia.
  - apply bind_Ok in Hrun as (e1 & c1 & Hstep & Hrun).
    destruct (grow_step_spec _ _ _ _ _ _ _ Hsq Hsym Hstep)
      as (Hsq1 & Hsym1 & Hmono & Hnew & Hblock).
    assert (length e1 = S (length e)) as Hlen1 by apply Hsq1.
    rewrite <- Hlen1 in Hsq1.
    destruct (IH e1 c1 Hsq1 Hsym1 Hrun)
      as (Hsq' & Hsym' & Hlen' & Hmono' & Hgrown' & Hblock').
    split_and!; [done|done|simpl; lia| | |].
    + intros i Hi. etrans; [by apply Hmono|]. apply Hmono'. lia.
    + intros i Hi. destruct (decide (i = length e)) as [->|Hne].
      * etrans; [|apply Hmono'; lia]. lia.
      * apply Hgrown'. lia.
    + intros i j Hi Hj. rewrite Hblock' by lia. by apply Hblock.
Qed.

(** ** Trust values *)

Lemma dpow_pos beta d : (0 < dpow beta d)%R.
Proof. unfold dpow, Rpower. apply exp_pos. Qed.

Lemma Rmax_list_ge_head x xs : (x <= Rmax_list x xs)%R.
Proof.
  unfold Rmax_list. revert x. induction xs as [|y xs IH]; intros x; simpl.
  - lra.
  - eapply Rle_trans; [apply (Rmax_l x y)|apply IH].
Qed.

Lemma Rmax_list_ge x xs y : y ∈ x :: xs -> (y <= Rmax_list x xs)%R.
Proof.
  unfold Rmax_list. revert x. induction xs as [|z xs IH]; intros x; simpl.
  - intros ->%list_elem_of_singleton. lra.
  - intros [->|Hin]%elem_of_cons.
    + eapply Rle_trans; [apply (Rmax_l x z)|apply Rmax_list_ge_head].
    + apply elem_of_cons in Hin as [->|Hin].
      * eapply Rle_trans; [apply (Rmax_r x z)|apply Rmax_list_ge_head].
      * apply IH. by right.
Qed.

Lemma Rmax_list_elem x xs : Rmax_list x xs ∈ x :: xs.
Proof.
  unfold Rmax_list. revert x. induction xs as [|z xs IH]; intros x; simpl.
  - by left.
  - specialize (IH (Rmax x z)). apply elem_of_cons in IH as [Heq|Hin].
    + rewrite Heq. unfold Rmax. destruct (Rle_dec x z).
      * right. by left.
      * by left.
    + right. by right.
Qed.

(** For a node with a neighbour the divisor of the trust formula is the
    largest [degree(k)**beta] over its neighbours [k]. *)
Lemma max_neighbour_trust_spec beta edges i :
  neighbours edges i <> [] ->
  (exists k, k ∈ neighbours edges i /\
             max_neighbour_trust beta edges i = dpow beta (degree edges k)) /\
  (forall k, k ∈ neighbours edges i ->
             (dpow beta (degree edges k) <= max_neighbour_trust beta edges i)%R).
Proof.
  intros Hne. unfold max_neighbour_trust.
  destruct ((fun k => dpow beta (degree edges k)) <$> neighbours edges i)
    as [|x xs] eqn:Hmap.
  { apply fmap_nil_inv in Hmap. done. }
  split.
  - pose proof (Rmax_list_elem x xs) as Hin. rewrite <- Hmap in Hin.
    apply list_elem_of_fmap in Hin as (k & Hk & Hin). by exists k.
  - intros k Hk. apply Rmax_list_ge. rewrite <- Hmap.
    apply list_elem_of_fmap. by exists k.
Qed.

Lemma trust_pos beta edges i j :
  neighbours edges i <> [] -> (0 < trust beta edges i j)%R.
Proof.
  intros Hne. unfold trust.
  destruct (max_neighbour_trust_spec beta edges i Hne) as [(k & _ & ->) _].
  apply Rdiv_lt_0_compat; apply dpow_pos.
Qed.

Lemma trust_le_1 beta edges i j :
  j ∈ neighbours edges i -> (trust beta edges i j <= 1)%R.
Proof.
  intros Hj. unfold trust.
  assert (neighbours edges i <> []) as Hne.
  { intros Hnil. rewrite Hnil in Hj. by apply elem_of_nil in Hj. }
  destruct (max_neighbour_trust_spec beta edges i Hne) as [(k & _ & Hk) Hmax].
  pose proof (Hmax j Hj) as Hle. pose proof (dpow_pos beta (degree edges k)).
  rewrite Hk in *. apply Rmult_le_reg_r with (dpow beta (degree edges k)).
  { done. }
  unfold Rdiv. rewrite Rmult_assoc, Rinv_l by lra. lra.
Qed.

Lemma eta_entry_Ok beta edges i j c v c' :
  eta_entry beta edges i j c = Ok v c' ->
  v = trust beta edges i j /\ c' = c /\ neighbours edges i <> [].
Proof.
  unfold eta_entry, trust, max_neighbour_trust.
  destruct ((fun k => dpow beta (degree edges k)) <$> neighbours edges i)
    as [|x xs] eqn:Hmap; [done|].
  intros [<- <-]%ret_Ok. split_and!; [done|done|].
  intros Hnil. by rewrite Hnil in Hmap.
Qed.

(** A loop over [range(lo, lo+len)] with a property that depends on the
    position reached. *)
Lemma forM_seq_inv {S} (P : nat -> S -> Prop) (f : nat -> S -> M S) lo len :
  (forall k s c s' c',
     lo <= k < lo + len -> P k s -> f k s c = Ok s' c' -> P (Datatypes.S k) s') ->
  forall s c s' c',
    P lo s -> forM f (seq lo len) s c = Ok s' c' -> P (lo + len) s'.
Proof.
  revert lo. induction len as [|len IH]; intros lo Hstep s c s' c' HP Hrun;
    simpl in Hrun.
  - apply ret_Ok in Hrun as [<- _]. by rewrite Nat.add_0_r.
  - apply bind_Ok in Hrun as (s1 & c1 & Hk & Hrun).
    replace (lo + Datatypes.S len) with (Datatypes.S lo + len) by lia.
    eapply IH; [|eapply Hstep; [|exact HP|exact Hk]; lia|exact Hrun].
    intros k t d t' d' Hk'. apply Hstep. lia.
Qed.

(** The matrix that the two nested loops of lines 145-148 leave: the
    entry of a pair is the formula taken at the pair in increasing
    order. *)
Lemma generate_eta_spec beta edges c eta c' :
  generate_eta beta edges c = Ok eta c' ->
  let n := length edges in
  square n eta /\
  (forall i, i < n -> neighbours edges i <> []) /\
  (forall a b, a < n -> b < n ->
     at2 eta a b = trust beta edges (a `min` b) (a `max` b)).
Proof.
  intros Hrun n. unfold generate_eta in Hrun. fold n in Hrun.
  pose (Q := fun (i : nat) (eta : matrix R) =>
    square n eta /\
    (forall a, a < i -> neighbours edges a <> []) /\
    (forall a b, a < n -> b < n -> a `min` b < i ->
       at2 eta a b = trust beta edges (a `min` b) (a `max` b))).
  assert (Q (0 + n) eta) as (Hsq & Hnb & Hval).
  { eapply (forM_seq_inv Q); [|shelve|exact Hrun].
    Unshelve.
    2:{ split_and!; [apply square_replicate|lia|lia]. }
    clear Hrun eta c c'. intros i eta c eta' c' Hi (Hsq & Hnb & Hval) Hrow.
    pose (P := fun (j : nat) (eta : matrix R) =>
      square n eta /\
      (forall a b, a < n -> b < n ->
         a `min` b < i \/ (a `min` b = i /\ a `max` b < j) ->
         at2 eta a b = trust beta edges (a `min` b) (a `max` b))).
    assert (neighbours edges i <> []) as Hni.
    { destruct (n - i) as [|len] eqn:Hlen; [lia|]. simpl in Hrow.
      apply bind_Ok in Hrow as (eta1 & c1 & Hfirst & _).
      apply bind_Ok in Hfirst as (v & c2 & Hv & _).
      by apply eta_entry_Ok in Hv as (_ & _ & ?). }
    assert (P (i + (n - i)) eta') as [Hsq' Hval'].
    { eapply (forM_seq_inv P); [|shelve|exact Hrow].
      Unshelve.
      2:{ split; [done|]. intros a b Ha Hb [Hlt|[Heq Hlt]]; [auto|lia]. }
      clear Hrow eta' c c' Hsq Hval eta.
      intros j eta c eta' c' Hj [Hsq Hval] Hstep.
      apply bind_Ok in Hstep as (v & c1 & Hv & Hstep).
      apply ret_Ok in Hstep as [<- _].
      apply eta_entry_Ok in Hv as (-> & _ & _).
      assert (Hsq1 : square n (set2 i j (trust beta edges i j) eta))
        by by apply square_set2.
      split; [by apply square_set2|].
      intros a b Ha Hb Hcond.
      rewrite (at2_set2 n) by (done || lia).
      rewrite !(at2_set2 n) by (done || lia).
      rewrite (decide_True (P := i = i /\ j = j)) by done.
      destruct (decide (a = j /\ b = i)) as [[-> ->]|Hn1].
      { by rewrite Nat.min_r, Nat.max_l by lia. }
      destruct (decide (a = i /\ b = j)) as [[-> ->]|Hn2].
      { by rewrite Nat.min_l, Nat.max_r by lia. }
      apply Hval; [done|done|]. lia. }
    split_and!; [done| |].
    - intros a Ha. destruct (decide (a = i)) as [->|Hne]; [done|].
      apply Hnb. lia.
    - intros a b Ha Hb Hmin. apply Hval'; [done|done|]. lia. }
  split_and!; [done| |].
  - intros i Hi. apply Hnb. lia.
  - intros a b Ha Hb. apply Hval; [done|done|]. lia.
Qed.

(** On a graph without isolated node the trust loops raise nothing. *)
Lemma generate_eta_total beta edges c :
  (forall i, i < length edges -> 1 <= degree edges i) ->
  exists eta c', generate_eta beta edges c = Ok eta c'.
Proof.
  intros Hdeg. unfold generate_eta.
  destruct (forM_total (fun _ : matrix R => True)
              (fun i eta =>
                 forM (fun j eta =>
                         do v <- eta_entry beta edges i j;
                         let eta1 := set2 i j v eta in
                         ret (set2 j i (at2 eta1 i j) eta1))
                      (seq i (length edges - i)) eta)
              (seq 0 (length edges)))
    with (s := replicate (length edges) (replicate (length edges) 0%R))
         (c := c) as (eta & c' & Hrun & _); [|done|by exists eta, c'].
  intros i eta0 c0 Hi%elem_of_seq _.
  apply (forM_total (fun _ : matrix R => True)); [|done].
  intros j eta1 c1 _ _. unfold bind, eta_entry.
  pose proof (degree_neighbours edges i (Hdeg i ltac:(lia))) as Hnb.
  destruct (_ <$> neighbours edges i) as [|x xs] eqn:Hmap.
  { by apply fmap_nil_inv in Hmap. }
  by eexists _, _.
Qed.

(** ** Claims about [generate_new_graph] *)

Lemma generate_new_graph_phases rnd fuel beta T m0 m c eta edges c' :
  generate_new_graph rnd fuel beta T m0 m c = Ok (eta, edges) c' ->
  exists seed c1 c2,
    seed_phase rnd fuel m0 c = Ok seed c1 /\
    forM (fun _ e => grow_step rnd m e) (seq 0 T) seed c1 = Ok edges c2 /\
    generate_eta beta edges c2 = Ok eta c'.
Proof.
  unfold generate_new_graph. intros Hrun.
  apply bind_Ok in Hrun as (seed & c1 & Hseed & Hrun).
  apply bind_Ok in Hrun as (e & c2 & Hgrow & Hrun).
  apply bind_Ok in Hrun as (eta' & c3 & Heta & Hrun).
  apply ret_Ok in Hrun as [[= <- <-] <-]. eauto 10.
Qed.

(** The graph that comes out of the seed loop and the growth loop. *)
Lemma generated_graph_spec rnd fuel m0 m T c seed c1 edges c2 :
  seed_phase rnd fuel m0 c = Ok seed c1 ->
  forM (fun _ e => grow_step rnd m e) (seq 0 T) seed c1 = Ok edges c2 ->
  length edges = m0 + T /\ square (m0 + T) edges /\ symmetric edges /\
  (forall i, i < m0 -> 1 <= degree seed i) /\
  (forall i, i < m0 -> degree seed i <= degree edges i) /\
  (forall i, m0 <= i < m0 + T -> m <= degree edges i) /\
  (forall i j, i < m0 -> j < m0 -> at2 edges i j = at2 seed i j).
Proof.
  intros Hseed Hgrow.
  apply seed_phase_spec in Hseed as (k & _ & _ & Hatt & _).
  destruct (seed_attempt_spec rnd m0 (c + k * (m0 * m0)))
    as (e & rep & Hatt' & Hsq & Hsym & _ & Hdeg).
  rewrite Hatt in Hatt'. injection Hatt' as <- <- _.
  assert (length seed = m0) as Hlen by apply Hsq.
  rewrite <- Hlen in Hsq.
  apply grow_loop_spec in Hgrow
    as (Hsq' & Hsym' & Hlen' & Hmono & Hgrown & Hblock); [|done|done].
  rewrite length_seq, Hlen in Hlen'. rewrite Hlen' in *. rewrite Hlen in *.
  split_and!; try done. by apply Hdeg.
Qed.



(** The whole trust matrix in closed form. *)
Lemma generated_eta_spec rnd fuel beta T m0 m c eta edges c' :
  generate_new_graph rnd fuel beta T m0 m c = Ok (eta, edges) c' ->
  let n := length edges in
  square n edges /\ symmetric edges /\
  (forall i, i < n -> neighbours edges i <> []) /\
  (forall a b, a < n -> b < n ->
     at2 eta a b = trust beta edges (a `min` b) (a `max` b)).
Proof.
  intros Hrun n.
  apply generate_new_graph_phases in Hrun
    as (seed & c1 & c2 & Hseed & Hgrow & Heta).
  destruct (generated_graph_spec _ _ _ _ _ _ _ _ _ _ Hseed Hgrow)
    as (Hlen & Hsq & Hsym & _).
  apply generate_eta_spec in Heta as (_ & Hnb & Hval).
  unfold n. rewrite Hlen at 1. done.
Qed.

(** C1, as the code has it.  For a pair [i <= j] of nodes of the
    returned graph, edge or not, [eta[i][j]] is [degree(j)**beta] over
    the largest [degree(k)**beta] among the neighbours [k] of [i], and
    [eta[j][i]] is that same value: it is copied, not computed with the
    roles of [i] and [j] swapped. *)
Theorem eta_formula_in_increasing_order rnd fuel beta T m0 m c eta edges c' :
  generate_new_graph rnd fuel beta T m0 m c = Ok (eta, edges) c' ->
  forall i j, i <= j -> j < length edges ->
    at2 eta i j = trust beta edges i j /\
    at2 eta j i = at2 eta i j /\
    (exists k, k ∈ neighbours edges i /\
               max_neighbour_trust beta edges i = dpow beta (degree edges k)) /\
    (forall k, k ∈ neighbours edges i ->
               (dpow beta (degree edges k)
                <= max_neighbour_trust beta edges i)%R).
Proof.
  intros Hrun i j Hij Hj.
  apply generated_eta_spec in Hrun as (_ & _ & Hnb & Hval).
  rewrite !Hval by lia.
  rewrite (Nat.min_l i j), (Nat.max_r i j) by lia.
  rewrite (Nat.min_r j i), (Nat.max_l j i) by lia.
  split_and!; [done|done|..];
    apply max_neighbour_trust_spec, Hnb; lia.
Qed.

Lemma eta_formula_in_increasing_order_witness :
  exists eta edges c',
    generate_new_graph (from_list path_draws) 3 1 0 5 2 0
    = Ok (eta, edges) c' /\
    edges = path5 /\
    (0 <= 1 /\ 1 < length edges) /\
    at2 eta 0 1 = trust 1 edges 0 1 /\
    at2 eta 1 0 = at2 eta 0 1 /\
    (exists k, k ∈ neighbours edges 0 /\
               max_neighbour_trust 1 edges 0 = dpow 1 (degree edges k)) /\
    (forall k, k ∈ neighbours edges 0 ->
               (dpow 1 (degree edges k) <= max_neighbour_trust 1 edges 0)%R).
Proof.
  eexists _, _, _. split; [vm_compute; reflexivity|].
  split; [reflexivity|]. split; [simpl; lia|].
  eapply (eta_formula_in_increasing_order (from_list path_draws) 3 1 0 5 2 0).
  - vm_compute; reflexivity.
  - lia.
  - simpl; lia.
Defined.

(** Evaluation of the formula on a concrete graph. *)
Lemma trust_eval beta edges i j k ks :
  neighbours edges i = k :: ks ->
  trust beta edges i j
  = (dpow beta (degree edges j)
     / Rmax_list (dpow beta (degree edges k))
                 ((fun k => dpow beta (degree edges k)) <$> ks))%R.
Proof. intros Hn. unfold trust, max_neighbour_trust. by rewrite Hn. Qed.

Lemma dpow_one d : 0 < d -> dpow 1 d = INR d.
Proof. intros Hd. unfold dpow. apply Rpower_1. by apply lt_0_INR. Qed.

Lemma path_run :
  exists eta c',
    generate_new_graph (from_list path_draws) 3 1 0 5 2 0
    = Ok (eta, path5) c'.
Proof.
  assert (match generate_new_graph (from_list path_draws) 3 1 0 5 2 0 with
          | Ok (_, e) _ => e = path5
          | _ => False
          end) as Hshape by (vm_compute; reflexivity).
  destruct (generate_new_graph _ _ _ _ _ _ _) as [[eta e] c'| |];
    [|done|done].
  subst e. by exists eta, c'.
Qed.

Lemma pair_triangle_run :
  exists eta c',
    generate_new_graph (from_list pair_triangle_draws) 3 1 0 5 2 0
    = Ok (eta, pair_triangle) c'.
Proof.
  assert (match generate_new_graph (from_list pair_triangle_draws) 3 1 0 5 2 0
          with
          | Ok (_, e) _ => e = pair_triangle
          | _ => False
          end) as Hshape by (vm_compute; reflexivity).
  destruct (generate_new_graph _ _ _ _ _ _ _) as [[eta e] c'| |];
    [|done|done].
  subst e. by exists eta, c'.
Qed.

Lemma path_trust_0_1 : trust 1 path5 0 1 = 1%R.
Proof.
  rewrite (trust_eval 1 path5 0 1 1 []) by reflexivity.
  change (degree path5 1) with 2. unfold Rmax_list. simpl foldl.
  pose proof (dpow_pos 1 2). by field_simplify_eq; [|lra].
Qed.

Lemma path_trust_1_0 : trust 1 path5 1 0 = (1 / 2)%R.
Proof.
  rewrite (trust_eval 1 path5 1 0 0 [2]) by reflexivity.
  rewrite fmap_cons, fmap_nil.
  change (degree path5 0) with 1. change (degree path5 2) with 2.
  rewrite !dpow_one by lia. unfold Rmax_list. simpl.
  rewrite Rmax_right by lra. lra.
Qed.

(** C1 fails as stated: on the path 0-1-2-3-4 with [beta = 1], (1,0) is
    an edge, the formula with the roles swapped gives [eta[1][0] = 1/2],
    and the code returns [eta[1][0] = eta[0][1] = 1]. *)
Lemma eta_not_computed_with_roles_swapped :
  exists eta edges c',
    generate_new_graph (from_list path_draws) 3 1 0 5 2 0
    = Ok (eta, edges) c' /\
    at2 edges 1 0 = 1 /\
    at2 eta 1 0 = 1%R /\
    trust 1 edges 1 0 = (1 / 2)%R /\
    at2 eta 1 0 <> trust 1 edges 1 0.
Proof.
  destruct path_run as (eta & c' & Hrun). exists eta, path5, c'.
  pose proof (generated_eta_spec _ _ _ _ _ _ _ _ _ _ Hrun) as (_ & _ & _ & Hval).
  assert (at2 eta 1 0 = 1%R) as Heta.
  { rewrite Hval by (simpl; lia). apply path_trust_0_1. }
  split_and!; [done|reflexivity|done|apply path_trust_1_0|].
  rewrite Heta, path_trust_1_0. lra.
Qed.

(** C2, as the code has it.  Every entry of the returned trust matrix is
    positive, hence nonzero, for pairs that are edges and for pairs that
    are not: the two loops fill the whole matrix. *)
Theorem eta_nonzero_everywhere rnd fuel beta T m0 m c eta edges c' :
  generate_new_graph rnd fuel beta T m0 m c = Ok (eta, edges) c' ->
  forall i j, i < length edges -> j < length edges ->
    (0 < at2 eta i j)%R /\ at2 eta i j <> 0%R.
Proof.
  intros Hrun i j Hi Hj.
  apply generated_eta_spec in Hrun as (_ & _ & Hnb & Hval).
  rewrite Hval by done.
  assert (0 < trust beta edges (i `min` j) (i `max` j))%R as Hpos.
  { apply trust_pos, Hnb. lia. }
  split; [done|lra].
Qed.

Lemma eta_nonzero_everywhere_witness :
  exists eta edges c',
    generate_new_graph (from_list path_draws) 3 1 0 5 2 0
    = Ok (eta, edges) c' /\
    edges = path5 /\ at2 edges 0 2 = 0 /\
    (0 < length edges /\ 2 < length edges) /\
    (0 < at2 eta 0 2)%R /\ at2 eta 0 2 <> 0%R.
Proof.
  eexists _, _, _. split; [vm_compute; reflexivity|].
  split; [reflexivity|]. split; [reflexivity|]. split; [simpl; lia|].
  eapply (eta_nonzero_everywhere (from_list path_draws) 3 1 0 5 2 0).
  - vm_compute; reflexivity.
  - simpl; lia.
  - simpl; lia.
Defined.

(** C2 fails as stated: on the path 0-1-2-3-4 the pair (0,2) is not an
    edge and [eta[0][2]] is not 0. *)
Lemma eta_nonzero_at_a_non_edge :
  exists eta edges c',
    generate_new_graph (from_list path_draws) 3 1 0 5 2 0
    = Ok (eta, edges) c' /\
    at2 edges 0 2 = 0 /\ at2 eta 0 2 <> 0%R.
Proof.
  destruct path_run as (eta & c' & Hrun). exists eta, path5, c'.
  split_and!; [done|reflexivity|].
  pose proof (generated_eta_spec _ _ _ _ _ _ _ _ _ _ Hrun) as (_ & _ & Hnb & Hval).
  rewrite Hval by (simpl; lia).
  assert (0 < trust 1 path5 (0 `min` 2) (0 `max` 2))%R as Hpos.
  { apply trust_pos, Hnb. simpl; lia. }
  lra.
Qed.

(** C3, as the code has it.  At every pair that is an edge of the
    returned graph the trust value lies in (0,1], for any real [beta]
    and any number of growth steps. *)
Theorem eta_in_unit_interval_on_edges rnd fuel beta T m0 m c eta edges c' :
  generate_new_graph rnd fuel beta T m0 m c = Ok (eta, edges) c' ->
  forall i j, i < length edges -> j < length edges ->
    at2 edges i j <> 0 ->
    (0 < at2 eta i j <= 1)%R.
Proof.
  intros Hrun i j Hi Hj Hedge.
  apply generated_eta_spec in Hrun as (Hsq & Hsym & Hnb & Hval).
  rewrite Hval by done. split.
  - apply trust_pos, Hnb. lia.
  - apply trust_le_1. unfold neighbours. apply flatnonzero_elem.
    rewrite (square_row _ _ _ Hsq) by lia. split; [lia|].
    destruct (decide (i <= j)).
    + by rewrite Nat.min_l, Nat.max_r by lia.
    + rewrite Nat.min_r, Nat.max_l by lia.
      fold (at2 edges j i). by rewrite <- (Hsym i j).
Qed.

Lemma eta_in_unit_interval_on_edges_witness :
  exists eta edges c',
    generate_new_graph (from_list path_draws) 3 1 0 5 2 0
    = Ok (eta, edges) c' /\
    edges = path5 /\
    (1 < length edges /\ 2 < length edges /\ at2 edges 1 2 <> 0) /\
    (0 < at2 eta 1 2 <= 1)%R.
Proof.
  eexists _, _, _. split; [vm_compute; reflexivity|].
  split; [reflexivity|].
  split; [split_and!; [simpl; lia|simpl; lia|vm_compute; lia]|].
  eapply (eta_in_unit_interval_on_edges (from_list path_draws) 3 1 0 5 2 0).
  - vm_compute; reflexivity.
  - simpl; lia.
  - simpl; lia.
  - vm_compute; lia.
Defined.

Lemma pair_triangle_trust_0_2 : trust 1 pair_triangle 0 2 = 2%R.
Proof.
  rewrite (trust_eval 1 pair_triangle 0 2 1 []) by reflexivity.
  change (degree pair_triangle 2) with 2.
  change (degree pair_triangle 1) with 1.
  rewrite !dpow_one by lia. unfold Rmax_list. simpl. lra.
Qed.

(** C3 fails as stated: on the graph made of the edge 0-1 and the
    triangle 2-3-4, with [beta = 1], the entry [eta[0][2]] is 2. *)
Lemma eta_above_one_at_a_non_edge :
  exists eta edges c',
    generate_new_graph (from_list pair_triangle_draws) 3 1 0 5 2 0
    = Ok (eta, edges) c' /\
    at2 edges 0 2 = 0 /\ at2 eta 0 2 = 2%R /\
    ~ (0 <= at2 eta 0 2 <= 1)%R.
Proof.
  destruct pair_triangle_run as (eta & c' & Hrun).
  exists eta, pair_triangle, c'.
  pose proof (generated_eta_spec _ _ _ _ _ _ _ _ _ _ Hrun) as (_ & _ & _ & Hval).
  assert (at2 eta 0 2 = 2%R) as Heta.
  { rewrite Hval by (simpl; lia). apply pair_triangle_trust_0_2. }
  split_and!; [done|reflexivity|done|]. rewrite Heta. lra.
Qed.

(** ** Configurations outside the documented ranges *)

Lemma filter_complement_length (l s : list nat) :
  NoDup l -> NoDup s -> (forall x, x ∈ s -> x ∈ l) ->
  length (filter (fun x => x ∉ s) l) + length s = length l.
Proof.
  intros Hl Hs Hsub.
  assert (filter (fun x => x ∈ s) l ≡ₚ s) as Hperm.
  { apply NoDup_Permutation; [by apply NoDup_filter|done|].
    intros x. rewrite list_elem_of_filter. naive_solver. }
  pose proof (filter_app_complement (fun x => x ∈ s) l) as Hsplit.
  apply Permutation_length in Hsplit. rewrite length_app in Hsplit.
  apply Permutation_length in Hperm. lia.
Qed.

Lemma draw_distinct_total {A} rnd k (pop : list A) c :
  k <= length pop -> exists s c', draw_distinct rnd k pop c = Ok s c'.
Proof.
  revert pop c. induction k as [|k IH]; intros pop c Hk; simpl.
  - by exists [], c.
  - destruct pop as [|x0 pop0] eqn:Hpop; [simpl in Hk; lia|].
    rewrite <- Hpop in *. unfold bind, draw.
    set (i := Z.to_nat (rnd c mod Z.of_nat (length pop))).
    assert (i < length pop) as Hi.
    { subst i. pose proof (Z.mod_pos_bound (rnd c) (Z.of_nat (length pop))).
      rewrite Hpop in *. simpl length in *. lia. }
    destruct (IH (delete i pop) (S c)) as (rest & c' & Hrest).
    { rewrite length_delete by by apply lookup_lt_is_Some_2. lia. }
    rewrite Hrest. by eexists _, _.
Qed.

(** Role sampling raises when the liars, the truth-tellers and the seed
    node do not fit in the network. *)
Lemma init_sim_too_many_roles rnd init_person edges liarnum truthnum c :
  init_person < length edges ->
  length edges < liarnum + truthnum + 1 ->
  init_sim rnd init_person edges liarnum truthnum c = Raise ValueError.
Proof.
  intros Hinit Hmany. unfold init_sim. set (n := length edges) in *.
  set (pop := filter (fun k => k <> init_person) (seq 0 n)).
  assert (length pop + 1 = n) as Hpop.
  { pose proof (filter_complement_length (seq 0 n) [init_person]
                  (NoDup_seq 0 n) (NoDup_singleton _)) as Hc.
    rewrite length_seq in Hc. simpl in Hc.
    assert (pop = filter (fun x => x ∉ [init_person]) (seq 0 n)) as ->.
    { apply list_filter_iff. intros x. by rewrite list_elem_of_singleton. }
    apply Hc. intros x ->%list_elem_of_singleton. apply elem_of_seq. lia. }
  unfold bind at 1. unfold sample at 1.
  destruct (decide (length pop < liarnum)) as [|Hfit]; [done|].
  destruct (draw_distinct_total rnd liarnum pop c) as (liars & c1 & Hl); [lia|].
  rewrite Hl.
  apply draw_distinct_spec in Hl as (Hnd & Hsub & Hlen).
  2:{ apply NoDup_filter, NoDup_seq. }
  set (pop' := filter (fun k => (k ∉ liars) /\ k <> init_person) (seq 0 n)).
  assert (length pop' + (liarnum + 1) = n) as Hpop'.
  { pose proof (filter_complement_length (seq 0 n) (init_person :: liars)
                  (NoDup_seq 0 n)) as Hc.
    rewrite length_seq in Hc. simpl in Hc. rewrite Hlen in Hc.
    assert (pop' = filter (fun x => x ∉ init_person :: liars) (seq 0 n))
      as ->.
    { apply list_filter_iff. intros x. rewrite not_elem_of_cons.
      naive_solver. }
    replace (liarnum + 1) with (S liarnum) by lia. apply Hc.
    - apply NoDup_cons. split; [|done]. intros Hin.
      by apply Hsub, list_elem_of_filter in Hin as [? _].
    - intros x [->|Hin]%elem_of_cons.
      + apply elem_of_seq. lia.
      + by apply Hsub, list_elem_of_filter in Hin as [_ ?]. }
  unfold bind. unfold sample. fold pop'.
  rewrite decide_True by lia. done.
Qed.

(** The first growth step raises when more nodes are asked for than the
    seed graph has. *)
Lemma grow_step_too_many rnd m (e : matrix nat) c :
  0 < length e < m -> grow_step rnd m e c = Raise ValueError.
Proof.
  intros Hm. unfold grow_step, bind, sample_weighted.
  set (prob := (fun i => degree e i) <$> seq 0 (length e)).
  assert (length prob = length e) as Hlen
    by (unfold prob; by rewrite length_fmap, length_seq).
  destruct prob as [|p prob'] eqn:Hprob; [simpl in Hlen; lia|].
  rewrite <- Hprob in *.
  destruct (decide (sum_list prob = 0)); [done|].
  rewrite decide_True by lia. done.
Qed.

(** C9, as the code has it.  Neither function checks its parameters.
    With the seed node in range, a liar count and a truth-teller count
    that do not fit beside it make the role sampling of [run_rumors]
    raise before any round; an attach count above the size of the seed
    graph makes the first growth step of [generate_new_graph] raise. *)
Theorem oversized_sample_raises rnd bernoulli init_person edges K Hmax
        num_rounds eta L mcr liarnum truthnum c fuel beta T m0 m seed c1 :
  (init_person < length edges ->
   length edges < liarnum + truthnum + 1 ->
   run_rumors rnd bernoulli init_person edges K Hmax num_rounds eta L mcr
              liarnum truthnum c = Raise ValueError) /\
  (seed_phase rnd fuel m0 c = Ok seed c1 ->
   0 < T -> 0 < m0 < m ->
   generate_new_graph rnd fuel beta T m0 m c = Raise ValueError).
Proof.
  split.
  - intros Hinit Hmany. unfold run_rumors, run_state, bind.
    by rewrite init_sim_too_many_roles.
  - intros Hseed HT Hm. unfold generate_new_graph. unfold bind at 1.
    rewrite Hseed. unfold bind at 1.
    destruct T as [|T]; [lia|]. simpl. unfold bind at 1.
    rewrite grow_step_too_many; [done|].
    apply seed_phase_spec in Hseed as (k & _ & _ & Hatt & _).
    destruct (seed_attempt_spec rnd m0 (c + k * (m0 * m0)))
      as (e & rep & Hatt' & Hsq & _).
    rewrite Hatt in Hatt'. injection Hatt' as <- _ _.
    destruct Hsq as [-> _]. done.
Qed.

Lemma oversized_sample_raises_witness :
  ((0 < length star3 /\ length star3 < 2 + 1 + 1) /\
   run_rumors counting by_parity 0 star3 1 5 4 ones3 2 true 2 1 0
   = Raise ValueError) /\
  ((seed_phase (from_list path_draws) 3 5 0 = Ok path5 25 /\
    0 < 1 /\ 0 < 5 < 6) /\
   generate_new_graph (from_list path_draws) 3 1 1 5 6 0 = Raise ValueError).
Proof.
  pose proof (oversized_sample_raises (from_list path_draws) by_parity 0 star3
                1 5 4 ones3 2 true 2 1 0 3 1 1 5 6 path5 25) as [_ Hgraph].
  pose proof (oversized_sample_raises counting by_parity 0 star3
                1 5 4 ones3 2 true 2 1 0 3 1 1 5 6 path5 25) as [Hrun _].
  split; split.
  - simpl; lia.
  - apply Hrun; simpl; lia.
  - split_and!; [vm_compute; reflexivity|lia|lia|lia].
  - apply Hgraph; [vm_compute; reflexivity|lia|lia].
Defined.

(** C9 fails as stated: an attach count equal to the seed size and a
    memory capacity of 0 are both accepted.  [generate_new_graph] with
    [m = m0 = 5] returns a graph whose new node is joined to all five
    seed nodes, and [run_rumors] with [L = 0] runs its two rounds and
    returns their statistics. *)
Lemma invalid_configuration_is_run :
  (exists eta edges c',
     generate_new_graph (from_list path_draws) 3 1 1 5 5 0
     = Ok (eta, edges) c' /\
     length edges = 6 /\ degree edges 5 = 5) /\
  (exists avg var mx mn frag c',
     run_rumors counting by_parity 0 star3 1 5 2 halves3 0 true 0 0 0
     = Ok (avg, var, mx, mn, frag) c' /\
     length avg = 2 /\ length frag = 2).
Proof.
  split.
  - eexists _, _, _. split; [vm_compute; reflexivity|]. split; reflexivity.
  - eexists _, _, _, _, _, _. split; [vm_compute; reflexivity|].
    split; reflexivity.
Qed.

(** ** Rumor codes, bit flips and colours *)

Lemma is_bit_cases a : is_bit a = true -> a = "0"%char \/ a = "1"%char.
Proof.
  unfold is_bit. intros [Ha|Ha]%orb_true_iff; apply Ascii.eqb_eq in Ha; auto.
Qed.

Lemma is_code_codes32 s : is_code s = true <-> s ∈ codes32.
Proof.
  split.
  - unfold is_code. intros [Hlen Hbits]%andb_true_iff.
    apply Nat.eqb_eq in Hlen.
    destruct s as [|a0 [|a1 [|a2 [|a3 [|a4 [|a5 s]]]]]]; try done.
    simpl in Hbits.
    repeat (apply andb_true_iff in Hbits as [?%is_bit_cases Hbits]).
    destruct_or!; subst; apply (bool_decide_unpack _); vm_compute; exact I.
  - intros Hin. unfold codes32 in Hin.
    apply list_elem_of_fmap in Hin as (a & -> & Ha).
    apply elem_of_seq in Ha.
    do 32 (destruct a as [|a]; [reflexivity|]). lia.
Qed.

Lemma flip_bit_cursor_free rumor bitflip c :
  flip_bit rumor bitflip c
  = match flip_bit rumor bitflip 0 with
    | Ok x _ => Ok x c
    | Raise e => Raise e
    | Spin => Spin
    end.
Proof.
  unfold flip_bit. destruct (get bitflip rumor) as [ch|]; [|done].
  by destruct (flip_char ch).
Qed.

Lemma ones_digit_sum s : is_code s = true -> digit_sum s = Some (ones s).
Proof.
  intros Hs%is_code_codes32. revert Hs. 
  apply (Forall_forall (fun s => digit_sum s = Some (ones s)) codes32).
  apply (bool_decide_unpack _). vm_compute. exact I.
Qed.

Lemma get_beyond s j : String.length s <= j -> String.get j s = None.
Proof.
  revert j. induction s as [|a s IH]; intros j Hj; [by destruct j|].
  destruct j as [|j]; simpl in *; [lia|]. apply IH. lia.
Qed.

Lemma is_code_length s : is_code s = true -> String.length s = 5.
Proof.
  unfold is_code. intros [Hlen _]%andb_true_iff. by apply Nat.eqb_eq.
Qed.

Lemma flip_bit_code rumor bitflip c :
  is_code rumor = true -> bitflip < 5 ->
  exists new_rumor,
    flip_bit rumor bitflip c = Ok new_rumor c /\
    is_code new_rumor = true /\
    (forall j, String.get j new_rumor = String.get j rumor <-> j <> bitflip) /\
    (ones new_rumor = S (ones rumor) \/ S (ones new_rumor) = ones rumor) /\
    flip_bit new_rumor bitflip c = Ok rumor c.
Proof.
  intros Hcode Hk.
  rewrite (flip_bit_cursor_free rumor).
  assert (exists new_rumor,
    flip_bit rumor bitflip 0 = Ok new_rumor 0 /\
    is_code new_rumor = true /\
    (forall j, j < 5 ->
               String.get j new_rumor = String.get j rumor <-> j <> bitflip) /\
    (ones new_rumor = S (ones rumor) \/ S (ones new_rumor) = ones rumor) /\
    flip_bit new_rumor bitflip 0 = Ok rumor 0) as (new & Hf & Hc & Hg & Ho & Hb).
  { apply is_code_codes32 in Hcode. unfold codes32 in Hcode.
    apply list_elem_of_fmap in Hcode as (a & -> & Ha%elem_of_seq).
    do 32 (destruct a as [|a];
      [do 5 (destruct bitflip as [|bitflip];
         [eexists; split_and!;
            [reflexivity|reflexivity|
             intros j Hj; do 5 (destruct j as [|j]; [by split|]); lia|
             vm_compute; auto|reflexivity]|]); lia|]).
    lia. }
  exists new. rewrite Hf, (flip_bit_cursor_free new), Hb.
  split_and!; [done|done| |done|done].
  intros j. destruct (decide (j < 5)) as [Hj|Hj]; [by apply Hg|].
  rewrite !get_beyond by (rewrite is_code_length by done; lia).
  split; [lia|done].
Qed.

(** X1. The one-bit flip of line 243 on a code: the result is a code that
    differs from the rumor at the flipped position and nowhere else, its
    number of ones moves by one, and flipping the same position again
    gives the rumor back. *)
Theorem flip_bit_flips_one_bit rumor bitflip c :
  is_code rumor = true -> bitflip < 5 ->
  exists new_rumor,
    flip_bit rumor bitflip c = Ok new_rumor c /\
    is_code new_rumor = true /\
    (forall j, String.get j new_rumor = String.get j rumor <-> j <> bitflip) /\
    (ones new_rumor = S (ones rumor) \/ S (ones new_rumor) = ones rumor) /\
    flip_bit new_rumor bitflip c = Ok rumor c.
Proof. apply flip_bit_code. Qed.


Lemma flip_bit_flips_one_bit_witness :
  (is_code "01010" = true /\ 2 < 5) /\
  exists new_rumor,
    flip_bit "01010" 2 7 = Ok new_rumor 7 /\
    new_rumor = "01110" /\
    is_code new_rumor = true /\
    (forall j, String.get j new_rumor = String.get j "01010" <-> j <> 2) /\
    (ones new_rumor = S (ones "01010") \/ S (ones new_rumor) = ones "01010") /\
    flip_bit new_rumor 2 7 = Ok "01010" 7.
Proof.
  split; [split; [reflexivity|lia]|].
  destruct (flip_bit_flips_one_bit "01010" 2 7) as (new & Hf & Hrest);
    [reflexivity|lia|].
  exists new. split; [done|]. split; [|done].
  vm_compute in Hf. congruence.
Defined.

Lemma colour_of_code label :
  is_code label = true ->
  exists col,
    colour (ones label) = Some col /\
    col <> "#ffffff" /\
    (col = "#33ccff" <-> label = "00000") /\
    (col = "#ff0000" <-> label = "11111").
Proof.
  intros Hcode%is_code_codes32. unfold codes32 in Hcode.
  apply list_elem_of_fmap in Hcode as (a & -> & Ha%elem_of_seq).
  do 32 (destruct a as [|a];
    [eexists; split; [reflexivity|]; split_and!; [done|by split|by split]|]).
  lia.
Qed.

Lemma colour_inj a b col :
  colour a = Some col -> colour b = Some col -> a = b.
Proof.
  do 6 (destruct a as [|a]; [do 6 (destruct b as [|b]; [by intros [= <-]|]);
                              by intros [= <-]|]).
  done.
Qed.

Lemma str2col_spec rnd (count : Counter) c :
  (forall k, k ∈ keys count -> is_code k = true) ->
  (count = [] -> str2col rnd count c = Ok (Some "#ffffff") c) /\
  (count <> [] ->
   exists label col,
     get_mc rnd count c = Ok label (S c) /\
     str2col rnd count c = Ok (Some col) (S c) /\
     colour (ones label) = Some col /\
     col <> "#ffffff" /\
     (col = "#33ccff" <-> label = "00000") /\
     (col = "#ff0000" <-> label = "11111")).
Proof.
  intros Hcodes. split; [by intros ->|]. intros Hne.
  assert (exists label, get_mc rnd count c = Ok label (S c) /\
                        label ∈ keys count) as (label & Hmc & Hkey).
  { rewrite get_mc_choice by done.
    destruct (choice_lookup rnd (largest_vals count) c) as (r & Hr & Hlook).
    { by apply largest_vals_nonempty. }
    exists r. split; [done|].
    apply largest_vals_keys. by eapply list_elem_of_lookup_2. }
  pose proof (Hcodes label Hkey) as Hlabel.
  destruct (colour_of_code label Hlabel) as (col & Hcol & Hrest).
  exists label, col. split; [done|]. split; [|done].
  unfold str2col. destruct count as [|kv rest]; [done|].
  unfold bind. rewrite Hmc, (ones_digit_sum label Hlabel). by rewrite Hcol.
Qed.

(** X2. [str2col] paints an empty memory white without drawing.  On a
    memory of codes it draws once, for [get_mc], and returns the colour
    of the number of ones of the code selected: never white, blue for
    [00000] only, red for [11111] only, and two codes get the same colour
    only when they have the same number of ones. *)
Theorem str2col_colours_by_ones rnd (count : Counter) c :
  (forall k, k ∈ keys count -> is_code k = true) ->
  (count = [] -> str2col rnd count c = Ok (Some "#ffffff") c) /\
  (count <> [] ->
   exists label col,
     get_mc rnd count c = Ok label (S c) /\
     str2col rnd count c = Ok (Some col) (S c) /\
     colour (ones label) = Some col /\
     col <> "#ffffff" /\
     (col = "#33ccff" <-> label = "00000") /\
     (col = "#ff0000" <-> label = "11111") /\
     (forall label', colour (ones label') = Some col ->
                     ones label' = ones label)).
Proof.
  intros Hcodes. destruct (str2col_spec rnd count c Hcodes) as [He Hne].
  split; [done|]. intros Hcount.
  destruct (Hne Hcount) as (label & col & Hmc & Hs & Hcol & Hw & Hb & Hr).
  exists label, col. split_and!; try done.
  intros label' Hcol'. by eapply colour_inj.
Qed.

Lemma str2col_colours_by_ones_witness :
  let count : Counter := [("00100", 2); ("01100", 2); ("00000", 1)]%Z in
  (forall k, k ∈ keys count -> is_code k = true) /\
  str2col (fun _ => 1%Z) count 0 = Ok (Some "#cc99ff") 1 /\
  (count = [] -> str2col (fun _ => 1%Z) count 0 = Ok (Some "#ffffff") 0) /\
  (count <> [] ->
   exists label col,
     get_mc (fun _ => 1%Z) count 0 = Ok label 1 /\
     str2col (fun _ => 1%Z) count 0 = Ok (Some col) 1 /\
     colour (ones label) = Some col /\
     col <> "#ffffff" /\
     (col = "#33ccff" <-> label = "00000") /\
     (col = "#ff0000" <-> label = "11111") /\
     (forall label', colour (ones label') = Some col ->
                     ones label' = ones label)).
Proof.
  intros count.
  assert (forall k, k ∈ keys count -> is_code k = true) as Hcodes.
  { intros k Hk. unfold count in Hk. csimpl in Hk.
    repeat (apply elem_of_cons in Hk as [->|Hk]; [reflexivity|]).
    by apply elem_of_nil in Hk. }
  split; [done|]. split; [reflexivity|].
  apply (str2col_colours_by_ones (fun _ => 1%Z) count 0 Hcodes).
Defined.

(** ** Sums, entropies and the mutation probability *)

Lemma foldl_Rplus a l : foldl Rplus a l = (a + sumR l)%R.
Proof.
  unfold sumR. revert a. induction l as [|x l IH]; intros a; simpl.
  - lra.
  - rewrite (IH (a + x)%R), (IH (0 + x)%R). lra.
Qed.

Lemma sumR_nil : sumR [] = 0%R.
Proof. done. Qed.

Lemma sumR_cons x l : sumR (x :: l) = (x + sumR l)%R.
Proof. unfold sumR at 1. simpl. rewrite foldl_Rplus. lra. Qed.

Lemma sumR_app l1 l2 : sumR (l1 ++ l2) = (sumR l1 + sumR l2)%R.
Proof.
  induction l1 as [|x l1 IH]; simpl.
  - rewrite sumR_nil. lra.
  - rewrite !sumR_cons, IH. lra.
Qed.

Lemma sumR_le {A} (f g : A -> R) (l : list A) :
  (forall x, x ∈ l -> (f x <= g x)%R) ->
  (sumR (f <$> l) <= sumR (g <$> l))%R.
Proof.
  induction l as [|x l IH]; intros Hle; csimpl.
  - lra.
  - rewrite !sumR_cons.
    apply Rplus_le_compat; [apply Hle; left|apply IH].
    intros y Hy. apply Hle. by right.
Qed.

Lemma sumR_nonneg (l : list R) :
  Forall (fun x => (0 <= x)%R) l -> (0 <= sumR l)%R.
Proof.
  induction 1 as [|x l Hx _ IH]; [rewrite sumR_nil; lra|].
  rewrite sumR_cons. lra.
Qed.

Lemma sumR_affine (a b : R) (l : list Z) :
  sumR ((fun v => IZR v * a + b)%R <$> l)
  = (IZR (sumZ l) * a + INR (length l) * b)%R.
Proof.
  induction l as [|v l IH]; csimpl.
  - rewrite sumR_nil. simpl. lra.
  - rewrite sumR_cons, IH. unfold sumZ at 2. simpl foldr.
    fold (sumZ l). rewrite plus_IZR.
    destruct (length l); [simpl; lra|]. lra.
Qed.

Lemma ln_le_sub_1 x : (0 < x)%R -> (ln x <= x - 1)%R.
Proof.
  intros Hx. pose proof (exp_ineq1_le (ln x)) as Hle.
  rewrite exp_ln in Hle by done. lra.
Qed.

Lemma ln_2_pos : (0 < ln 2)%R.
Proof. pose proof ln_lt_2. lra. Qed.

Lemma values_positive (count : Counter) v :
  Forall (fun kv => (0 < kv.2)%Z) count -> v ∈ values count -> (0 < v)%Z.
Proof.
  intros Hpos Hv. unfold values in Hv.
  apply list_elem_of_fmap in Hv as ([k v'] & -> & Hin).
  by apply (proj1 (Forall_forall _ _) Hpos) in Hin.
Qed.

Lemma sumZ_elem_le (l : list Z) v :
  Forall (fun x => (0 < x)%Z) l -> v ∈ l -> (v <= sumZ l)%Z.
Proof.
  induction 1 as [|x l Hx Hl IH]; intros Hv; [by apply elem_of_nil in Hv|].
  assert (0 <= sumZ l)%Z as Hs.
  { clear -Hl. induction Hl as [|y l Hy _ IH]; [done|].
    unfold sumZ in *. simpl. lia. }
  unfold sumZ in *. simpl.
  apply elem_of_cons in Hv as [->|Hv]; [lia|]. specialize (IH Hv). lia.
Qed.

(** The entropy of line 238 lies between 0 and the logarithm of the
    number of distinct codes held. *)
Lemma entropy_bounds (count : Counter) :
  Forall (fun kv => (0 < kv.2)%Z) count -> count <> [] ->
  (0 <= entropy count (sumZ (values count))
   <= log2R (INR (length count)))%R.
Proof.
  intros Hpos Hne. unfold entropy.
  set (t := sumZ (values count)).
  assert (Forall (fun x => (0 < x)%Z) (values count)) as Hvals.
  { apply Forall_forall. intros v Hv. by eapply values_positive. }
  assert (0 < t)%Z as Ht.
  { destruct count as [|[k v] rest]; [done|].
    assert (v <= t)%Z by (apply sumZ_elem_le; [done|left]).
    apply Forall_cons in Hpos as [Hv _]. simpl in Hv. lia. }
  assert (0 < IZR t)%R as HtR by by apply IZR_lt.
  assert (0 < length count) as Hlen by (destruct count; [done|simpl; lia]).
  assert (0 < INR (length count))%R as HlenR by by apply lt_0_INR.
  pose proof ln_2_pos as Hln2.
  split.
  - apply sumR_nonneg, Forall_fmap, Forall_forall. intros v Hv. simpl.
    assert (0 < v <= t)%Z as [Hv0 Hvt].
    { split; [by eapply values_positive|by apply sumZ_elem_le]. }
    apply IZR_lt in Hv0. apply IZR_le in Hvt.
    assert (0 < IZR v / IZR t <= 1)%R as [Hp0 Hp1].
    { split; [by apply Rdiv_lt_0_compat|].
      apply (Rmult_le_reg_r (IZR t)); [done|].
      unfold Rdiv. rewrite Rmult_assoc, Rinv_l by lra. lra. }
    assert (ln (IZR v / IZR t) <= 0)%R as Hln.
    { pose proof (ln_le_sub_1 _ Hp0). lra. }
    unfold log2R.
    replace (- IZR v / IZR t * (ln (IZR v / IZR t) / ln 2))%R
      with ((IZR v / IZR t) * (- ln (IZR v / IZR t)) * / ln 2)%R
      by (field; lra).
    apply Rmult_le_pos; [apply Rmult_le_pos; lra|].
    apply Rlt_le, Rinv_0_lt_compat. done.
  - set (k := INR (length count)) in *.
    transitivity
      (sumR ((fun v => IZR v * ((ln k - 1) / (IZR t * ln 2))
                       + / (k * ln 2))%R <$> values count)).
    + apply sumR_le. intros v Hv.
      assert (0 < v)%Z as Hv0 by by eapply values_positive.
      apply IZR_lt in Hv0.
      assert (0 < IZR v / IZR t)%R as Hp0 by by apply Rdiv_lt_0_compat.
      assert (0 < / (k * (IZR v / IZR t)))%R as Hq.
      { apply Rinv_0_lt_compat, Rmult_lt_0_compat; lra. }
      pose proof (ln_le_sub_1 _ Hq) as Hle.
      rewrite ln_Rinv, ln_mult in Hle
        by first [lra|apply Rmult_lt_0_compat; lra].
      unfold log2R.
      apply (Rmult_le_reg_r (ln 2)); [done|].
      replace (- IZR v / IZR t * (ln (IZR v / IZR t) / ln 2) * ln 2)%R
        with ((IZR v / IZR t) * (- ln (IZR v / IZR t)))%R by (field; lra).
      replace ((IZR v * ((ln k - 1) / (IZR t * ln 2)) + / (k * ln 2))
               * ln 2)%R
        with ((IZR v / IZR t) * (ln k - 1) + / k)%R by (field; lra).
      assert ((IZR v / IZR t) * (- (ln k + ln (IZR v / IZR t)))
              <= (IZR v / IZR t) * (/ (k * (IZR v / IZR t)) - 1))%R as Hm.
      { apply Rmult_le_compat_l; lra. }
      replace (IZR v / IZR t * (/ (k * (IZR v / IZR t)) - 1))%R
        with (/ k - IZR v / IZR t)%R in Hm by (field; lra).
      lra.
    + rewrite sumR_affine. fold t. unfold values. rewrite length_fmap.
      fold k. unfold log2R. right. field. lra.
Qed.

Lemma entropy_single code v :
  (0 < v)%Z -> entropy [(code, v)] (sumZ (values [(code, v)])) = 0%R.
Proof.
  intros Hv. apply IZR_lt in Hv. unfold entropy, values, sumZ. csimpl.
  rewrite sumR_cons, sumR_nil, Z.add_0_r. unfold log2R.
  replace (IZR v / IZR v)%R with 1%R by (field; lra).
  rewrite ln_1. field. pose proof ln_2_pos. lra.
Qed.

Lemma ln_le x y : (0 < x)%R -> (x <= y)%R -> (ln x <= ln y)%R.
Proof.
  intros Hx [Hlt | ->]; [|lra]. left. by apply ln_increasing.
Qed.

Lemma exp_le x y : (x <= y)%R -> (exp x <= exp y)%R.
Proof. intros [Hlt | ->]; [|lra]. left. by apply exp_increasing. Qed.

Lemma log2R_le_5 k : 0 < k <= 32 -> (log2R (INR k) <= 5)%R.
Proof.
  intros [Hk0 Hk]. unfold log2R. pose proof ln_2_pos as Hln2.
  apply lt_0_INR in Hk0. apply le_INR in Hk.
  replace (INR 32) with (2 ^ 5)%R in Hk by (simpl; lra).
  pose proof (ln_le _ _ Hk0 Hk) as Hle.
  rewrite ln_pow in Hle by lra. simpl INR in Hle.
  apply (Rmult_le_reg_r (ln 2)); [done|].
  unfold Rdiv. rewrite Rmult_assoc, Rinv_l by lra. lra.
Qed.

Lemma mutation_probability_range Hmax K Hi :
  (0 < mutation_probability Hmax K Hi < 1)%R.
Proof.
  unfold mutation_probability.
  pose proof (exp_pos ((Hmax - Hi) * K / Hmax)) as He.
  split.
  - apply Rdiv_lt_0_compat; lra.
  - apply (Rmult_lt_reg_r (exp ((Hmax - Hi) * K / Hmax) + 1)); [lra|].
    unfold Rdiv. rewrite Rmult_assoc, Rinv_l by lra. lra.
Qed.

(** With [Hmax] not 0 the weight of line 240 is the quotient of line
    239, a probability. *)
Lemma mutation_weight_nonzero Hmax K Hi :
  Hmax <> 0%R ->
  mutation_weight Hmax K Hi = Some (mutation_probability Hmax K Hi).
Proof. intros HH. unfold mutation_weight. by destruct (Req_dec_T Hmax 0). Qed.

(** With [Hmax = 0] and an entropy of 0 the weight is NaN. *)
Lemma mutation_weight_nan K : mutation_weight 0 K 0 = None.
Proof.
  unfold mutation_weight. destruct (Req_dec_T 0 0) as [_|Hne]; [|done].
  simpl. destruct (Req_dec_T ((0 - 0) * K) 0) as [_|Hne]; [done|].
  exfalso. apply Hne. ring.
Qed.

Lemma mutation_probability_mono Hmax K H1 H2 :
  (0 < Hmax)%R -> (0 <= K)%R -> (H1 <= H2)%R ->
  (mutation_probability Hmax K H1 <= mutation_probability Hmax K H2)%R.
Proof.
  intros HHmax HK Hle. unfold mutation_probability.
  pose proof (exp_pos ((Hmax - H2) * K / Hmax)) as He2.
  assert (exp ((Hmax - H2) * K / Hmax) <= exp ((Hmax - H1) * K / Hmax))%R
    as He.
  { apply exp_le. unfold Rdiv.
    apply Rmult_le_compat_r; [left; by apply Rinv_0_lt_compat|].
    apply Rmult_le_compat_r; lra. }
  unfold Rdiv. rewrite !Rmult_1_l.
  apply Rinv_le_contravar; lra.
Qed.

Lemma mutation_probability_at_Hmax Hmax K :
  mutation_probability Hmax K Hmax = (1 / 2)%R.
Proof.
  unfold mutation_probability.
  replace ((Hmax - Hmax) * K / Hmax)%R with 0%R by (unfold Rdiv; ring).
  rewrite exp_0. lra.
Qed.

Lemma mutation_probability_at_0 Hmax K :
  (0 < Hmax)%R -> mutation_probability Hmax K 0 = (1 / (exp K + 1))%R.
Proof.
  intros HH. unfold mutation_probability.
  by replace ((Hmax - 0) * K / Hmax)%R with K by (field; lra).
Qed.

(** X3. The mutation probability of line 239 is a probability strictly
    between 0 and 1.  For a positive [Hmax] and a conservation factor
    [K >= 0] it grows with the entropy of the memory, from
    [1/(exp K + 1)] at entropy 0 to one half at entropy [Hmax]. *)
Theorem mutation_probability_grows_with_entropy Hmax K H1 H2 :
  (0 < Hmax)%R -> (0 <= K)%R -> (0 <= H1 <= H2)%R -> (H2 <= Hmax)%R ->
  (0 < mutation_probability Hmax K H1 < 1)%R /\
  (mutation_probability Hmax K 0 <= mutation_probability Hmax K H1
   <= mutation_probability Hmax K H2)%R /\
  (mutation_probability Hmax K H2 <= mutation_probability Hmax K Hmax)%R /\
  mutation_probability Hmax K 0 = (1 / (exp K + 1))%R /\
  mutation_probability Hmax K Hmax = (1 / 2)%R.
Proof.
  intros HH HK [H0 H12] H2m. split_and!.
  - apply mutation_probability_range.
  - apply mutation_probability_range.
  - by apply mutation_probability_mono.
  - by apply mutation_probability_mono.
  - by apply mutation_probability_mono.
  - by apply mutation_probability_at_0.
  - apply mutation_probability_at_Hmax.
Qed.

Lemma mutation_probability_grows_with_entropy_witness :
  ((0 < 5)%R /\ (0 <= 1)%R /\ (0 <= 1 <= 2)%R /\ (2 <= 5)%R) /\
  (0 < mutation_probability 5 1 1 < 1)%R /\
  (mutation_probability 5 1 0 <= mutation_probability 5 1 1
   <= mutation_probability 5 1 2)%R /\
  (mutation_probability 5 1 2 <= mutation_probability 5 1 5)%R /\
  mutation_probability 5 1 0 = (1 / (exp 1 + 1))%R /\
  mutation_probability 5 1 5 = (1 / 2)%R.
Proof.
  split; [lra|].
  apply (mutation_probability_grows_with_entropy 5 1 1 2); lra.
Defined.

(** X4. The entropy of a memory (line 238) is never negative and never
    above the logarithm to base 2 of the number of distinct codes held;
    it is 0 for a memory that holds a single code, however often. *)
Theorem entropy_between_zero_and_log (count : Counter) :
  Forall (fun kv => (0 < kv.2)%Z) count -> count <> [] ->
  (0 <= entropy count (sumZ (values count))
   <= log2R (INR (length count)))%R /\
  (length count = 1 -> entropy count (sumZ (values count)) = 0%R).
Proof.
  intros Hpos Hne. split; [by apply entropy_bounds|].
  intros Hlen. destruct count as [|[code v] [|kv rest]]; try done.
  apply entropy_single. by apply Forall_cons in Hpos as [? _].
Qed.

Lemma entropy_between_zero_and_log_witness :
  let count : Counter := [("00000", 3); ("00100", 1)]%Z in
  (Forall (fun kv => (0 < kv.2)%Z) count /\ count <> []) /\
  (0 <= entropy count (sumZ (values count))
   <= log2R (INR (length count)))%R /\
  (length count = 1 -> entropy count (sumZ (values count)) = 0%R).
Proof.
  intros count.
  assert (Forall (fun kv => (0 < kv.2)%Z) count) as Hpos
    by (repeat constructor).
  assert (count <> []) as Hne by done.
  split; [done|].
  apply (entropy_between_zero_and_log count Hpos Hne).
Defined.

(** ** Runs of [run_rumors]: codes, entropies and termination *)

Lemma get_mc_total rnd count c :
  count <> [] ->
  exists r, get_mc rnd count c = Ok r (S c) /\ r ∈ keys count.
Proof.
  intros Hne. rewrite get_mc_choice by done.
  destruct (choice_lookup rnd (largest_vals count) c) as (r & Hr & Hlook).
  { by apply largest_vals_nonempty. }
  exists r. split; [done|].
  apply largest_vals_keys. by eapply list_elem_of_lookup_2.
Qed.

Lemma pick_weighted_total {A} (items : list (A * Z)) r :
  Forall (fun kv => (0 < kv.2)%Z) items ->
  (0 <= r < sumZ (snd <$> items))%Z ->
  exists x, pick_weighted items r = Some x.
Proof.
  intros Hpos. revert r.
  induction Hpos as [|[x w] items Hw _ IH]; intros r Hr.
  - unfold sumZ in Hr. csimpl in Hr. lia.
  - csimpl in *. destruct (Z.ltb_spec r w) as [|Hge]; [by eexists|].
    apply IH. unfold sumZ in *. csimpl in Hr. lia.
Qed.

Lemma sumZ_positive (l : list Z) :
  Forall (fun x => (0 < x)%Z) l -> l <> [] -> (0 < sumZ l)%Z.
Proof.
  intros Hpos Hne. destruct l as [|x l]; [done|].
  pose proof (sumZ_elem_le (x :: l) x Hpos ltac:(left)) as Hle.
  apply Forall_cons in Hpos as [Hx _]. lia.
Qed.

Lemma choice_weighted_total {A} rnd (items : list (A * Z)) c :
  Forall (fun kv => (0 < kv.2)%Z) items -> items <> [] ->
  exists x, choice_weighted rnd items c = Ok x (S c) /\ x ∈ items.*1.
Proof.
  intros Hpos Hne. unfold choice_weighted, bind, draw.
  assert (0 < sumZ (snd <$> items))%Z as Hsum.
  { apply sumZ_positive; [|by destruct items].
    apply Forall_fmap. eapply Forall_impl; [exact Hpos|]. by intros [k v]. }
  destruct (pick_weighted_total items (rnd c mod sumZ (snd <$> items)) Hpos)
    as [x Hx].
  { by apply Z.mod_pos_bound. }
  rewrite Hx. exists x. split; [done|].
  by apply pick_weighted_elem in Hx.
Qed.

Lemma relabel_first_Forall (P : string -> Prop) rumor new_rumor l :
  Forall P l -> P new_rumor -> Forall P (relabel_first rumor new_rumor l).
Proof.
  intros Hl Hnew. induction Hl as [|x l Hx Hl IH]; simpl; [done|].
  destruct (String.eqb x rumor); by constructor.
Qed.

Lemma insert_mem_Forall (P : string -> Prop) L m up :
  Forall P m.1.2 -> P up -> Forall P (insert_mem L m up).1.2.
Proof.
  destruct m as [[count l] ins]. simpl. intros Hl Hup.
  assert (Forall P (l ++ [up])) as Happ.
  { apply Forall_app. split; [done|by constructor]. }
  unfold insert_mem, append_mem, evict_mem.
  destruct (l ++ [up]) as [|first rest] eqn:Heq; [by destruct l|].
  destruct (L <? Z.of_nat (length (first :: rest)))%Z; simpl.
  - by apply Forall_cons in Happ as [_ ?].
  - done.
Qed.

Lemma foldl_insert_mem_Forall (P : string -> Prop) L m ul :
  Forall P m.1.2 -> Forall P ul -> Forall P (foldl (insert_mem L) m ul).1.2.
Proof.
  intros Hm Hul. revert m Hm.
  induction Hul as [|up ul Hup _ IH]; intros m Hm; [done|].
  simpl. by apply IH, insert_mem_Forall.
Qed.

Lemma keys_length_codes (count : Counter) :
  NoDup (keys count) -> (forall k, k ∈ keys count -> is_code k = true) ->
  length count <= 32.
Proof.
  intros Hnd Hcodes.
  assert (keys count ⊆+ codes32) as Hsub.
  { apply NoDup_submseteq; [done|].
    intros k Hk. by apply is_code_codes32, Hcodes. }
  apply submseteq_length in Hsub. unfold keys in Hsub.
  by rewrite length_fmap in Hsub.
Qed.

Section RunFacts.

Variables (rnd : nat -> Z) (bernoulli : option R -> Z -> option bool).
Variables (edges : matrix nat) (K Hmax : R) (eta : matrix R) (L : Z)
          (mcr : bool) (liars truths : list nat).

Local Abbreviation n := (length edges).
Local Abbreviation role j := (j ∈ liars \/ j ∈ truths).
Local Abbreviation code s := (is_code s = true).

Lemma held_codes st i k :
  sim_inv L n st -> codes_ok st -> i < n ->
  k ∈ keys (mem_dict st !!! i) -> code k.
Proof.
  intros [_ Hinv] Hcodes Hi Hk.
  destruct (Hinv i Hi) as [Hok _].
  eapply mem_ok_held in Hk; [|exact Hok].
  by apply (proj1 (Forall_forall _ _) (Hcodes i)).
Qed.

Lemma node_entropy_bounds st i :
  sim_inv L n st -> codes_ok st -> i < n ->
  sumZ (values (mem_dict st !!! i)) <> 0%Z ->
  (0 <= entropy (mem_dict st !!! i) (sumZ (values (mem_dict st !!! i)))
   <= 5)%R.
Proof.
  intros Hinv Hcodes Hi Htot.
  pose proof Hinv as [_ Hmem]. destruct (Hmem i Hi) as [Hok _].
  destruct Hok as (Hnd & Hpos & _ & _).
  assert (mem_dict st !!! i <> []) as Hne.
  { intros Heq. by rewrite Heq in Htot. }
  destruct (entropy_bounds _ Hpos Hne) as [Hlo Hhi].
  split; [done|]. etransitivity; [exact Hhi|].
  apply log2R_le_5. split.
  - destruct (mem_dict st !!! i); [done|simpl; lia].
  - apply keys_length_codes; [done|]. intros k Hk. by eapply held_codes.
Qed.

Lemma with_H_run_inv st i h :
  run_inv L n st -> (0 <= h <= 5)%R ->
  run_inv L n (with_H st (<[i := h]> (H st))).
Proof.
  intros (Hinv & Hcodes & Hlen & Hent) Hh. split_and!.
  - destruct Hinv as [Hwf Hmem]. split; [by apply with_H_wf|].
    intros j Hj. rewrite with_H_node. auto.
  - done.
  - split; simpl; [by rewrite length_insert|by apply Forall_insert].
Qed.

Lemma mutate_held_codes st i rumor new_rumor :
  codes_ok st -> code new_rumor ->
  codes_ok (mutate_held i rumor new_rumor st).
Proof.
  intros Hcodes Hnew j. simpl. rewrite list_lookup_total_alter.
  case_decide; [|done]. by apply relabel_first_Forall.
Qed.

(** *** What the steps that return keep *)

Lemma select_ordinary_run_inv i st c rumor st' c' :
  select_ordinary rnd bernoulli K Hmax mcr i st c = Ok (rumor, st') c' ->
  run_inv L n st -> i < n -> ~ role i ->
  sumZ (values (mem_dict st !!! i)) <> 0%Z ->
  code rumor /\ run_inv L n st'.
Proof.
  intros Hsel Hrun Hi Hrole Htot. pose proof Hrun as (Hinv & Hcodes & Hent).
  pose proof (node_entropy_bounds st i Hinv Hcodes Hi Htot) as Hbounds.
  pose proof (with_H_run_inv st i _ Hrun Hbounds) as Hrun1.
  unfold select_ordinary in Hsel.
  apply bind_Ok in Hsel as (r & c1 & Hr & Hsel).
  assert (r ∈ keys (mem_dict st !!! i)) as Hkey.
  { destruct mcr; [by eapply get_mc_key|by eapply choice_weighted_key]. }
  assert (code r) as Hcr by by eapply held_codes.
  apply bind_Ok in Hsel as (mutate & c2 & _ & Hsel).
  destruct mutate.
  - apply bind_Ok in Hsel as (b & c3 & Hb & Hsel).
    apply bind_Ok in Hsel as (new & c4 & Hflip & Hsel).
    apply ret_Ok in Hsel as [[= <- <-] _].
    apply choice_elem in Hb as [Hb _]. apply elem_of_seq in Hb.
    destruct (flip_bit_code r b c3 Hcr ltac:(lia))
      as (new' & Hflip' & Hnew & _).
    rewrite Hflip in Hflip'. injection Hflip' as <- _.
    split; [done|].
    destruct Hrun1 as (Hinv1 & Hcodes1 & Hent1). split_and!.
    + eapply (node_effect_inv edges L liars truths i st); [done|done|].
      by apply effect_mutate.
    + by apply mutate_held_codes.
    + done.
  - by apply ret_Ok in Hsel as [[= <- <-] _].
Qed.

Lemma queue_ok_accept j rumor updates :
  queue_ok n updates -> code rumor ->
  queue_ok n (alter (fun u => u ++ [rumor]) j updates).
Proof.
  intros [Hlen Hcodes] Hr. split; [by rewrite length_alter|].
  apply Forall_alter; [done|]. intros u Hu Hcu.
  apply Forall_app_2; [done|by constructor].
Qed.

Lemma offer_queue_ok i rumor updates c updates' c' :
  offer rnd bernoulli edges eta liars truths i rumor updates c
  = Ok updates' c' ->
  queue_ok n updates -> code rumor -> queue_ok n updates'.
Proof.
  unfold offer. intros Hrun Hq Hr.
  eapply (forM_inv (queue_ok n)); [|exact Hq|exact Hrun].
  clear -Hr. intros j upd c upd' c' _ Hupd Hstep.
  apply bind_Ok in Hstep as (accept & c1 & _ & Hstep).
  destruct accept; [|by apply ret_Ok in Hstep as [<- _]].
  case_decide; [|done]. apply ret_Ok in Hstep as [<- _].
  by apply queue_ok_accept.
Qed.

Lemma node_step_run_inv i st updates c st' updates' c' :
  node_step rnd bernoulli edges K Hmax eta mcr liars truths i
            (st, updates) c = Ok (st', updates') c' ->
  run_inv L n st -> queue_ok n updates -> i < n ->
  run_inv L n st' /\ queue_ok n updates'.
Proof.
  unfold node_step. intros Hstep Hrun Hq Hi.
  destruct (Z.eqb_spec (sumZ (values (mem_dict st !!! i))) 0) as [|Htot].
  { by apply ret_Ok in Hstep as [[= <- <-] _]. }
  apply bind_Ok in Hstep as ([rumor st1] & c1 & Hsel & Hstep).
  apply bind_Ok in Hstep as (upd & c2 & Hoff & Hstep).
  apply ret_Ok in Hstep as [[= <- <-] _].
  assert (code rumor /\ run_inv L n st1) as [Hr Hrun1].
  { destruct (decide (role i)) as [Hrole|Hrole].
    - apply bind_Ok in Hsel as (r & c3 & Hmc & Hsel).
      apply ret_Ok in Hsel as [[= <- <-] _]. split; [|done].
      destruct Hrun as (Hinv & Hcodes & _).
      eapply held_codes; [done..|]. by eapply get_mc_key.
    - by eapply select_ordinary_run_inv. }
  split; [done|]. by eapply offer_queue_ok.
Qed.

Lemma queue_ok_empty : queue_ok n (replicate n []).
Proof. split; [by rewrite length_replicate|]. by apply Forall_replicate. Qed.

Lemma broadcast_phase_run_inv st c st1 updates c1 :
  broadcast_phase rnd bernoulli edges K Hmax eta mcr liars truths st c
  = Ok (st1, updates) c1 ->
  run_inv L n st -> run_inv L n st1 /\ queue_ok n updates.
Proof.
  unfold broadcast_phase. intros Hb Hrun.
  eapply (forM_inv (fun su => run_inv L n su.1 /\ queue_ok n su.2)) in Hb;
    [done| |split; [done|apply queue_ok_empty]].
  clear. intros i [s upd] c [s' upd'] c' Hin [Hs Hu] Hstep. simpl in *.
  apply elem_of_seq in Hin. eapply node_step_run_inv; [done..|lia].
Qed.

Lemma apply_updates_run_inv st updates :
  run_inv L n st -> queue_ok n updates ->
  run_inv L n (apply_updates L 0 updates st).
Proof.
  intros (Hinv & Hcodes & Hlen & Hent) [Hqlen Hq].
  pose proof Hinv as [Hwf _].
  destruct (apply_updates_node L n st 0 updates Hwf ltac:(lia))
    as (Hwf' & HH & Hnode).
  split_and!.
  - apply apply_updates_inv; [done|lia].
  - intros j. pose proof (Hnode j) as Hj.
    assert (mem_list (apply_updates L 0 updates st) !!! j
            = (node_mem (apply_updates L 0 updates st) j).1.2) as -> by done.
    rewrite Hj. case_decide as Hin; [|apply Hcodes].
    apply foldl_insert_mem_Forall; [apply Hcodes|].
    rewrite Nat.sub_0_r.
    destruct (lookup_lt_is_Some_2 updates j ltac:(lia)) as [u Hu].
    rewrite (list_lookup_total_correct _ _ _ Hu).
    by eapply (Forall_lookup_1 _ updates).
  - split; by rewrite HH.
Qed.

Lemma record_stats_run_inv st c st' c' :
  record_stats rnd edges st c = Ok st' c' ->
  run_inv L n st -> run_inv L n st'.
Proof.
  intros Hrec (Hinv & Hcodes & Hlen & Hent).
  apply record_stats_frame in Hrec as (Hd & Hl & HH & Hi). split_and!.
  - by eapply sim_inv_frame.
  - intros j. rewrite Hl. apply Hcodes.
  - split; by rewrite HH.
Qed.

Lemma round_run_inv st c st' c' :
  round rnd bernoulli edges K Hmax eta L mcr liars truths st c = Ok st' c' ->
  run_inv L n st -> run_inv L n st'.
Proof.
  intros Hround Hrun.
  apply round_phases in Hround as (st1 & updates & c1 & Hb & Hrec).
  apply broadcast_phase_run_inv in Hb as [Hrun1 Hq]; [|done].
  eapply record_stats_run_inv; [exact Hrec|].
  by apply apply_updates_run_inv.
Qed.

Lemma rounds_run_inv num_rounds st c st' c' :
  rounds rnd bernoulli edges K Hmax eta L mcr liars truths num_rounds st c
  = Ok st' c' ->
  run_inv L n st -> run_inv L n st'.
Proof.
  revert st c. induction num_rounds as [|k IH];
    intros st c Hrounds Hrun; simpl in Hrounds.
  - by apply ret_Ok in Hrounds as [<- _].
  - apply bind_Ok in Hrounds as (st1 & c1 & Hround & Hrounds).
    eapply IH; [exact Hrounds|]. by eapply round_run_inv.
Qed.

(** *** The steps return

    The library accepts probabilities, the two matrices are square of
    the size of the graph, [Hmax] is not 0 and the trust read along an
    edge is a probability: then no weight is refused and no index is
    out of range. *)

Hypothesis Haccept : accepts_probabilities bernoulli.
Hypothesis Hedges : square n edges.
Hypothesis Heta : square n eta.
Hypothesis HHmax : Hmax <> 0%R.
Hypothesis Htrust :
  forall i j, i < n -> j ∈ flatnonzero (edges !!! i) ->
              (0 <= at2 eta j i <= 1)%R.

Lemma choice_bool_total p c :
  (0 <= p <= 1)%R ->
  exists b, choice_bool rnd bernoulli (Some p) c = Ok b (S c).
Proof.
  intros Hp. unfold choice_bool, bind, draw.
  destruct (Haccept p (rnd c) Hp) as [b ->]. by exists b.
Qed.

Lemma select_ordinary_total i st c :
  run_inv L n st -> i < n -> ~ role i ->
  sumZ (values (mem_dict st !!! i)) <> 0%Z ->
  exists rumor st' c',
    select_ordinary rnd bernoulli K Hmax mcr i st c = Ok (rumor, st') c'.
Proof.
  intros Hrun Hi Hrole Htot. pose proof Hrun as (Hinv & Hcodes & Hent).
  pose proof Hinv as [Hwf Hmem]. destruct (Hmem i Hi) as [Hok _].
  pose proof Hok as (Hnd & Hpos & _ & _).
  set (count := mem_dict st !!! i) in *.
  assert (count <> []) as Hne.
  { intros Heq. by rewrite Heq in Htot. }
  assert (exists r c1,
    (if mcr then get_mc rnd count else choice_weighted rnd count) c
    = Ok r c1 /\ r ∈ keys count) as (r & c1 & Hsel & Hkey).
  { destruct mcr.
    - destruct (get_mc_total rnd count c Hne) as (r & Hr & Hk). eauto.
    - destruct (choice_weighted_total rnd count c Hpos Hne)
        as (r & Hr & Hk). eauto. }
  assert (code r) as Hr by by eapply held_codes.
  unfold select_ordinary. fold count. unfold bind at 1. rewrite Hsel.
  rewrite mutation_weight_nonzero by done.
  destruct (choice_bool_total
              (mutation_probability Hmax K
                 (entropy count (sumZ (values count)))) c1)
    as (mutate & Hmut).
  { pose proof (mutation_probability_range Hmax K
                  (entropy count (sumZ (values count)))). lra. }
  unfold bind at 1. rewrite Hmut. destruct mutate.
  - destruct (choice_lookup rnd (seq 0 5) (S c1)) as (b & Hb & Hlook);
      [done|].
    unfold bind at 1. rewrite Hb.
    apply lookup_seq in Hlook as [Hbv Hb5]. simpl in Hbv, Hb5.
    rewrite <- Hbv in Hb5.
    destruct (flip_bit_code r b (S (S c1)) Hr Hb5)
      as (new & Hflip & _).
    unfold bind at 1. rewrite Hflip. by eexists _, _, _.
  - by eexists _, _, _.
Qed.

Lemma offer_total i rumor updates c :
  i < n -> length updates = n ->
  exists updates' c',
    offer rnd bernoulli edges eta liars truths i rumor updates c
    = Ok updates' c'.
Proof.
  intros Hi Hlen. unfold offer.
  destruct (forM_total (fun upd : list (list string) => length upd = n)
              (fun j updates =>
                 do accept <-
                   (if decide (role j) then ret false
                    else do p <- entry eta j i;
                         choice_bool rnd bernoulli (Some p));
                 if accept : bool then
                   if decide (j < length updates)
                   then ret (alter (fun u => u ++ [rumor]) j updates)
                   else raise IndexError
                 else ret updates)
              (flatnonzero (edges !!! i))) with (s := updates) (c := c)
    as (upd' & c' & Hoff & _); [|done|by eauto].
  intros j upd c0 Hj Hupd.
  assert (j < n) as Hjn.
  { apply flatnonzero_elem in Hj as [Hj _].
    by rewrite (square_row n) in Hj. }
  assert (exists accept c1,
    (if decide (role j) then ret false
     else do p <- entry eta j i; choice_bool rnd bernoulli (Some p)) c0
    = Ok accept c1) as (accept & c1 & Hacc).
  { destruct (decide (role j)) as [Hrole|Hrole]; [by eexists _, _|].
    unfold bind. rewrite (entry_square n) by done.
    destruct (choice_bool_total (at2 eta j i) c0) as (b & Hb); [auto|].
    by eexists _, _. }
  unfold bind at 1. rewrite Hacc. destruct accept.
  - rewrite decide_True by lia. eexists _, _. split; [reflexivity|].
    by rewrite length_alter.
  - by eexists _, _.
Qed.

Lemma node_step_total i st updates c :
  run_inv L n st -> queue_ok n updates -> i < n ->
  exists st' updates' c',
    node_step rnd bernoulli edges K Hmax eta mcr liars truths i
              (st, updates) c = Ok (st', updates') c'.
Proof.
  intros Hrun Hq Hi. unfold node_step.
  destruct (Z.eqb_spec (sumZ (values (mem_dict st !!! i))) 0) as [|Htot].
  { by eexists _, _, _. }
  assert (exists rumor st1 c1,
    (if decide (role i)
     then (do rumor <- get_mc rnd (mem_dict st !!! i); ret (rumor, st))
     else select_ordinary rnd bernoulli K Hmax mcr i st) c
    = Ok (rumor, st1) c1) as (rumor & st1 & c1 & Hsel).
  { destruct (decide (role i)) as [Hrole|Hrole].
    - destruct (get_mc_total rnd (mem_dict st !!! i) c) as (r & Hmc & _).
      { intros Heq. by rewrite Heq in Htot. }
      exists r, st, (S c). unfold bind. by rewrite Hmc.
    - by apply select_ordinary_total. }
  unfold bind at 1. rewrite Hsel.
  destruct (offer_total i rumor updates c1 Hi) as (upd' & c' & Hoff).
  { apply Hq. }
  unfold bind. rewrite Hoff. by eexists _, _, _.
Qed.

Lemma broadcast_phase_total st c :
  run_inv L n st ->
  exists st1 updates c1,
    broadcast_phase rnd bernoulli edges K Hmax eta mcr liars truths st c
    = Ok (st1, updates) c1.
Proof.
  intros Hrun. unfold broadcast_phase.
  destruct (forM_total (fun su => run_inv L n su.1 /\ queue_ok n su.2)
              (node_step rnd bernoulli edges K Hmax eta mcr liars truths)
              (seq 0 n)) with (s := (st, replicate n ([] : list string)))
                              (c := c)
    as ([st1 updates] & c1 & Hb & _).
  - intros i [s upd] c0 Hin [Hs Hu]. apply elem_of_seq in Hin.
    destruct (node_step_total i s upd c0 Hs Hu ltac:(lia))
      as (s' & upd' & c' & Hstep).
    exists (s', upd'), c'. split; [done|].
    eapply node_step_run_inv; [done..|lia].
  - split; [done|apply queue_ok_empty].
  - by exists st1, updates, c1.
Qed.

Lemma current_opinions_total st c :
  exists ops c', current_opinions rnd edges st c = Ok ops c'.
Proof.
  unfold current_opinions.
  destruct (forM_total (fun _ : list string => True)
              (fun i ops =>
                 match mem_dict st !!! i with
                 | [] => ret ops
                 | count => do op <- get_mc rnd count; ret (ops ++ [op])
                 end) (seq 0 n)) with (s := [] : list string) (c := c)
    as (ops & c' & Hops & _); [|done|by eauto].
  intros i ops c0 _ _.
  destruct (mem_dict st !!! i) as [|kv rest] eqn:Heq.
  - by exists ops, c0.
  - destruct (get_mc_total rnd (kv :: rest) c0) as (r & Hr & _); [done|].
    exists (ops ++ [r]), (S c0). unfold bind. by rewrite Hr.
Qed.

Lemma record_stats_total st c :
  0 < n -> run_inv L n st ->
  exists st' c', record_stats rnd edges st c = Ok st' c'.
Proof.
  intros Hn (_ & _ & Hlen & _).
  destruct (current_opinions_total st c) as (ops & c' & Hops).
  unfold record_stats. destruct (H st) as [|h hs] eqn:HH.
  { simpl in Hlen. lia. }
  unfold bind. rewrite Hops. by eexists _, _.
Qed.

Lemma round_total st c :
  0 < n -> run_inv L n st ->
  exists st' c',
    round rnd bernoulli edges K Hmax eta L mcr liars truths st c = Ok st' c'.
Proof.
  intros Hn Hrun. unfold round.
  destruct (broadcast_phase_total st c Hrun) as (st1 & updates & c1 & Hb).
  unfold bind. rewrite Hb.
  apply broadcast_phase_run_inv in Hb as [Hrun1 Hq]; [|done].
  apply record_stats_total; [done|]. by apply apply_updates_run_inv.
Qed.

Lemma rounds_total num_rounds st c :
  0 < n -> run_inv L n st ->
  exists st' c',
    rounds rnd bernoulli edges K Hmax eta L mcr liars truths num_rounds st c
    = Ok st' c'.
Proof.
  intros Hn. revert st c.
  induction num_rounds as [|k IH]; intros st c Hrun; simpl.
  - by exists st, c.
  - destruct (round_total st c Hn Hrun) as (st1 & c1 & Hround).
    unfold bind. rewrite Hround. apply IH. by eapply round_run_inv.
Qed.

End RunFacts.

Lemma init_sim_total rnd init_person edges liarnum truthnum c :
  init_person < length edges ->
  liarnum + truthnum + 1 <= length edges ->
  exists st liars truths c',
    init_sim rnd init_person edges liarnum truthnum c
    = Ok (st, liars, truths) c'.
Proof.
  intros Hinit Hfit. unfold init_sim. set (n := length edges) in *.
  set (pop := filter (fun k => k <> init_person) (seq 0 n)).
  assert (length pop + 1 = n) as Hpop.
  { pose proof (filter_complement_length (seq 0 n) [init_person]
                  (NoDup_seq 0 n) (NoDup_singleton _)) as Hc.
    rewrite length_seq in Hc. simpl in Hc.
    assert (pop = filter (fun x => x ∉ [init_person]) (seq 0 n)) as ->.
    { apply list_filter_iff. intros x. by rewrite list_elem_of_singleton. }
    apply Hc. intros x ->%list_elem_of_singleton. apply elem_of_seq. lia. }
  unfold bind at 1. unfold sample at 1.
  rewrite decide_False by lia.
  destruct (draw_distinct_total rnd liarnum pop c) as (liars & c1 & Hl); [lia|].
  rewrite Hl.
  apply draw_distinct_spec in Hl as (Hnd & Hsub & Hlen).
  2:{ apply NoDup_filter, NoDup_seq. }
  set (pop' := filter (fun k => (k ∉ liars) /\ k <> init_person) (seq 0 n)).
  assert (length pop' + (liarnum + 1) = n) as Hpop'.
  { pose proof (filter_complement_length (seq 0 n) (init_person :: liars)
                  (NoDup_seq 0 n)) as Hc.
    rewrite length_seq in Hc. simpl in Hc. rewrite Hlen in Hc.
    assert (pop' = filter (fun x => x ∉ init_person :: liars) (seq 0 n))
      as ->.
    { apply list_filter_iff. intros x. rewrite not_elem_of_cons.
      naive_solver. }
    replace (liarnum + 1) with (S liarnum) by lia. apply Hc.
    - apply NoDup_cons. split; [|done]. intros Hin.
      by apply Hsub, list_elem_of_filter in Hin as [? _].
    - intros x [->|Hin]%elem_of_cons.
      + apply elem_of_seq. lia.
      + by apply Hsub, list_elem_of_filter in Hin as [_ ?]. }
  unfold bind. unfold sample. fold pop'.
  rewrite decide_False by lia.
  destruct (draw_distinct_total rnd truthnum pop' c1) as (truths & c2 & Ht);
    [lia|].
  rewrite Ht. rewrite decide_True by done. by eexists _, _, _, _.
Qed.

Lemma init_sim_run_inv rnd init_person edges liarnum truthnum L c st liars
      truths c' :
  init_sim rnd init_person edges liarnum truthnum c
  = Ok (st, liars, truths) c' ->
  run_inv L (length edges) st.
Proof.
  intros Hinit. split_and!.
  - by eapply init_sim_inv.
  - apply init_sim_spec in Hinit as (Hwf & _ & _ & _ & _ & Hnode).
    intros j. destruct (decide (j < length edges)) as [Hj|Hj].
    + specialize (Hnode j Hj). unfold node_mem in Hnode.
      repeat case_decide; injection Hnode as _ -> _;
        repeat constructor.
    + destruct Hwf as (_ & Hlen & _).
      rewrite list_lookup_total_alt, lookup_ge_None_2 by lia. constructor.
  - apply init_sim_spec in Hinit as (_ & _ & _ & _ & HH & _).
    split; rewrite HH; [by rewrite length_replicate|].
    apply Forall_replicate. lra.
Qed.

Lemma run_state_run_inv rnd bernoulli init_person edges K Hmax num_rounds eta
      L mcr liarnum truthnum c st liars truths c' :
  run_state rnd bernoulli init_person edges K Hmax num_rounds eta L mcr
            liarnum truthnum c = Ok (st, liars, truths) c' ->
  run_inv L (length edges) st.
Proof.
  intros Hrun.
  apply run_state_phases in Hrun as (st0 & c0 & Hinit & Hrounds).
  eapply rounds_run_inv; [exact Hrounds|]. by eapply init_sim_run_inv.
Qed.

(** A run returns: the roles fit in the graph, the library accepts
    probabilities, both matrices are square, [Hmax] is not 0 and the
    trust read along every edge is a probability. *)
Lemma run_state_total rnd bernoulli init_person edges K Hmax num_rounds eta L
      mcr liarnum truthnum c :
  let n := length edges in
  accepts_probabilities bernoulli ->
  square n edges -> square n eta ->
  init_person < n -> liarnum + truthnum + 1 <= n ->
  Hmax <> 0%R ->
  (forall i j, i < n -> j ∈ flatnonzero (edges !!! i) ->
               (0 <= at2 eta j i <= 1)%R) ->
  exists st liars truths c',
    run_state rnd bernoulli init_person edges K Hmax num_rounds eta L mcr
              liarnum truthnum c = Ok (st, liars, truths) c'.
Proof.
  intros n Hacc Hsq Hsqe Hinit Hfit HHmax Htrust.
  destruct (init_sim_total rnd init_person edges liarnum truthnum c Hinit Hfit)
    as (st0 & liars & truths & c0 & Hi).
  destruct (rounds_total rnd bernoulli edges K Hmax eta L mcr liars truths
              Hacc Hsq Hsqe HHmax Htrust num_rounds st0 c0)
    as (st & c' & Hr); [fold n; lia| |].
  { by eapply init_sim_run_inv. }
  exists st, liars, truths, c'. unfold run_state, bind. by rewrite Hi, Hr.
Qed.

Lemma role_memories rnd bernoulli init_person edges K Hmax num_rounds eta L
      mcr liarnum truthnum c st liars truths c' :
  run_state rnd bernoulli init_person edges K Hmax num_rounds eta L mcr
            liarnum truthnum c = Ok (st, liars, truths) c' ->
  (forall l, l ∈ liars ->
     l < length edges /\
     node_mem st l = ([("11111", 1%Z)], ["11111"], 1)) /\
  (forall t, t ∈ truths ->
     t < length edges /\
     node_mem st t = ([("00000", 1%Z)], ["00000"], 1)).
Proof.
  intros Hrun. apply run_state_phases in Hrun as (st0 & c0 & Hinit & Hrounds).
  apply init_sim_spec in Hinit as (Hwf & Hip & Hl & Ht & HH & Hnode).
  split.
  - intros l Hin. destruct (Hl l Hin) as (Hlt & Hne & Hnt).
    destruct (rounds_roles rnd bernoulli edges K Hmax eta L mcr liars truths
                num_rounds st0 c0 st c' l Hwf Hrounds)
      as [Hmem _]; [by left|done|].
    split; [done|]. rewrite Hmem, (Hnode l Hlt). by rewrite decide_True.
  - intros t Hin. destruct (Ht t Hin) as (Hlt & Hne).
    destruct (rounds_roles rnd bernoulli edges K Hmax eta L mcr liars truths
                num_rounds st0 c0 st c' t Hwf Hrounds)
      as [Hmem _]; [by right|done|].
    assert (t ∉ liars) as Hnl.
    { intros Hin'. by apply Hl in Hin' as (_ & _ & ?). }
    split; [done|]. rewrite Hmem, (Hnode t Hlt).
    rewrite decide_False by done. rewrite decide_True by (by left). done.
Qed.

Lemma mem_ok_empty (count : Counter) l : mem_ok count l -> count = [] <-> l = [].
Proof.
  intros (_ & Hpos & _ & Hsum). split.
  - intros ->. simpl in Hsum. destruct l; [done|simpl in Hsum; lia].
  - intros ->. destruct count as [|[k v] rest]; [done|].
    assert (0 < sumZ (values ((k, v) :: rest)))%Z; [|simpl in *; lia].
    apply sumZ_positive; [|done].
    apply Forall_fmap. eapply Forall_impl; [exact Hpos|]. by intros [? ?].
Qed.

(** The inputs of the examples satisfy the conditions of
    [run_state_total]. *)
Lemma by_parity_accepts : accepts_probabilities by_parity.
Proof. intros p d _. by eexists. Qed.

Lemma star3_square : square 3 star3.
Proof. split; [reflexivity|]. intros [|[|[|i]]] row [= <-]; reflexivity. Qed.

Lemma ones3_square : square 3 ones3.
Proof. split; [reflexivity|]. intros [|[|[|i]]] row [= <-]; reflexivity. Qed.

Lemma ones3_trust i j :
  i < 3 -> j ∈ flatnonzero (star3 !!! i) -> (0 <= at2 ones3 j i <= 1)%R.
Proof.
  intros Hi Hj. apply flatnonzero_elem in Hj as [Hj _].
  destruct i as [|[|[|i]]]; [| | |lia];
    (destruct j as [|[|[|j]]]; [| | |simpl in Hj; lia]);
    unfold at2; simpl; lra.
Qed.

Lemma star3_run_returns num_rounds L mcr liarnum truthnum c :
  liarnum + truthnum + 1 <= 3 ->
  exists st liars truths c',
    run_state counting by_parity 0 star3 1 5 num_rounds ones3 L mcr
              liarnum truthnum c = Ok (st, liars, truths) c'.
Proof.
  intros Hfit. apply run_state_total.
  - apply by_parity_accepts.
  - apply star3_square.
  - apply ones3_square.
  - simpl. lia.
  - done.
  - lra.
  - apply ones3_trust.
Qed.
(** ** Properties of whole runs *)

(** X5. [run_rumors] returns its five arrays, whatever is drawn, when
    [np.random.choice] accepts every weight of [0,1], the seed node is a
    node, the liars, the truth-tellers and the seed node fit in the
    graph, the two matrices are square of the size of the graph, [Hmax]
    is not 0 and the trust read along every edge is a probability: under
    these conditions every index of the source is in range and every
    weight handed to the library is a probability. *)
Theorem run_rumors_returns rnd bernoulli init_person edges K Hmax num_rounds
        eta L mcr liarnum truthnum c :
  let n := length edges in
  accepts_probabilities bernoulli ->
  square n edges -> square n eta ->
  init_person < n -> liarnum + truthnum + 1 <= n ->
  Hmax <> 0%R ->
  (forall i j, i < n -> j ∈ flatnonzero (edges !!! i) ->
               (0 <= at2 eta j i <= 1)%R) ->
  exists avg var mx mn frag c',
    run_rumors rnd bernoulli init_person edges K Hmax num_rounds eta L mcr
               liarnum truthnum c = Ok (avg, var, mx, mn, frag) c'.
Proof.
  intros n Hacc Hsq Hsqe Hinit Hfit HHmax Htrust.
  destruct (run_state_total rnd bernoulli init_person edges K Hmax num_rounds
              eta L mcr liarnum truthnum c Hacc Hsq Hsqe Hinit Hfit HHmax
              Htrust)
    as (st & liars & truths & c' & Hrun).
  exists (avgH st), (varH st), (maxH st), (minH st), (opinion_frag st), c'.
  unfold run_rumors, bind. by rewrite Hrun.
Qed.

Lemma run_rumors_returns_witness :
  (accepts_probabilities by_parity /\
   square 3 star3 /\ square 3 ones3 /\ 0 < 3 /\ 1 + 1 + 1 <= 3 /\
   5%R <> 0%R /\
   (forall i j, i < 3 -> j ∈ flatnonzero (star3 !!! i) ->
                (0 <= at2 ones3 j i <= 1)%R)) /\
  exists avg var mx mn frag c',
    run_rumors counting by_parity 0 star3 1 5 4 ones3 2 false 1 1 0
    = Ok (avg, var, mx, mn, frag) c'.
Proof.
  pose proof by_parity_accepts as Hacc.
  pose proof star3_square as Hsq1.
  pose proof ones3_square as Hsq2.
  pose proof ones3_trust as Heta.
  split; [split_and!; [done|done|done|lia|lia|lra|done]|].
  apply (run_rumors_returns counting by_parity 0 star3 1 5 4 ones3 2 false
                            1 1 0);
    [done|done|done|simpl; lia|simpl; lia|lra|done].
Defined.

(** *** The conditions on [Hmax] and on the trust matrix are needed *)

Lemma sample_none {A} rnd (pop : list A) c : sample rnd pop 0 c = Ok [] c.
Proof. unfold sample. by rewrite decide_False by lia. Qed.

Lemma init_sim_no_roles rnd init_person edges c st liars truths c' :
  init_sim rnd init_person edges 0 0 c = Ok (st, liars, truths) c' ->
  liars = [] /\ truths = [] /\ c' = c.
Proof.
  unfold init_sim. intros Hrun.
  apply bind_Ok in Hrun as (l & c1 & Hl & Hrun).
  rewrite sample_none in Hl. injection Hl as <- <-.
  apply bind_Ok in Hrun as (t & c2 & Ht & Hrun).
  rewrite sample_none in Ht. injection Ht as <- <-.
  case_decide; [|done]. by apply ret_Ok in Hrun as [[= _ <- <-] <-].
Qed.

Lemma choice_weighted_single rnd (code : string) c :
  choice_weighted rnd [(code, 1%Z)] c = Ok code (S c).
Proof.
  unfold choice_weighted, bind, draw. csimpl.
  by rewrite Z.mod_1_r.
Qed.

(** With [Hmax = 0], without liars and truth-tellers, a run of at least
    one round raises ValueError at the first broadcast of the seed node:
    its entropy is 0, line 239 divides 0 by 0 and line 240 hands the NaN
    to [np.random.choice], which refuses it. *)
Lemma zero_Hmax_raises rnd bernoulli init_person edges K num_rounds eta L mcr
      c :
  rejects_nan bernoulli ->
  init_person < length edges ->
  run_rumors rnd bernoulli init_person edges K 0 (S num_rounds) eta L mcr
             0 0 c = Raise ValueError.
Proof.
  intros Hnan Hinit.
  destruct (init_sim_total rnd init_person edges 0 0 c Hinit ltac:(lia))
    as (st & liars & truths & c0 & Hi).
  pose proof (init_sim_no_roles _ _ _ _ _ _ _ _ Hi) as (-> & -> & ->).
  pose proof (init_sim_spec _ _ _ _ _ _ _ _ _ _ Hi)
    as (_ & _ & _ & _ & _ & Hnode).
  assert (forall j, j < length edges ->
            mem_dict st !!! j
            = if decide (j = init_person) then [("00000", 1%Z)] else [])
    as Hdict.
  { intros j Hj. specialize (Hnode j Hj). unfold node_mem in Hnode.
    rewrite decide_False in Hnode by by intros ?%elem_of_nil.
    destruct (decide (j = init_person)) as [->|Hne].
    - rewrite decide_True in Hnode by by right. by injection Hnode.
    - rewrite decide_False in Hnode; [by injection Hnode|].
      intros [?%elem_of_nil|?]; done. }
  unfold run_rumors, run_state. unfold bind at 1. unfold bind at 1.
  rewrite Hi. simpl. unfold bind at 1. unfold bind at 1.
  unfold round. unfold bind at 1.
  assert (broadcast_phase rnd bernoulli edges K 0 eta mcr [] [] st c
          = Raise ValueError) as ->; [|done].
  unfold broadcast_phase.
  replace (seq 0 (length edges))
    with (seq 0 init_person
          ++ init_person :: seq (S init_person)
                                (length edges - S init_person)).
  2:{ rewrite cons_seq, <- seq_app. f_equal. lia. }
  eapply forM_raise.
  - apply forM_skip. intros i Hin. apply elem_of_seq in Hin.
    unfold node_step. rewrite Hdict by lia.
    by rewrite decide_False by lia.
  - unfold node_step. rewrite Hdict by lia. rewrite decide_True by done.
    simpl. unfold bind at 1. unfold select_ordinary.
    rewrite Hdict by lia. rewrite decide_True by done.
    unfold bind at 1.
    assert ((if mcr then get_mc rnd [("00000", 1%Z)]
             else choice_weighted rnd [("00000", 1%Z)]) c
            = Ok "00000" (S c)) as ->.
    { destruct mcr; [apply get_mc_single|apply choice_weighted_single]. }
    rewrite entropy_single by lia. rewrite mutation_weight_nan.
    unfold bind at 1. unfold choice_bool, bind, draw. by rewrite Hnan.
Qed.

(** A trust matrix without rows makes the first offer of the seed node
    raise IndexError at line 257. *)
Example run_without_trust_rows :
  run_rumors counting by_parity 0 star3 1 5 1 [] 2 true 0 0 0
  = Raise IndexError.
Proof. vm_compute. reflexivity. Qed.

(** X6. At the head of every round every rumor a node holds is one of the
    32 codes of five characters 0 or 1, the ones [opinion_frag] has a row
    for; a memory holds at most 32 distinct codes. *)
Theorem held_rumors_are_codes rnd bernoulli init_person edges K Hmax
        num_rounds eta L mcr liarnum truthnum c st liars truths c' :
  run_state rnd bernoulli init_person edges K Hmax num_rounds eta L mcr
            liarnum truthnum c = Ok (st, liars, truths) c' ->
  forall j, j < length edges ->
    Forall (fun s => is_code s = true) (mem_list st !!! j) /\
    (forall k, k ∈ keys (mem_dict st !!! j) ->
               exists a, a < 32 /\ k = format_05b a) /\
    length (keys (mem_dict st !!! j)) <= 32.
Proof.
  intros Hrun j Hj.
  apply (run_state_run_inv _ _ _ _ _ _ _ _ L) in Hrun
    as (Hinv & Hcodes & _).
  split_and!; [apply Hcodes| |].
  - intros k Hk.
    pose proof (held_codes edges L st j k Hinv Hcodes Hj Hk) as Hc.
    apply is_code_codes32 in Hc. unfold codes32 in Hc.
    apply list_elem_of_fmap in Hc as (a & -> & Ha).
    apply elem_of_seq in Ha. exists a. split; [lia|done].
  - unfold keys. rewrite length_fmap.
    pose proof Hinv as [_ Hmem]. destruct (Hmem j Hj) as [(Hnd & _) _].
    apply keys_length_codes; [done|].
    intros k Hk. by eapply held_codes.
Qed.

Lemma held_rumors_are_codes_witness :
  exists st liars truths c',
    run_state counting by_parity 0 star3 1 5 3 ones3 2 true 1 0 0
    = Ok (st, liars, truths) c' /\
    mem_list st = [["11111"; "01010"]; ["11111"]; ["11111"; "01000"]] /\
    forall j, j < length star3 ->
      Forall (fun s => is_code s = true) (mem_list st !!! j) /\
      (forall k, k ∈ keys (mem_dict st !!! j) ->
                 exists a, a < 32 /\ k = format_05b a) /\
      length (keys (mem_dict st !!! j)) <= 32.
Proof.
  eexists _, _, _, _. split; [vm_compute; reflexivity|].
  split; [reflexivity|].
  eapply (held_rumors_are_codes counting by_parity 0 star3 1 5 3 ones3 2
                                true 1 0 0).
  vm_compute; reflexivity.
Defined.

(** X7. At the head of every round the entropy array has one slot per node
    and every slot lies between 0 and 5 bits; so with [Hmax = 5] and a
    conservation factor [K >= 0] the mutation probability computed from
    a slot lies between [1/(exp K + 1)] and one half. *)
Theorem recorded_entropies_within_five_bits rnd bernoulli init_person edges K
        Hmax num_rounds eta L mcr liarnum truthnum c st liars truths c' :
  run_state rnd bernoulli init_person edges K Hmax num_rounds eta L mcr
            liarnum truthnum c = Ok (st, liars, truths) c' ->
  length (H st) = length edges /\
  forall j, j < length edges ->
    (0 <= H st !!! j <= 5)%R /\
    forall K', (0 <= K')%R ->
      (1 / (exp K' + 1) <= mutation_probability 5 K' (H st !!! j)
       <= 1 / 2)%R.
Proof.
  intros Hrun.
  apply (run_state_run_inv _ _ _ _ _ _ _ _ L) in Hrun
    as (_ & _ & Hlen & Hent).
  split; [done|]. intros j Hj.
  assert (0 <= H st !!! j <= 5)%R as Hb.
  { destruct (lookup_lt_is_Some_2 (H st) j ltac:(lia)) as [h Hh].
    rewrite (list_lookup_total_correct _ _ _ Hh).
    by apply (Forall_lookup_1 _ _ _ _ Hent Hh). }
  split; [done|]. intros K' HK'.
  rewrite <- (mutation_probability_at_0 5 K') by lra.
  rewrite <- (mutation_probability_at_Hmax 5 K').
  split; apply mutation_probability_mono; lra.
Qed.

Lemma recorded_entropies_within_five_bits_witness :
  exists st liars truths c',
    run_state counting by_parity 0 star3 1 5 3 ones3 2 true 1 0 0
    = Ok (st, liars, truths) c' /\
    length (H st) = length star3 /\
    forall j, j < length star3 ->
      (0 <= H st !!! j <= 5)%R /\
      forall K', (0 <= K')%R ->
        (1 / (exp K' + 1) <= mutation_probability 5 K' (H st !!! j)
         <= 1 / 2)%R.
Proof.
  eexists _, _, _, _. split; [vm_compute; reflexivity|].
  eapply (recorded_entropies_within_five_bits counting by_parity 0 star3 1 5
            3 ones3 2 true 1 0 0).
  vm_compute; reflexivity.
Defined.

(** X8. The colour [str2col] gives the memory of a node at the head of any
    round of a run: it is always one of the seven colours (the function
    neither raises nor falls off its last test), white exactly for a
    node that holds no rumor, red for every liar and blue for every
    truth-teller, whatever is drawn for the majority. *)
Theorem node_colours_in_a_run rnd bernoulli init_person edges K Hmax
        num_rounds eta L mcr liarnum truthnum c st liars truths c' :
  run_state rnd bernoulli init_person edges K Hmax num_rounds eta L mcr
            liarnum truthnum c = Ok (st, liars, truths) c' ->
  forall j rnd' k, j < length edges ->
    exists col k',
      str2col rnd' (mem_dict st !!! j) k = Ok (Some col) k' /\
      (col = "#ffffff" <-> mem_list st !!! j = []) /\
      (j ∈ liars -> col = "#ff0000") /\
      (j ∈ truths -> col = "#33ccff").
Proof.
  intros Hrun j rnd' k Hj.
  pose proof (role_memories _ _ _ _ _ _ _ _ _ _ _ _ _ _ _ _ _ Hrun)
    as [Hliars Htruths].
  apply (run_state_run_inv _ _ _ _ _ _ _ _ L) in Hrun
    as (Hinv & Hcodes & _).
  pose proof Hinv as [_ Hmem]. destruct (Hmem j Hj) as [Hok _].
  pose proof (mem_ok_empty _ _ Hok) as Hempty.
  destruct (str2col_spec rnd' (mem_dict st !!! j) k) as [Hnil Hcons].
  { intros code Hcode. by eapply held_codes. }
  destruct (decide (mem_dict st !!! j = [])) as [Heq|Hne].
  - exists "#ffffff", k. split; [by apply Hnil|].
    split_and!.
    + split; [intros _; by apply Hempty|done].
    + intros Hin. destruct (Hliars j Hin) as [_ Hnode].
      unfold node_mem in Hnode. rewrite Heq in Hnode. done.
    + intros Hin. destruct (Htruths j Hin) as [_ Hnode].
      unfold node_mem in Hnode. rewrite Heq in Hnode. done.
  - destruct (Hcons Hne)
      as (label & col & Hmc & Hs & _ & Hwhite & Hblue & Hred).
    exists col, (S k). split; [done|].
    apply get_mc_key in Hmc.
    split_and!.
    + split; [done|]. intros Hl. by apply Hempty in Hl.
    + intros Hin. destruct (Hliars j Hin) as [_ Hnode].
      unfold node_mem in Hnode. injection Hnode as Hd _ _.
      rewrite Hd in Hmc. apply Hred.
      by apply list_elem_of_singleton in Hmc.
    + intros Hin. destruct (Htruths j Hin) as [_ Hnode].
      unfold node_mem in Hnode. injection Hnode as Hd _ _.
      rewrite Hd in Hmc. apply Hblue.
      by apply list_elem_of_singleton in Hmc.
Qed.

Lemma node_colours_in_a_run_witness :
  exists st liars truths c',
    run_state counting by_parity 0 star3 1 5 3 ones3 2 true 1 1 0
    = Ok (st, liars, truths) c' /\
    liars = [1] /\ truths = [2] /\
    str2col counting (mem_dict st !!! 1) 0 = Ok (Some "#ff0000") 1 /\
    forall j rnd' k, j < length star3 ->
      exists col k',
        str2col rnd' (mem_dict st !!! j) k = Ok (Some col) k' /\
        (col = "#ffffff" <-> mem_list st !!! j = []) /\
        (j ∈ liars -> col = "#ff0000") /\
        (j ∈ truths -> col = "#33ccff").
Proof.
  eexists _, _, _, _. split; [vm_compute; reflexivity|].
  split; [reflexivity|]. split; [reflexivity|]. split; [reflexivity|].
  eapply (node_colours_in_a_run counting by_parity 0 star3 1 5 3 ones3 2
                                true 1 1 0).
  vm_compute; reflexivity.
Defined.

(** ** The statistics of a round *)

Lemma Rmin_list_le_head x xs : (Rmin_list x xs <= x)%R.
Proof.
  unfold Rmin_list. revert x. induction xs as [|y xs IH]; intros x; simpl.
  - lra.
  - eapply Rle_trans; [apply IH|apply (Rmin_l x y)].
Qed.

Lemma Rmin_list_le x xs y : y ∈ x :: xs -> (Rmin_list x xs <= y)%R.
Proof.
  unfold Rmin_list. revert x. induction xs as [|z xs IH]; intros x; simpl.
  - intros ->%list_elem_of_singleton. lra.
  - intros [->|Hin]%elem_of_cons.
    + eapply Rle_trans; [apply Rmin_list_le_head|apply (Rmin_l x z)].
    + apply elem_of_cons in Hin as [->|Hin].
      * eapply Rle_trans; [apply Rmin_list_le_head|apply (Rmin_r x z)].
      * apply IH. by right.
Qed.

Lemma Rmin_list_elem x xs : Rmin_list x xs ∈ x :: xs.
Proof.
  unfold Rmin_list. revert x. induction xs as [|z xs IH]; intros x; simpl.
  - by left.
  - specialize (IH (Rmin x z)). apply elem_of_cons in IH as [Heq|Hin].
    + rewrite Heq. unfold Rmin. destruct (Rle_dec x z).
      * by left.
      * right. by left.
    + right. by right.
Qed.

Lemma sumR_between (l : list R) a b :
  (forall x, x ∈ l -> (a <= x <= b)%R) ->
  (INR (length l) * a <= sumR l <= INR (length l) * b)%R.
Proof.
  induction l as [|x l IH]; intros Hl.
  - rewrite sumR_nil. simpl. lra.
  - rewrite sumR_cons. change (length (x :: l)) with (S (length l)).
    rewrite S_INR. destruct (Hl x ltac:(left)) as [Ha Hb].
    destruct IH as [IHa IHb]; [intros y Hy; apply Hl; by right|]. lra.
Qed.

Lemma average_between h hs :
  (Rmin_list h hs <= sumR (h :: hs) / INR (length (h :: hs))
   <= Rmax_list h hs)%R.
Proof.
  assert (0 < INR (length (h :: hs)))%R as Hn by (apply lt_0_INR; simpl; lia).
  destruct (sumR_between (h :: hs) (Rmin_list h hs) (Rmax_list h hs))
    as [Hlo Hhi].
  { intros x Hx. split; [by apply Rmin_list_le|by apply Rmax_list_ge]. }
  split.
  - apply (Rmult_le_reg_r (INR (length (h :: hs)))); [done|].
    unfold Rdiv. rewrite Rmult_assoc, Rinv_l by lra. lra.
  - apply (Rmult_le_reg_r (INR (length (h :: hs)))); [done|].
    unfold Rdiv. rewrite Rmult_assoc, Rinv_l by lra. lra.
Qed.

Lemma sumR_scale {A} (f : A -> R) (d : R) (l : list A) :
  sumR ((fun a => f a / d)%R <$> l) = (sumR (f <$> l) / d)%R.
Proof.
  induction l as [|x l IH]; csimpl.
  - rewrite sumR_nil. unfold Rdiv. ring.
  - rewrite !sumR_cons, IH. unfold Rdiv. ring.
Qed.

Lemma sumR_INR {A} (f : A -> nat) (l : list A) :
  sumR ((fun a => INR (f a)) <$> l) = INR (sum_list (f <$> l)).
Proof.
  induction l as [|x l IH]; csimpl.
  - by rewrite sumR_nil.
  - by rewrite sumR_cons, IH, plus_INR.
Qed.

(** Counting the entries of [ops] code by code counts each entry once. *)
Lemma occurrences_hit (l : list string) x :
  NoDup l -> x ∈ l ->
  sum_list ((fun k => if decide (x = k) then 1 else 0) <$> l) = 1.
Proof.
  induction 1 as [|y l Hy Hnd IH]; intros Hx; [by apply elem_of_nil in Hx|].
  csimpl. case_decide as Heq.
  - subst y. clear IH Hx.
    assert (sum_list ((fun k => if decide (x = k) then 1 else 0) <$> l) = 0)
      as ->; [|done].
    induction l as [|z l IH]; [done|]. csimpl.
    apply not_elem_of_cons in Hy as [Hne Hy].
    apply NoDup_cons in Hnd as [_ Hnd].
    rewrite decide_False by done. by rewrite IH.
  - apply elem_of_cons in Hx as [->|Hx]; [done|]. by rewrite IH.
Qed.

Lemma occurrences_partition (l ops : list string) :
  NoDup l -> Forall (fun op => op ∈ l) ops ->
  sum_list ((fun k => occurrences ops k) <$> l) = length ops.
Proof.
  intros Hnd Hops. induction Hops as [|x ops Hx _ IH].
  - induction l as [|k l IHl]; [done|]. csimpl.
    apply NoDup_cons in Hnd as [_ Hnd]. by rewrite IHl.
  - change (length (x :: ops)) with (1 + length ops).
    rewrite <- IH, <- (occurrences_hit l x Hnd Hx).
    clear. induction l as [|k l IHl]; [done|]. csimpl.
    rewrite occurrences_cons. lia.
Qed.

Lemma current_opinions_spec rnd edges st c ops c' :
  current_opinions rnd edges st c = Ok ops c' ->
  length ops = informed (length edges) st /\
  Forall (fun op => exists i, i < length edges /\
                              op ∈ keys (mem_dict st !!! i)) ops.
Proof.
  unfold current_opinions, informed.
  assert (forall l ops0 c0 ops1 c1,
    forM (fun i ops =>
            match mem_dict st !!! i with
            | [] => ret ops
            | count => do op <- get_mc rnd count; ret (ops ++ [op])
            end) l ops0 c0 = Ok ops1 c1 ->
    exists new,
      ops1 = ops0 ++ new /\
      length new = length (filter (fun i => mem_dict st !!! i <> []) l) /\
      Forall (fun op => exists i, i ∈ l /\ op ∈ keys (mem_dict st !!! i)) new)
    as Hgen.
  { induction l as [|i l IH]; intros ops0 c0 ops1 c1 Hrun.
    - apply ret_Ok in Hrun as [<- _]. exists []. by rewrite app_nil_r.
    - simpl in Hrun. apply bind_Ok in Hrun as (ops2 & c2 & Hstep & Hrun).
      apply IH in Hrun as (new & -> & Hlen & Hall).
      assert (Forall (fun op => exists i0, i0 ∈ i :: l /\
                                  op ∈ keys (mem_dict st !!! i0)) new) as Hall'.
      { eapply Forall_impl; [exact Hall|]. intros op (i0 & Hi0 & Hop).
        exists i0. split; [by right|done]. }
      rewrite filter_cons.
      destruct (mem_dict st !!! i) as [|kv rest] eqn:Heq.
      + apply ret_Ok in Hstep as [<- _]. rewrite decide_False by auto.
        exists new. done.
      + apply bind_Ok in Hstep as (op & c3 & Hmc & Hstep).
        apply ret_Ok in Hstep as [<- _]. rewrite decide_True by done.
        exists (op :: new). split_and!.
        * by rewrite <- app_assoc.
        * simpl. by rewrite Hlen.
        * constructor; [|done]. exists i. split; [by left|].
          rewrite Heq. by eapply get_mc_key. }
  intros Hrun.
  apply Hgen in Hrun as (new & -> & Hlen & Hall). simpl.
  split; [done|]. eapply Forall_impl; [exact Hall|].
  intros op (i & Hi%elem_of_seq & Hop). exists i. split; [lia|done].
Qed.

Lemma NoDup_codes32 : NoDup codes32.
Proof. apply (bool_decide_unpack _). vm_compute. exact I. Qed.

Lemma informed_le n st : informed n st <= n.
Proof.
  unfold informed. etransitivity; [apply length_filter|].
  by rewrite length_seq.
Qed.

(** What [record_stats] appends to the five arrays. *)
Lemma record_stats_appends L rnd edges st c st' c' :
  run_inv L (length edges) st ->
  record_stats rnd edges st c = Ok st' c' ->
  exists av vr mx mn col,
    avgH st' = avgH st ++ [av] /\ varH st' = varH st ++ [vr] /\
    maxH st' = maxH st ++ [mx] /\ minH st' = minH st ++ [mn] /\
    opinion_frag st' = opinion_frag st ++ [col] /\
    (0 <= mn <= av)%R /\ (av <= mx <= 5)%R /\ (0 <= vr)%R /\
    length col = 32 /\ Forall (fun x => (0 <= x <= 1)%R) col /\
    sumR col = (INR (informed (length edges) st) / INR (length edges))%R /\
    0 < length edges.
Proof.
  intros (Hinv & Hcodes & Hlen & Hent) Hrun. unfold record_stats in Hrun.
  destruct (H st) as [|h hs] eqn:HH; [done|].
  apply bind_Ok in Hrun as (ops & c1 & Hops & Hrun).
  apply ret_Ok in Hrun as [<- _].
  assert (0 < length edges) as Hn by (rewrite <- Hlen; simpl; lia).
  assert (0 < INR (length edges))%R as HnR by by apply lt_0_INR.
  apply current_opinions_spec in Hops as [Hopslen Hopskeys].
  pose proof (informed_le (length edges) st) as Hinf.
  pose proof (average_between h hs) as [Hlo Hhi].
  pose proof (Rmin_list_elem h hs) as Hmin.
  pose proof (Rmax_list_elem h hs) as Hmax.
  apply (proj1 (Forall_forall _ _) Hent) in Hmin, Hmax.
  eexists _, _, _, _, _. cbn [avgH varH maxH minH opinion_frag].
  split_and!; [reflexivity..|lra|lra|lra|lra| | | | |exact Hn].
  - apply sumR_nonneg, Forall_fmap, Forall_forall. intros i _. simpl.
    assert (0 < INR (length (h :: hs)))%R as Hpos
      by (apply lt_0_INR; simpl; lia).
    apply Rmult_le_pos; [apply Rle_0_sqr|].
    left. by apply Rinv_0_lt_compat.
  - by rewrite length_fmap, length_seq.
  - apply Forall_fmap, Forall_forall. intros a _. simpl.
    assert (length (filter (fun op => op = format_05b a) ops)
            <= length edges) as Hle.
    { etransitivity; [apply length_filter|]. lia. }
    apply le_INR in Hle.
    pose proof (pos_INR (length (filter (fun op => op = format_05b a) ops))).
    split.
    + apply Rmult_le_pos; [done|]. left. by apply Rinv_0_lt_compat.
    + apply (Rmult_le_reg_r (INR (length edges))); [done|].
      unfold Rdiv. rewrite Rmult_assoc, Rinv_l by lra. lra.
  - rewrite (sumR_scale
               (fun a => INR (length (filter (fun op => op = format_05b a)
                                             ops)))).
    rewrite (sumR_INR
               (fun a => length (filter (fun op => op = format_05b a) ops))).
    f_equal. f_equal. rewrite <- Hopslen.
    rewrite <- (occurrences_partition codes32 ops NoDup_codes32).
    + unfold codes32. by rewrite <- list_fmap_compose.
    + eapply Forall_impl; [exact Hopskeys|].
      intros op (i & Hi & Hop). apply is_code_codes32.
      by eapply held_codes.
Qed.

Lemma node_effect_stats liars truths i st st' :
  node_effect liars truths i st st' -> stats st' = stats st.
Proof. by destruct 1. Qed.

Lemma mem_insert_stats L j up st : stats (mem_insert L j up st) = stats st.
Proof.
  unfold mem_insert, mem_evict.
  destruct (mem_list (mem_append j up st) !! j) as [[|first rest]|]; [done| |done].
  by destruct (L <? Z.of_nat (length (first :: rest)))%Z.
Qed.

Lemma apply_updates_stats L j updates st :
  stats (apply_updates L j updates st) = stats st.
Proof.
  revert j st. induction updates as [|ul updates IH]; intros j st; [done|].
  simpl. rewrite IH. clear. revert st.
  induction ul as [|up ul IH]; intros st; [done|].
  simpl. by rewrite IH, mem_insert_stats.
Qed.

Section StatsFacts.

Variables (rnd : nat -> Z) (bernoulli : option R -> Z -> option bool).
Variables (edges : matrix nat) (K Hmax : R) (eta : matrix R) (L : Z)
          (mcr : bool) (liars truths : list nat).

Local Abbreviation n := (length edges).

Lemma broadcast_phase_stats st c st1 updates c1 :
  broadcast_phase rnd bernoulli edges K Hmax eta mcr liars truths st c
  = Ok (st1, updates) c1 ->
  stats st1 = stats st.
Proof.
  unfold broadcast_phase. intros Hrun.
  eapply (forM_inv (fun su => stats su.1 = stats st)) in Hrun; [done| |done].
  clear. intros i [s upd] c [s' upd'] c' _ Heq Hstep. simpl in *.
  apply node_step_effect in Hstep as [Heff _].
  apply node_effect_stats in Heff. congruence.
Qed.

(** A round hands [record_stats] a state that satisfies the invariant
    and still carries the statistics of the rounds before. *)
Lemma round_record st c st2 c2 :
  run_inv L n st ->
  round rnd bernoulli edges K Hmax eta L mcr liars truths st c = Ok st2 c2 ->
  exists st1 c1,
    run_inv L n st1 /\ stats st1 = stats st /\
    record_stats rnd edges st1 c1 = Ok st2 c2 /\
    run_inv L n st2 /\ mem_dict st2 = mem_dict st1.
Proof.
  intros Hinv Hround.
  apply round_phases in Hround as (st1 & updates & c1 & Hb & Hstats).
  destruct (broadcast_phase_run_inv rnd bernoulli edges K Hmax eta L mcr
              liars truths st c st1 updates c1 Hb Hinv) as [Hinv1 Hq].
  pose proof (apply_updates_run_inv edges L st1 updates Hinv1 Hq) as Hinv1a.
  exists (apply_updates L 0 updates st1), c1. split_and!; [done| |done| |].
  - rewrite apply_updates_stats. by eapply broadcast_phase_stats.
  - by eapply record_stats_run_inv.
  - by apply record_stats_frame in Hstats as (-> & _).
Qed.

Lemma round_stats_ok st c st2 c2 :
  run_inv L n st -> stats_ok st ->
  round rnd bernoulli edges K Hmax eta L mcr liars truths st c = Ok st2 c2 ->
  stats_ok st2 /\ length (avgH st2) = S (length (avgH st)) /\
  exists col,
    last (opinion_frag st2) = Some col /\
    sumR col = (INR (informed n st2) / INR n)%R /\ 0 < n.
Proof.
  intros Hinv (Hmin & Hmax' & Hvar & Hcol) Hround.
  apply round_record in Hround
    as (st1 & c1 & Hinv1 & Hst & Hrec & Hinv2 & Hdict); [|done].
  injection Hst as Ha Hv Hx Hm Hf.
  apply (record_stats_appends L) in Hrec
    as (av & vr & mx & mn & col & Ea & Ev & Ex & Em & Ef & Hmn & Hmx & Hvr
        & Hlen & Hfr & Hsum & Hn); [|done].
  unfold stats_ok. rewrite Ea, Ev, Ex, Em, Ef, Ha, Hv, Hx, Hm, Hf.
  assert (informed n st2 = informed n st1) as Hinf
    by (unfold informed; by rewrite Hdict).
  pose proof (informed_le n st1) as Hle.
  assert (0 < INR n)%R as HnR by by apply lt_0_INR.
  split_and!.
  - apply Forall2_app; [done|]. constructor; [done|constructor].
  - apply Forall2_app; [done|]. constructor; [done|constructor].
  - apply Forall2_app; [done|]. constructor; [done|constructor].
  - apply Forall2_app; [done|]. constructor; [|constructor].
    split_and!; [done|done|].
    rewrite Hsum. apply le_INR in Hle.
    apply (Rmult_le_reg_r (INR n)); [done|].
    unfold Rdiv. rewrite Rmult_assoc, Rinv_l by lra. lra.
  - rewrite length_app. simpl. lia.
  - exists col. split_and!; [by rewrite last_snoc|by rewrite Hinf|done].
Qed.

Lemma rounds_stats_ok num_rounds st c st' c' :
  run_inv L n st -> stats_ok st ->
  rounds rnd bernoulli edges K Hmax eta L mcr liars truths num_rounds st c
  = Ok st' c' ->
  stats_ok st' /\ length (avgH st') = length (avgH st) + num_rounds.
Proof.
  revert st c. induction num_rounds as [|k IH];
    intros st c Hinv Hok Hrun; simpl in Hrun.
  - apply ret_Ok in Hrun as [<- _]. split; [done|lia].
  - apply bind_Ok in Hrun as (st1 & c1 & Hround & Hrun).
    pose proof (round_stats_ok _ _ _ _ Hinv Hok Hround) as (Hok1 & Hlen1 & _).
    apply round_record in Hround as (_ & _ & _ & _ & _ & Hinv1 & _); [|done].
    destruct (IH st1 c1 Hinv1 Hok1 Hrun) as [Hok' Hlen']. split; [done|lia].
Qed.

End StatsFacts.

Lemma stats_ok_lengths st :
  stats_ok st ->
  length (minH st) = length (avgH st) /\
  length (maxH st) = length (avgH st) /\
  length (varH st) = length (avgH st) /\
  length (opinion_frag st) = length (avgH st).
Proof.
  intros (Hmin & Hmax & Hvar & Hcol).
  apply Forall2_length in Hmin, Hmax, Hvar, Hcol. lia.
Qed.

Lemma run_state_stats_ok rnd bernoulli init_person edges K Hmax num_rounds
      eta L mcr liarnum truthnum c st liars truths c' :
  run_state rnd bernoulli init_person edges K Hmax num_rounds eta L mcr
            liarnum truthnum c = Ok (st, liars, truths) c' ->
  stats_ok st /\ length (avgH st) = num_rounds.
Proof.
  intros Hrun.
  apply run_state_phases in Hrun as (st0 & c0 & Hinit & Hrounds).
  pose proof (init_sim_run_inv _ _ _ _ _ L _ _ _ _ _ Hinit) as Hinv0.
  assert (stats st0 = ([], [], [], [], [])) as Hst0.
  { unfold init_sim in Hinit.
    apply bind_Ok in Hinit as (ls & c1 & _ & Hinit).
    apply bind_Ok in Hinit as (ts & c2 & _ & Hinit).
    case_decide; [|done]. apply ret_Ok in Hinit as [[= <- _ _] _].
    unfold stats. simpl.
    assert (forall code l st,
              stats (foldl (fun st x => mem_append x code st) st l) = stats st)
      as Hfold.
    { intros code l. induction l as [|x l IH]; intros st'; [done|].
      simpl. by rewrite IH. }
    fold (stats (foldl (fun st t => mem_append t "00000" st)
                   (foldl (fun st l => mem_append l "11111" st)
                      (Sim (replicate (length edges) [])
                           (replicate (length edges) []) [] [] [] [] [] []
                           (replicate (length edges) 0)) ls) ts)).
    by rewrite !Hfold. }
  injection Hst0 as Ha Hv Hx Hm Hf.
  destruct (rounds_stats_ok rnd bernoulli edges K Hmax eta L mcr liars truths
              num_rounds st0 c0 st c' Hinv0) as [Hok Hlen]; [|done|].
  { unfold stats_ok. rewrite Ha, Hv, Hx, Hm, Hf.
    split_and!; constructor. }
  split; [done|]. rewrite Hlen, Ha. done.
Qed.

Lemma run_rumors_state rnd bernoulli init_person edges K Hmax num_rounds eta L
      mcr liarnum truthnum c avg var mx mn frag c' :
  run_rumors rnd bernoulli init_person edges K Hmax num_rounds eta L mcr
             liarnum truthnum c = Ok (avg, var, mx, mn, frag) c' ->
  exists st liars truths,
    run_state rnd bernoulli init_person edges K Hmax num_rounds eta L mcr
              liarnum truthnum c = Ok (st, liars, truths) c' /\
    avg = avgH st /\ var = varH st /\ mx = maxH st /\ mn = minH st /\
    frag = opinion_frag st.
Proof.
  unfold run_rumors. intros Hrun.
  apply bind_Ok in Hrun as ([[st liars] truths] & c1 & Hstate & Hrun).
  apply ret_Ok in Hrun as [[= <- <- <- <- <-] <-].
  by exists st, liars, truths.
Qed.

Lemma rounds_S rnd bernoulli edges K Hmax eta L mcr liars truths k st c :
  rounds rnd bernoulli edges K Hmax eta L mcr liars truths (S k) st c
  = bind (round rnd bernoulli edges K Hmax eta L mcr liars truths st)
         (rounds rnd bernoulli edges K Hmax eta L mcr liars truths k) c.
Proof. done. Qed.

(** The last round of a run of [k + 1] rounds starts from the state
    after [k] rounds. *)
Lemma rounds_snoc rnd bernoulli edges K Hmax eta L mcr liars truths k st c :
  rounds rnd bernoulli edges K Hmax eta L mcr liars truths (S k) st c
  = bind (rounds rnd bernoulli edges K Hmax eta L mcr liars truths k st)
         (round rnd bernoulli edges K Hmax eta L mcr liars truths) c.
Proof.
  revert st c. induction k as [|k IH]; intros st c.
  - rewrite rounds_S. unfold bind. simpl. unfold ret.
    by destruct (round rnd bernoulli edges K Hmax eta L mcr liars truths st c).
  - rewrite rounds_S. unfold bind. rewrite (rounds_S _ _ _ _ _ _ _ _ _ _ k st c).
    unfold bind.
    destruct (round rnd bernoulli edges K Hmax eta L mcr liars truths st c)
      as [st1 c1| |]; [|done..].
    by rewrite IH.
Qed.

Lemma last_round_column rnd bernoulli init_person edges K Hmax k eta L mcr
      liarnum truthnum c st liars truths c' :
  run_state rnd bernoulli init_person edges K Hmax (S k) eta L mcr
            liarnum truthnum c = Ok (st, liars, truths) c' ->
  exists col,
    last (opinion_frag st) = Some col /\
    sumR col = (INR (informed (length edges) st) / INR (length edges))%R.
Proof.
  intros Hrun.
  apply run_state_phases in Hrun as (st0 & c0 & Hinit & Hrounds).
  pose proof (init_sim_run_inv _ _ _ _ _ L _ _ _ _ _ Hinit) as Hinv0.
  rewrite rounds_snoc in Hrounds.
  apply bind_Ok in Hrounds as (stk & ck & Hk & Hlast).
  assert (run_state rnd bernoulli init_person edges K Hmax k eta L mcr
            liarnum truthnum c = Ok (stk, liars, truths) ck) as Hrunk.
  { unfold run_state, bind. by rewrite Hinit, Hk. }
  pose proof (run_state_run_inv _ _ _ _ _ _ _ _ _ _ _ _ _ _ _ _ _ Hrunk)
    as Hinvk.
  apply run_state_stats_ok in Hrunk as [Hok _].
  destruct (round_stats_ok _ _ _ _ _ _ _ _ _ _ _ _ _ _ Hinvk Hok Hlast)
    as (_ & _ & col & Hcol & Hsum & _).
  by exists col.
Qed.

(** ** The arrays [run_rumors] returns *)

(** X9. The four entropy arrays returned by [run_rumors] have one entry per
    round and [opinion_frag] one column of 32 fractions per round. *)
Theorem run_rumors_output_shape rnd bernoulli init_person edges K Hmax
        num_rounds eta L mcr liarnum truthnum c avg var mx mn frag c' :
  run_rumors rnd bernoulli init_person edges K Hmax num_rounds eta L mcr
             liarnum truthnum c = Ok (avg, var, mx, mn, frag) c' ->
  length avg = num_rounds /\ length var = num_rounds /\
  length mx = num_rounds /\ length mn = num_rounds /\
  length frag = num_rounds /\
  Forall (fun col => length col = 32) frag.
Proof.
  intros Hrun.
  apply run_rumors_state in Hrun
    as (st & liars & truths & Hrun & -> & -> & -> & -> & ->).
  apply run_state_stats_ok in Hrun as [Hok Hlen].
  destruct (stats_ok_lengths st Hok) as (Hm & Hx & Hv & Hf).
  split_and!; [lia..|].
  destruct Hok as (_ & _ & _ & Hcol).
  apply Forall2_Forall_r with (Q := fun col => length col = 32) in Hcol;
    [done|].
  apply Forall_forall. by intros av _ col (Hl & _).
Qed.

Lemma run_rumors_output_shape_witness :
  exists avg var mx mn frag c',
    run_rumors counting by_parity 0 star3 1 5 4 ones3 2 true 1 1 0
    = Ok (avg, var, mx, mn, frag) c' /\
    length avg = 4 /\ length var = 4 /\ length mx = 4 /\ length mn = 4 /\
    length frag = 4 /\ Forall (fun col => length col = 32) frag.
Proof.
  destruct (star3_run_returns 4 2 true 1 1 0)
    as (st & liars & truths & c' & Hrun); [simpl; lia|].
  exists (avgH st), (varH st), (maxH st), (minH st), (opinion_frag st), c'.
  assert (run_rumors counting by_parity 0 star3 1 5 4 ones3 2 true 1 1 0
          = Ok (avgH st, varH st, maxH st, minH st, opinion_frag st) c')
    as Hrumors by (unfold run_rumors, bind; by rewrite Hrun).
  split; [done|].
  exact (run_rumors_output_shape _ _ _ _ _ _ _ _ _ _ _ _ _ _ _ _ _ _ _
                                 Hrumors).
Defined.

(** X10. In every round the recorded minimum, average and maximum of the
    node entropies are in this order, between 0 and 5 bits, and the
    recorded variance is not negative. *)
Theorem entropy_statistics_ordered rnd bernoulli init_person edges K Hmax
        num_rounds eta L mcr liarnum truthnum c avg var mx mn frag c' :
  run_rumors rnd bernoulli init_person edges K Hmax num_rounds eta L mcr
             liarnum truthnum c = Ok (avg, var, mx, mn, frag) c' ->
  forall t, t < num_rounds ->
    (0 <= mn !!! t <= avg !!! t)%R /\
    (avg !!! t <= mx !!! t <= 5)%R /\
    (0 <= var !!! t)%R.
Proof.
  intros Hrun t Ht.
  apply run_rumors_state in Hrun
    as (st & liars & truths & Hrun & -> & -> & -> & -> & ->).
  apply run_state_stats_ok in Hrun as [Hok Hlen].
  destruct (stats_ok_lengths st Hok) as (Hm & Hx & Hv & Hf).
  destruct Hok as (Hmin & Hmax' & Hvar & _).
  destruct (lookup_lt_is_Some_2 (avgH st) t ltac:(lia)) as [a Ha].
  destruct (lookup_lt_is_Some_2 (minH st) t ltac:(lia)) as [m Hm'].
  destruct (lookup_lt_is_Some_2 (maxH st) t ltac:(lia)) as [x Hx'].
  destruct (lookup_lt_is_Some_2 (varH st) t ltac:(lia)) as [v Hv'].
  rewrite (list_lookup_total_correct _ _ _ Ha),
    (list_lookup_total_correct _ _ _ Hm'),
    (list_lookup_total_correct _ _ _ Hx'),
    (list_lookup_total_correct _ _ _ Hv').
  split_and!.
  - by destruct (Forall2_lookup_lr _ _ _ _ _ _ Hmin Hm' Ha).
  - by destruct (Forall2_lookup_lr _ _ _ _ _ _ Hmin Hm' Ha).
  - by destruct (Forall2_lookup_lr _ _ _ _ _ _ Hmax' Ha Hx').
  - by destruct (Forall2_lookup_lr _ _ _ _ _ _ Hmax' Ha Hx').
  - exact (Forall2_lookup_lr _ _ _ _ _ _ Hvar Ha Hv').
Qed.

Lemma entropy_statistics_ordered_witness :
  exists avg var mx mn frag c',
    run_rumors counting by_parity 0 star3 1 5 4 ones3 2 true 1 1 0
    = Ok (avg, var, mx, mn, frag) c' /\
    forall t, t < 4 ->
      (0 <= mn !!! t <= avg !!! t)%R /\
      (avg !!! t <= mx !!! t <= 5)%R /\
      (0 <= var !!! t)%R.
Proof.
  destruct (star3_run_returns 4 2 true 1 1 0)
    as (st & liars & truths & c' & Hrun); [simpl; lia|].
  exists (avgH st), (varH st), (maxH st), (minH st), (opinion_frag st), c'.
  assert (run_rumors counting by_parity 0 star3 1 5 4 ones3 2 true 1 1 0
          = Ok (avgH st, varH st, maxH st, minH st, opinion_frag st) c')
    as Hrumors by (unfold run_rumors, bind; by rewrite Hrun).
  split; [done|].
  exact (entropy_statistics_ordered _ _ _ _ _ _ _ _ _ _ _ _ _ _ _ _ _ _ _
                                    Hrumors).
Defined.

(** X11. Every column of [opinion_frag] holds 32 fractions between 0 and 1
    whose sum is at most 1, and the column of the last round sums to the
    share of the nodes that hold a rumor when the run ends: every opinion
    counted is one of the 32 codes and falls in exactly one row. *)
Theorem opinion_fractions_sum rnd bernoulli init_person edges K Hmax
        num_rounds eta L mcr liarnum truthnum c st liars truths c' :
  run_state rnd bernoulli init_person edges K Hmax num_rounds eta L mcr
            liarnum truthnum c = Ok (st, liars, truths) c' ->
  length (opinion_frag st) = num_rounds /\
  (forall t, t < num_rounds ->
     (forall a, a < 32 -> (0 <= (opinion_frag st !!! t) !!! a <= 1)%R) /\
     (sumR (opinion_frag st !!! t) <= 1)%R) /\
  (0 < num_rounds ->
   sumR (opinion_frag st !!! (num_rounds - 1))
   = (INR (informed (length edges) st) / INR (length edges))%R).
Proof.
  intros Hrun.
  pose proof (run_state_stats_ok _ _ _ _ _ _ _ _ _ _ _ _ _ _ _ _ _ Hrun)
    as [Hok Hlen].
  destruct (stats_ok_lengths st Hok) as (_ & _ & _ & Hf).
  split_and!; [lia| |].
  - intros t Ht. destruct Hok as (_ & _ & _ & Hcol).
    destruct (lookup_lt_is_Some_2 (avgH st) t ltac:(lia)) as [a Ha].
    destruct (lookup_lt_is_Some_2 (opinion_frag st) t ltac:(lia))
      as [col Hc].
    rewrite (list_lookup_total_correct _ _ _ Hc).
    destruct (Forall2_lookup_lr _ _ _ _ _ _ Hcol Ha Hc) as (Hl & Hfr & Hs).
    split; [|done]. intros b Hb.
    destruct (lookup_lt_is_Some_2 col b ltac:(lia)) as [x Hx].
    rewrite (list_lookup_total_correct _ _ _ Hx).
    by apply (Forall_lookup_1 _ _ _ _ Hfr Hx).
  - intros Hpos. destruct num_rounds as [|k]; [lia|].
    apply last_round_column in Hrun as (col & Hlast & Hsum).
    rewrite last_lookup in Hlast.
    replace (S k - 1) with (pred (length (opinion_frag st))) by lia.
    by rewrite (list_lookup_total_correct _ _ _ Hlast).
Qed.

Lemma opinion_fractions_sum_witness :
  exists st liars truths c',
    run_state counting by_parity 0 star3 1 5 3 ones3 2 true 1 0 0
    = Ok (st, liars, truths) c' /\
    informed (length star3) st = 3 /\
    length (opinion_frag st) = 3 /\
    (forall t, t < 3 ->
       (forall a, a < 32 -> (0 <= (opinion_frag st !!! t) !!! a <= 1)%R) /\
       (sumR (opinion_frag st !!! t) <= 1)%R) /\
    (0 < 3 ->
     sumR (opinion_frag st !!! (3 - 1))
     = (INR (informed (length star3) st) / INR (length star3))%R).
Proof.
  eexists _, _, _, _. split; [vm_compute; reflexivity|].
  split; [vm_compute; reflexivity|].
  eapply (opinion_fractions_sum counting by_parity 0 star3 1 5 3 ones3 2
                                true 1 0 0).
  vm_compute; reflexivity.
Defined.

(** ** The generated graph is simple *)

Lemma seed_attempt_simple rnd m0 c e repeat c' :
  seed_attempt rnd m0 c = Ok (e, repeat) c' -> simple_graph m0 e.
Proof.
  intros Hrun.
  destruct (seed_attempt_spec rnd m0 c) as (e0 & r0 & Hatt & Hsq & Hsym & Hd & _).
  rewrite Hatt in Hrun. injection Hrun as <- <- <-.
  split_and!; [done|done| |done].
  intros i j. unfold seed_attempt in Hatt.
  destruct (rand_spec rnd m0 m0 c) as (q & Hq & Hlen & Hrows).
  unfold bind in Hatt. rewrite Hq in Hatt. apply ret_Ok in Hatt as [Hchk _].
  assert (square m0 q) as Hsqq by done.
  pose proof (symmetric_threshold_square m0 q Hsqq) as Hsq'.
  pose proof (symmetric_threshold_symmetric m0 q Hsqq) as Hsym'.
  pose proof (seed_check_prefix m0 m0 _ (le_n m0) Hsq' Hsym') as Hp.
  change (foldl _ _ _) with (seed_check m0 (symmetric_threshold q)) in Hp.
  rewrite Hchk in Hp.
  destruct Hp as (_ & _ & _ & Hat). rewrite Hat.
  case_decide; [lia|].
  destruct (decide (i < m0 /\ j < m0)) as [[Hi Hj]|Hout].
  - rewrite (symmetric_threshold_at2 m0 q i j Hsqq Hi Hj). case_match; lia.
  - rewrite (at2_outside m0) by (done || lia). vm_compute. lia.
Qed.

Lemma seed_phase_simple rnd fuel m0 c e c' :
  seed_phase rnd fuel m0 c = Ok e c' ->
  simple_graph m0 e /\ forall i, i < m0 -> 1 <= degree e i.
Proof.
  intros Hrun. apply seed_phase_spec in Hrun as (k & _ & _ & Hatt & _).
  split; [by eapply seed_attempt_simple|].
  destruct (seed_attempt_spec rnd m0 (c + k * (m0 * m0)))
    as (e0 & r0 & Hatt' & _ & _ & _ & Hdeg).
  rewrite Hatt in Hatt'. injection Hatt' as <- <- _. by apply Hdeg.
Qed.

(** The entries of the matrix with one more node. *)
Lemma add_node_entries n (e : matrix nat) (s : list nat) i j :
  square n e -> (forall k, k ∈ s -> k < n) -> i <= n -> j <= n ->
  at2 (add_node e s) i j
  = if decide (i < n /\ j < n) then at2 e i j
    else if decide (i = n /\ j = n) then 0
    else if decide (i `min` j ∈ s) then 1 else 0.
Proof.
  intros Hsq Hlt Hi Hj.
  destruct (new_col_spec n s Hlt) as (Hclen & Hclook & _).
  unfold add_node. pose proof Hsq as [Hlen Hrows]. rewrite Hlen.
  set (col := foldl _ (replicate n 0) s) in *.
  set (body := zip_with (fun row x => row ++ [x]) e col).
  assert (length body = n) as Hblen.
  { unfold body. rewrite length_zip_with_l_eq; lia. }
  assert (Hrow : forall i, i < n ->
            (body ++ [col ++ [0]]) !!! i = (e !!! i) ++ [col !!! i]).
  { intros i' Hi'. rewrite lookup_total_app_l by lia.
    apply list_lookup_total_correct. unfold body.
    rewrite lookup_zip_with.
    destruct (lookup_lt_is_Some_2 e i') as [r Hr]; [lia|].
    destruct (lookup_lt_is_Some_2 col i') as [x Hx]; [lia|].
    rewrite Hr, Hx. simpl.
    by rewrite (list_lookup_total_correct _ _ _ Hr),
               (list_lookup_total_correct _ _ _ Hx). }
  assert (Hlast : (body ++ [col ++ [0]]) !!! n = col ++ [0]).
  { rewrite lookup_total_app_r by lia. by rewrite Hblen, Nat.sub_diag. }
  assert (Hrlen : forall i, i < n -> length (e !!! i) = n).
  { intros i' Hi'. by apply (square_row n e i'). }
  unfold at2. destruct (decide (i = n)) as [->|Hne].
  - rewrite Hlast. rewrite decide_False by lia.
    destruct (decide (j = n)) as [->|Hnj].
    + rewrite decide_True by done.
      rewrite lookup_total_app_r by lia. by rewrite Hclen, Nat.sub_diag.
    + rewrite decide_False by lia.
      rewrite lookup_total_app_l by lia. rewrite Hclook by lia.
      by replace (n `min` j) with j by lia.
  - rewrite Hrow by lia. case_decide as Hd.
    + rewrite lookup_total_app_l; [done|]. rewrite Hrlen; lia.
    + assert (j = n) as -> by lia. rewrite decide_False by lia.
      rewrite lookup_total_app_r by (rewrite Hrlen; lia).
      rewrite Hrlen by lia. rewrite Nat.sub_diag. simpl.
      rewrite Hclook by lia. by replace (i `min` n) with i by lia.
Qed.

Lemma add_node_simple n (e : matrix nat) (s : list nat) :
  simple_graph n e -> NoDup s -> (forall k, k ∈ s -> k < n) ->
  simple_graph (S n) (add_node e s).
Proof.
  intros (Hsq & Hsym & Hbin & Hdiag) Hnd Hlt.
  destruct (add_node_spec n e s Hsq Hsym Hnd Hlt) as (Hsq' & Hsym' & _).
  split_and!; [done|done| |].
  - intros i j. destruct (decide (i <= n /\ j <= n)) as [[Hi Hj]|Hout].
    + rewrite (add_node_entries n) by done. repeat case_decide; auto.
    + rewrite (at2_outside (S n)) by (done || lia). vm_compute. lia.
  - intros i. destruct (decide (i <= n)) as [Hi|Hout].
    + rewrite (add_node_entries n) by done.
      repeat case_decide; auto. exfalso.
      assert (i < n) by (apply Hlt; by replace i with (i `min` i) by lia).
      lia.
    + rewrite (at2_outside (S n)) by (done || lia). done.
Qed.

Lemma grow_step_simple rnd m n (e : matrix nat) c e' c' :
  simple_graph n e -> grow_step rnd m e c = Ok e' c' ->
  simple_graph (S n) e' /\
  exists s, NoDup s /\ length s = m /\ (forall k, k ∈ s -> k < n) /\
            e' = add_node e s.
Proof.
  intros Hsimple Hrun. unfold grow_step in Hrun.
  apply bind_Ok in Hrun as (s & c1 & Hs & Hrun).
  apply ret_Ok in Hrun as [<- _].
  apply sample_weighted_spec in Hs as (Hnd & Hlen & Hlt).
  rewrite length_fmap, length_seq in Hlt.
  destruct Hsimple as (Hsq & Hrest). pose proof Hsq as [Hn _].
  rewrite Hn in Hlt.
  split; [by apply add_node_simple|]. by exists s.
Qed.

Lemma sum_list_fmap_ext {A} (f g : A -> nat) (l : list A) :
  (forall x, x ∈ l -> f x = g x) ->
  sum_list (f <$> l) = sum_list (g <$> l).
Proof.
  induction l as [|x l IH]; intros Hfg; [done|]. csimpl.
  rewrite (Hfg x) by left. rewrite IH; [done|].
  intros y Hy. apply Hfg. by right.
Qed.

Lemma sum_list_fmap_plus {A} (f g : A -> nat) (l : list A) :
  sum_list ((fun x => f x + g x) <$> l)
  = sum_list (f <$> l) + sum_list (g <$> l).
Proof. induction l as [|x l IH]; [done|]. csimpl. rewrite IH. lia. Qed.

Lemma sum_list_indicator (P : nat -> Prop) `{!forall x, Decision (P x)}
      (l : list nat) :
  sum_list ((fun i => if decide (P i) then 1 else 0) <$> l)
  = length (filter P l).
Proof.
  induction l as [|x l IH]; [done|]. csimpl. rewrite filter_cons, IH.
  by case_decide.
Qed.

Lemma count_members n (s : list nat) :
  NoDup s -> (forall k, k ∈ s -> k < n) ->
  sum_list ((fun i => if decide (i ∈ s) then 1 else 0) <$> seq 0 n)
  = length s.
Proof.
  intros Hnd Hlt. rewrite (sum_list_indicator (fun i => i ∈ s)).
  apply Permutation_length, NoDup_Permutation; [|done|].
  - apply NoDup_filter, NoDup_seq.
  - intros x. rewrite list_elem_of_filter, elem_of_seq.
    split; [by intros [? _]|]. intros Hx. split; [done|].
    specialize (Hlt x Hx). lia.
Qed.

(** A new node joined to [s] adds two to the degree sum for every
    node of [s]. *)
Lemma add_node_degree_sum n (e : matrix nat) (s : list nat) :
  square n e -> symmetric e -> NoDup s -> (forall k, k ∈ s -> k < n) ->
  degree_sum (add_node e s) = degree_sum e + 2 * length s.
Proof.
  intros Hsq Hsym Hnd Hlt.
  destruct (add_node_spec n e s Hsq Hsym Hnd Hlt)
    as ([Hlen' _] & _ & Hold & Hnew & _).
  pose proof Hsq as [Hlen _].
  unfold degree_sum. rewrite Hlen', Hlen, seq_S, fmap_app, sum_list_with_app.
  csimpl. rewrite Hnew.
  rewrite (sum_list_fmap_ext _
             (fun i => degree e i + (if decide (i ∈ s) then 1 else 0))).
  - rewrite sum_list_fmap_plus, count_members by done.
    change (fun i => degree e i) with (degree e). lia.
  - intros i Hi%elem_of_seq. apply Hold. lia.
Qed.

Lemma grow_loop_simple {I} rnd m (l : list I) (e : matrix nat) c e' c' :
  simple_graph (length e) e ->
  forM (fun _ e => grow_step rnd m e) l e c = Ok e' c' ->
  simple_graph (length e') e' /\
  length e' = length e + length l /\
  degree_sum e' = degree_sum e + 2 * m * length l.
Proof.
  revert e c. induction l as [|x l IH]; intros e c Hsimple Hrun.
  - apply ret_Ok in Hrun as [<- _]. split; [done|]. simpl. lia.
  - simpl in Hrun. apply bind_Ok in Hrun as (e1 & c1 & Hstep & Hrun).
    destruct (grow_step_simple rnd m _ e c e1 c1 Hsimple Hstep)
      as (Hsimple1 & s & Hnd & Hlen & Hlt & ->).
    pose proof Hsimple as (Hsq & Hsym & _).
    pose proof (add_node_degree_sum _ e s Hsq Hsym Hnd Hlt) as Hsum.
    pose proof Hsimple1 as ([Hlen1 _] & _).
    rewrite <- Hlen1 in Hsimple1.
    destruct (IH _ _ Hsimple1 Hrun) as (Hs' & Hl' & Hd').
    split; [done|]. simpl. split; [lia|]. rewrite Hd', Hsum. lia.
Qed.

Lemma generated_graph_simple rnd fuel beta T m0 m c eta edges c' :
  generate_new_graph rnd fuel beta T m0 m c = Ok (eta, edges) c' ->
  exists seed c1,
    seed_phase rnd fuel m0 c = Ok seed c1 /\
    simple_graph m0 seed /\ (forall i, i < m0 -> 1 <= degree seed i) /\
    length edges = m0 + T /\ simple_graph (m0 + T) edges /\
    degree_sum edges = degree_sum seed + 2 * m * T.
Proof.
  intros Hrun.
  apply generate_new_graph_phases in Hrun
    as (seed & c1 & c2 & Hseed & Hgrow & _).
  exists seed, c1. split; [done|].
  destruct (seed_phase_simple _ _ _ _ _ _ Hseed) as [Hsimple Hdeg].
  pose proof Hsimple as ([Hlen _] & _).
  rewrite <- Hlen in Hsimple at 1.
  destruct (grow_loop_simple _ _ _ _ _ _ _ Hsimple Hgrow)
    as (Hs' & Hl' & Hd').
  rewrite length_seq in Hl', Hd'. rewrite Hlen in Hl'. rewrite Hl' in Hs'.
  rewrite Hlen in Hsimple. done.
Qed.

(** ** Which parameters [generate_new_graph] accepts *)

Lemma filter_key_out (items : list (nat * Z)) x :
  NoDup items.*1 -> x ∈ items.*1 ->
  S (length (filter (fun kw : nat * Z => kw.1 <> x) items)) = length items /\
  NoDup (filter (fun kw : nat * Z => kw.1 <> x) items).*1 /\
  (Forall (fun kv => (0 < kv.2)%Z) items ->
   Forall (fun kv => (0 < kv.2)%Z)
          (filter (fun kw : nat * Z => kw.1 <> x) items)).
Proof.
  intros Hnd Hx. split_and!.
  - induction items as [|[k w] items IH]; [by apply elem_of_nil in Hx|].
    csimpl in *. apply NoDup_cons in Hnd as [Hk Hnd].
    rewrite filter_cons. simpl. destruct (decide (k = x)) as [->|Hne].
    + rewrite decide_False by auto. f_equal.
      clear IH Hx. induction items as [|[k' w'] items IH]; [done|].
      csimpl in *. apply not_elem_of_cons in Hk as [Hne Hk].
      apply NoDup_cons in Hnd as [_ Hnd].
      rewrite filter_cons. simpl. rewrite decide_True by auto.
      simpl. f_equal. by apply IH.
    + rewrite decide_True by done. simpl. f_equal.
      apply elem_of_cons in Hx as [->|Hx]; [done|]. by apply IH.
  - eapply sublist_NoDup; [exact Hnd|]. apply fmap_sublist, sublist_filter.
  - intros Hpos. apply Forall_forall. intros kv [_ Hin]%list_elem_of_filter.
    by apply (proj1 (Forall_forall _ _) Hpos).
Qed.

Lemma draw_distinct_weighted_total rnd m (items : list (nat * Z)) c :
  Forall (fun kv => (0 < kv.2)%Z) items -> NoDup items.*1 ->
  m <= length items ->
  exists s c', draw_distinct_weighted rnd m items c = Ok s c'.
Proof.
  revert items c. induction m as [|m IH]; intros items c Hpos Hnd Hlen.
  - by exists [], c.
  - destruct (choice_weighted_total rnd items c Hpos) as (x & Hx & Hin).
    { destruct items; [simpl in Hlen; lia|done]. }
    destruct (filter_key_out items x Hnd Hin) as (Hlen' & Hnd' & Hpos').
    destruct (IH (filter (fun kw : nat * Z => kw.1 <> x) items) (S c))
      as (s & c' & Hs); [by apply Hpos'|done|lia|].
    exists (x :: s), c'. simpl. unfold bind. by rewrite Hx, Hs.
Qed.

Lemma weighted_items_keys (prob : list nat) :
  (imap (fun k w => (k, Z.of_nat w)) prob).*1 = seq 0 (length prob).
Proof.
  rewrite fmap_imap.
  transitivity (imap (fun (j : nat) (_ : nat) => j) prob);
    [by apply imap_ext|].
  by rewrite (imap_seq_0 prob (fun k => k)), list_fmap_id.
Qed.

Lemma sample_weighted_total rnd m (prob : list nat) c :
  Forall (fun w => 1 <= w) prob -> prob <> [] -> m <= length prob ->
  exists s c', sample_weighted rnd m prob c = Ok s c'.
Proof.
  intros Hpos Hne Hlen. unfold sample_weighted.
  set (items := imap (fun k w => (k, Z.of_nat w)) prob).
  assert (Forall (fun kv : nat * Z => (0 < kv.2)%Z) items) as Hitems.
  { apply Forall_forall. intros [k w] Hin.
    apply list_elem_of_lookup in Hin as [i Hi]. unfold items in Hi.
    rewrite list_lookup_imap in Hi.
    destruct (prob !! i) as [w'|] eqn:Hw; [|done]. injection Hi as _ <-.
    apply (Forall_lookup_1 _ _ _ _ Hpos) in Hw. simpl. lia. }
  assert (filter (fun kw : nat * Z => (0 < kw.2)%Z) items = items) as Hfil.
  { clear -Hitems. induction Hitems as [|kv l Hkv _ IH]; [done|].
    rewrite filter_cons, decide_True by done. by rewrite IH. }
  destruct prob as [|w prob]; [done|].
  rewrite decide_False.
  2:{ apply Forall_cons in Hpos as [Hw _]. simpl. lia. }
  rewrite decide_False by lia. rewrite Hfil.
  rewrite decide_False by (unfold items; rewrite length_imap; lia).
  apply draw_distinct_weighted_total; [done| |].
  - unfold items. rewrite weighted_items_keys. apply NoDup_seq.
  - unfold items. by rewrite length_imap.
Qed.

Lemma sample_weighted_none rnd (prob : list nat) c :
  prob <> [] -> sum_list prob <> 0 -> sample_weighted rnd 0 prob c = Ok [] c.
Proof.
  intros Hne Hsum. unfold sample_weighted.
  destruct prob as [|w prob]; [done|].
  rewrite decide_False by done. rewrite decide_False by lia.
  by rewrite decide_False by lia.
Qed.

Lemma grow_step_total rnd m (e : matrix nat) c :
  (forall i, i < length e -> 1 <= degree e i) ->
  1 <= length e -> m <= length e ->
  exists e' c', grow_step rnd m e c = Ok e' c'.
Proof.
  intros Hdeg Hn Hm. unfold grow_step.
  destruct (sample_weighted_total rnd m
              ((fun i => degree e i) <$> seq 0 (length e)) c)
    as (s & c' & Hs).
  - apply Forall_fmap, Forall_forall. intros i Hi%elem_of_seq. simpl.
    apply Hdeg. lia.
  - destruct (length e); [lia|done].
  - by rewrite length_fmap, length_seq.
  - exists (add_node e s), c'. unfold bind. by rewrite Hs.
Qed.

Lemma grow_loop_total {I} rnd m (l : list I) (e : matrix nat) c :
  square (length e) e -> symmetric e ->
  (forall i, i < length e -> 1 <= degree e i) ->
  1 <= m <= length e ->
  exists e' c',
    forM (fun _ e => grow_step rnd m e) l e c = Ok e' c' /\
    forall i, i < length e' -> 1 <= degree e' i.
Proof.
  revert e c. induction l as [|x l IH]; intros e c Hsq Hsym Hdeg Hm.
  - by exists e, c.
  - destruct (grow_step_total rnd m e c Hdeg) as (e1 & c1 & Hstep);
      [lia|lia|].
    destruct (grow_step_spec rnd m _ e c e1 c1 Hsq Hsym Hstep)
      as (Hsq1 & Hsym1 & Hold & Hnew & _).
    pose proof Hsq1 as [Hlen1 _]. rewrite <- Hlen1 in Hsq1.
    destruct (IH e1 c1 Hsq1 Hsym1) as (e' & c' & Hrun & Hdeg').
    + intros i Hi. destruct (decide (i < length e)) as [Hlt|Hge].
      * specialize (Hold i Hlt). specialize (Hdeg i Hlt). lia.
      * assert (i = length e) as -> by lia. lia.
    + lia.
    + exists e', c'. simpl. unfold bind. by rewrite Hstep.
Qed.

Lemma forM_Ok_or_ValueError {A S} (f : A -> S -> M S) l s c :
  (forall x s c, (exists s' c', f x s c = Ok s' c')
                 \/ f x s c = Raise ValueError) ->
  (exists s' c', forM f l s c = Ok s' c') \/ forM f l s c = Raise ValueError.
Proof.
  intros Hf. revert s c. induction l as [|x l IH]; intros s c.
  - left. by exists s, c.
  - simpl. unfold bind. destruct (Hf x s c) as [(s1 & c1 & ->)| ->].
    + apply IH.
    + by right.
Qed.

(** The trust computation raises [ValueError] on a graph with an
    isolated node: [max] of an empty list. *)
Lemma generate_eta_isolated beta edges c i :
  i < length edges -> degree edges i = 0 ->
  generate_eta beta edges c = Raise ValueError.
Proof.
  intros Hi Hdeg.
  assert ((exists eta c', generate_eta beta edges c = Ok eta c')
          \/ generate_eta beta edges c = Raise ValueError) as [Hok|Hr].
  { unfold generate_eta. apply forM_Ok_or_ValueError.
    intros i0 eta0 c0. apply forM_Ok_or_ValueError.
    intros j eta1 c1. unfold bind, eta_entry.
    destruct (_ <$> neighbours edges i0); [by right|].
    left. by eexists _, _. }
  - destruct Hok as (eta & c' & Hok).
    apply generate_eta_spec in Hok as (_ & Hnb & _).
    apply Hnb, neighbours_degree in Hi. lia.
  - done.
Qed.

Lemma grow_loop_none {I} rnd (l : list I) (e : matrix nat) c :
  square (length e) e -> symmetric e ->
  1 <= length e -> 1 <= degree e 0 ->
  exists e' c',
    forM (fun _ e => grow_step rnd 0 e) l e c = Ok e' c' /\
    length e' = length e + length l /\
    (l <> [] -> exists i, i < length e' /\ degree e' i = 0).
Proof.
  revert e c. induction l as [|x l IH]; intros e c Hsq Hsym Hn Hdeg.
  - exists e, c. split; [done|]. split; [simpl; lia|done].
  - assert (grow_step rnd 0 e c = Ok (add_node e []) c) as Hstep.
    { unfold grow_step, bind. rewrite sample_weighted_none; [done| |].
      - destruct (length e); [lia|done].
      - pose proof (sum_list_lookup_le
                      ((fun i => degree e i) <$> seq 0 (length e)) 0) as Hle.
        assert (((fun i => degree e i) <$> seq 0 (length e)) !!! 0
                = degree e 0) as Hl0.
        { apply list_lookup_total_correct.
          rewrite list_lookup_fmap, lookup_seq_lt by lia. done. }
        rewrite Hl0 in Hle. lia. }
    destruct (grow_step_spec rnd 0 _ e c _ c Hsq Hsym Hstep)
      as (Hsq1 & Hsym1 & Hold & Hnew & _).
    pose proof Hsq1 as [Hlen1 _]. rewrite <- Hlen1 in Hsq1.
    destruct (IH (add_node e []) c Hsq1 Hsym1) as (e' & c' & Hrun & Hlen' & Hiso).
    + lia.
    + specialize (Hold 0 ltac:(lia)). lia.
    + exists e', c'. simpl. unfold bind. rewrite Hstep.
      split; [done|]. split; [simpl; lia|]. intros _.
      destruct l as [|y l]; [|by apply Hiso].
      apply ret_Ok in Hrun as [<- _]. exists (length e). split; [lia|done].
Qed.

Lemma seed_phase_length rnd fuel m0 c seed c1 :
  seed_phase rnd fuel m0 c = Ok seed c1 ->
  square m0 seed /\ symmetric seed /\ length seed = m0 /\
  forall i, i < m0 -> 1 <= degree seed i.
Proof.
  intros Hseed.
  destruct (seed_phase_simple _ _ _ _ _ _ Hseed) as [(Hsq & Hsym & _) Hdeg].
  pose proof Hsq as [Hlen _]. done.
Qed.

Lemma generate_new_graph_total rnd fuel beta T m0 m c seed c1 :
  seed_phase rnd fuel m0 c = Ok seed c1 ->
  T = 0 \/ 1 <= m <= m0 ->
  exists eta edges c', generate_new_graph rnd fuel beta T m0 m c
                       = Ok (eta, edges) c'.
Proof.
  intros Hseed Hok.
  destruct (seed_phase_length _ _ _ _ _ _ Hseed) as (Hsq & Hsym & Hlen & Hdeg).
  unfold generate_new_graph. unfold bind at 1. rewrite Hseed.
  assert (exists edges c2,
    forM (fun _ e => grow_step rnd m e) (seq 0 T) seed c1 = Ok edges c2 /\
    forall i, i < length edges -> 1 <= degree edges i)
    as (edges & c2 & Hgrow & Hdeg').
  { destruct Hok as [-> |Hm].
    - exists seed, c1. split; [done|]. by rewrite Hlen.
    - apply grow_loop_total; rewrite ?Hlen; done. }
  unfold bind at 1. rewrite Hgrow.
  destruct (generate_eta_total beta edges c2 Hdeg') as (eta & c' & Heta).
  unfold bind. rewrite Heta. by eexists _, _, _.
Qed.

Lemma generate_new_graph_no_attachment rnd fuel beta T m0 c seed c1 :
  seed_phase rnd fuel m0 c = Ok seed c1 -> 0 < T -> 0 < m0 ->
  generate_new_graph rnd fuel beta T m0 0 c = Raise ValueError.
Proof.
  intros Hseed HT Hm0.
  destruct (seed_phase_length _ _ _ _ _ _ Hseed) as (Hsq & Hsym & Hlen & Hdeg).
  rewrite <- Hlen in Hsq.
  destruct (grow_loop_none rnd (seq 0 T) seed c1 Hsq Hsym)
    as (edges & c2 & Hgrow & _ & Hiso); [lia|apply Hdeg; lia|].
  destruct Hiso as (i & Hi & Hzero); [by destruct T; [lia|]|].
  unfold generate_new_graph, bind. rewrite Hseed, Hgrow.
  by rewrite (generate_eta_isolated beta edges c2 i).
Qed.

Lemma generate_new_graph_empty_seed rnd fuel beta T m c seed c1 :
  seed_phase rnd fuel 0 c = Ok seed c1 -> 0 < T ->
  generate_new_graph rnd fuel beta T 0 m c = Raise TypeError.
Proof.
  intros Hseed HT.
  destruct (seed_phase_length _ _ _ _ _ _ Hseed) as (_ & _ & Hlen & _).
  destruct seed; [|done].
  unfold generate_new_graph, bind. rewrite Hseed.
  destruct T as [|T]; [lia|]. done.
Qed.

(** With seed size 1 every pass of the seed loop is rejected: the loop
    never ends.  With seed size 0 the first pass is accepted without a
    draw. *)
Lemma seed_phase_single rnd fuel c : seed_phase rnd fuel 1 c = Spin.
Proof.
  revert c. induction fuel as [|fuel IH]; intros c; [done|].
  assert (seed_attempt rnd 1 c = Ok ([[0]], true) (S c)) as He.
  { unfold seed_attempt, bind. simpl. unfold bind, draw, ret. simpl.
    unfold seed_check, symmetric_threshold. simpl. done. }
  simpl. unfold bind. by rewrite He.
Qed.

Lemma seed_phase_none rnd fuel c : seed_phase rnd (S fuel) 0 c = Ok [] c.
Proof. done. Qed.

(** ** [generate_graph] *)

Lemma add_nbr_elem v nbrs x : x ∈ add_nbr v nbrs <-> x ∈ nbrs \/ x = v.
Proof.
  unfold add_nbr. case_decide as Hin.
  - split; [by left|]. by intros [?| ->].
  - rewrite elem_of_app, list_elem_of_singleton. done.
Qed.

Lemma add_nbr_NoDup v nbrs : NoDup nbrs -> NoDup (add_nbr v nbrs).
Proof.
  intros Hnd. unfold add_nbr. case_decide as Hin; [done|].
  apply NoDup_app. split_and!; [done| |apply NoDup_singleton].
  intros x Hx ->%list_elem_of_singleton. done.
Qed.

Lemma add_edge_spec n u v G :
  length (adj G) = n -> u < n -> v < n ->
  length (adj (add_edge u v G)) = n /\
  (forall a b, b ∈ adj (add_edge u v G) !!! a
               <-> b ∈ adj G !!! a \/ (a = u /\ b = v) \/ (a = v /\ b = u)) /\
  ((forall a, NoDup (adj G !!! a)) ->
   forall a, NoDup (adj (add_edge u v G) !!! a)).
Proof.
  intros Hlen Hu Hv. unfold add_edge. simpl. split_and!.
  - by rewrite !length_alter.
  - intros a b. rewrite !list_lookup_total_alter, !length_alter.
    repeat case_decide; rewrite ?add_nbr_elem; naive_solver lia.
  - intros Hnd a. rewrite !list_lookup_total_alter, !length_alter.
    repeat case_decide; repeat apply add_nbr_NoDup; done.
Qed.

Lemma generate_graph_row n edges i len j G c :
  square n edges -> i <= j -> j + len <= n ->
  graph_upto n edges i j G ->
  exists G',
    forM (fun j G =>
            do x <- entry edges i j;
            ret (if decide (x = 1) then add_edge i j G else G))
         (seq j len) G c = Ok G' c /\
    graph_upto n edges i (j + len) G'.
Proof.
  intros Hsq. revert j G. induction len as [|len IH]; intros j G Hij Hjn Hinv.
  - exists G. split; [done|]. by rewrite Nat.add_0_r.
  - cbn [seq forM]. unfold bind at 1. unfold bind at 1.
    rewrite (entry_square n) by (done || lia). unfold ret at 1.
    destruct (IH (S j) (if decide (at2 edges i j = 1)
                        then add_edge i j G else G)) as (G' & Hrun & Hinv');
      [lia|lia| |].
    + destruct Hinv as (Hlen & Hnd & Hadj).
      case_decide as Hone.
      * destruct (add_edge_spec n i j G Hlen) as (Hlen' & Hadj' & Hnd');
          [lia|lia|].
        split_and!; [done|by apply Hnd'|].
        intros a b. rewrite Hadj', Hadj. split.
        -- intros [(Ha & Hb & Hab & Hp)|[[-> ->]|[-> ->]]].
           ++ split_and!; [done|done|done|lia].
           ++ replace (i `min` j) with i by lia.
              replace (i `max` j) with j by lia.
              split_and!; [lia|lia|done|lia].
           ++ replace (j `min` i) with i by lia.
              replace (j `max` i) with j by lia.
              split_and!; [lia|lia|done|lia].
        -- intros (Ha & Hb & Hab & Hp).
           destruct (decide (a `min` b = i /\ a `max` b = j)) as [[? ?]|Hne].
           ++ right. lia.
           ++ left. split_and!; [done|done|done|lia].
      * split_and!; [done|done|].
        intros a b. rewrite Hadj. split.
        -- intros (Ha & Hb & Hab & Hp). split_and!; [done|done|done|lia].
        -- intros (Ha & Hb & Hab & Hp). split_and!; [done|done|done|].
           destruct (decide (a `min` b = i /\ a `max` b = j)) as [[Hmin Hmax]|Hne];
             [|lia].
           rewrite Hmin, Hmax in Hab. done.
    + exists G'. split; [done|]. by replace (j + S len) with (S j + len) by lia.
Qed.

Lemma generate_graph_rows n edges len i G c :
  square n edges -> i + len <= n ->
  graph_upto n edges i i G ->
  exists G',
    forM (fun i G =>
            forM (fun j G =>
                    do x <- entry edges i j;
                    ret (if decide (x = 1) then add_edge i j G else G))
                 (seq i (n - i)) G)
         (seq i len) G c = Ok G' c /\
    graph_upto n edges (i + len) (i + len) G'.
Proof.
  intros Hsq. revert i G. induction len as [|len IH]; intros i G Hin Hinv.
  - exists G. split; [done|]. by rewrite Nat.add_0_r.
  - cbn [seq forM]. unfold bind at 1.
    destruct (generate_graph_row n edges i (n - i) i G c Hsq)
      as (G1 & Hrow & Hinv1); [lia|lia|done|].
    rewrite Hrow.
    destruct (IH (S i) G1) as (G' & Hrun & Hinv'); [lia| |].
    + destruct Hinv1 as (Hlen & Hnd & Hadj).
      split_and!; [done|done|].
      intros a b. rewrite Hadj. split.
      * intros (Ha & Hb & Hab & Hp). split_and!; [done|done|done|lia].
      * intros (Ha & Hb & Hab & Hp). split_and!; [done|done|done|lia].
    + exists G'. split; [done|]. by replace (i + S len) with (S i + len) by lia.
Qed.

(** On a square matrix [generate_graph] returns, drawing nothing, the
    graph whose edges are the pairs with a 1 on or above the diagonal. *)
Lemma generate_graph_spec n edges c :
  square n edges ->
  exists G,
    generate_graph edges c = Ok G c /\
    length (adj G) = n /\
    (forall a, NoDup (adj G !!! a)) /\
    (forall a b, b ∈ adj G !!! a <->
                 a < n /\ b < n /\ at2 edges (a `min` b) (a `max` b) = 1).
Proof.
  intros Hsq. pose proof Hsq as [Hlen _]. unfold generate_graph.
  rewrite Hlen.
  destruct (generate_graph_rows n edges n 0 (empty_graph n) c Hsq)
    as (G & Hrun & Hlen' & Hnd & Hadj); [lia| |].
  - split_and!.
    + simpl. by rewrite length_replicate.
    + intros a. simpl. destruct (decide (a < n)) as [Ha|Ha].
      * rewrite lookup_total_replicate_2 by done. constructor.
      * rewrite list_lookup_total_alt, lookup_ge_None_2
          by (rewrite length_replicate; lia).
        constructor. 
    + intros a b. simpl. split; [|lia].
      destruct (decide (a < n)) as [Ha|Ha].
      * rewrite lookup_total_replicate_2 by done. by intros ?%elem_of_nil.
      * rewrite list_lookup_total_alt, lookup_ge_None_2
          by (rewrite length_replicate; lia).
        by intros ?%elem_of_nil.
  - exists G. split; [done|]. split; [done|]. split; [done|].
    intros a b. rewrite Hadj. split.
    + intros (Ha & Hb & Hab & _). done.
    + intros (Ha & Hb & Hab). split_and!; [done|done|done|lia].
Qed.

Lemma row_rebuild (row : list nat) :
  (fun k => row !!! k) <$> seq 0 (length row) = row.
Proof.
  apply list_eq. intros i. rewrite list_lookup_fmap.
  destruct (decide (i < length row)) as [Hi|Hi].
  - rewrite lookup_seq_lt by done. simpl.
    destruct (lookup_lt_is_Some_2 row i Hi) as [x Hx].
    by rewrite Hx, (list_lookup_total_correct _ _ _ Hx).
  - rewrite lookup_seq_ge by lia. simpl.
    by rewrite lookup_ge_None_2 by lia.
Qed.

Lemma binary_row_sum (row : list nat) :
  (forall k, row !!! k <= 1) -> sum_list row = length (flatnonzero row).
Proof.
  intros Hbin. unfold flatnonzero.
  rewrite <- (sum_list_indicator (fun k => row !!! k <> 0)).
  rewrite <- (row_rebuild row) at 1.
  apply sum_list_fmap_ext. intros k _. specialize (Hbin k).
  case_decide; lia.
Qed.

Lemma simple_graph_degree n edges i :
  simple_graph n edges -> degree edges i = length (neighbours edges i).
Proof.
  intros (_ & _ & Hbin & _). unfold degree, neighbours.
  apply binary_row_sum. intros k. apply (Hbin i k).
Qed.

Lemma simple_graph_neighbours n edges i b :
  simple_graph n edges -> i < n ->
  b ∈ neighbours edges i <-> b < n /\ at2 edges i b = 1.
Proof.
  intros (Hsq & _ & Hbin & _) Hi. unfold neighbours.
  rewrite flatnonzero_elem, (square_row n) by done.
  specialize (Hbin i b). unfold at2 in *. lia.
Qed.

Lemma simple_graph_degree_le n edges i :
  simple_graph n edges -> i < n -> degree edges i <= n - 1.
Proof.
  intros Hsimple Hi. rewrite (simple_graph_degree n) by done.
  pose proof Hsimple as (_ & _ & _ & Hdiag).
  assert (neighbours edges i ⊆+ filter (fun x => x ∉ [i]) (seq 0 n)) as Hsub.
  { apply NoDup_submseteq; [apply NoDup_filter, NoDup_seq|].
    intros b Hb. apply (simple_graph_neighbours n) in Hb as [Hb Hone];
      [|done..].
    apply list_elem_of_filter. split; [|apply elem_of_seq; lia].
    intros ->%list_elem_of_singleton. rewrite Hdiag in Hone. done. }
  apply submseteq_length in Hsub.
  pose proof (filter_complement_length (seq 0 n) [i] (NoDup_seq 0 n)
                (NoDup_singleton _)) as Hc.
  rewrite length_seq in Hc. simpl in Hc.
  assert (length (filter (fun x => x ∉ [i]) (seq 0 n)) + 1 = n); [|lia].
  apply Hc. intros x ->%list_elem_of_singleton. apply elem_of_seq. lia.
Qed.

(** With [beta = 0] every power of a degree is 1. *)
Lemma dpow_zero d : dpow 0 d = 1%R.
Proof. unfold dpow, Rpower. rewrite Rmult_0_l. apply exp_0. Qed.

Lemma trust_uniform edges i j :
  neighbours edges i <> [] -> trust 0 edges i j = 1%R.
Proof.
  intros Hne. unfold trust.
  destruct (max_neighbour_trust_spec 0 edges i Hne) as [(k & _ & ->) _].
  rewrite !dpow_zero. lra.
Qed.

(** For [beta >= 0] trust grows with the degree of the trusted node. *)
Lemma trust_mono beta edges i j j' :
  (0 <= beta)%R -> neighbours edges i <> [] ->
  1 <= degree edges j <= degree edges j' ->
  (trust beta edges i j <= trust beta edges i j')%R.
Proof.
  intros Hbeta Hne [Hj Hjj']. unfold trust.
  destruct (max_neighbour_trust_spec beta edges i Hne) as [(k & _ & ->) _].
  pose proof (dpow_pos beta (degree edges k)) as Hk.
  apply Rmult_le_compat_r; [left; by apply Rinv_0_lt_compat|].
  unfold dpow. apply Rle_Rpower_l; [done|].
  split; [apply lt_0_INR; lia|by apply le_INR].
Qed.

(** ** The graph handed to the plots *)

(** X12. On a square matrix [generate_graph] returns without drawing.  The
    graph has one node per row, no node is listed twice among the
    neighbours of a node, and [b] is a neighbour of [a] exactly when the
    entry of the pair on or above the diagonal is 1: entries below the
    diagonal are never read, so adjacency in the graph is symmetric
    even when the matrix is not. *)
Theorem generate_graph_reads_upper_triangle n edges c :
  square n edges ->
  exists G,
    generate_graph edges c = Ok G c /\
    length (adj G) = n /\
    (forall a, NoDup (adj G !!! a)) /\
    (forall a b, b ∈ adj G !!! a <->
                 a < n /\ b < n /\ at2 edges (a `min` b) (a `max` b) = 1) /\
    (forall a b, b ∈ adj G !!! a <-> a ∈ adj G !!! b).
Proof.
  intros Hsq. destruct (generate_graph_spec n edges c Hsq)
    as (G & Hrun & Hlen & Hnd & Hadj).
  exists G. split_and!; [done..|].
  intros a b. rewrite !Hadj, (Nat.min_comm b a), (Nat.max_comm b a).
  tauto.
Qed.

Lemma generate_graph_reads_upper_triangle_witness :
  square 3 [[0; 1; 1]; [0; 0; 0]; [1; 1; 0]] /\
  generate_graph [[0; 1; 1]; [0; 0; 0]; [1; 1; 0]] 4
  = Ok (Graph [[1; 2]; [0]; [0]]) 4 /\
  exists G,
    generate_graph [[0; 1; 1]; [0; 0; 0]; [1; 1; 0]] 4 = Ok G 4 /\
    length (adj G) = 3 /\
    (forall a, NoDup (adj G !!! a)) /\
    (forall a b,
       b ∈ adj G !!! a <->
       a < 3 /\ b < 3 /\
       at2 [[0; 1; 1]; [0; 0; 0]; [1; 1; 0]] (a `min` b) (a `max` b) = 1) /\
    (forall a b, b ∈ adj G !!! a <-> a ∈ adj G !!! b).
Proof.
  assert (square 3 [[0; 1; 1]; [0; 0; 0]; [1; 1; 0]]) as Hsq.
  { split; [reflexivity|]. intros [|[|[|i]]] row [= <-]; reflexivity. }
  split; [done|]. split; [reflexivity|].
  apply (generate_graph_reads_upper_triangle 3 _ 4 Hsq).
Defined.

(** X13. The graph built from the matrix [generate_new_graph] returns is the
    graph the simulation runs on: the neighbours of a node are the
    nodes [run_rumors] offers its rumor to (the nonzero entries of its
    row), their number is the degree used for attachment and trust, and
    no node is its own neighbour. *)
Theorem plotted_graph_is_simulated_graph rnd fuel beta T m0 m c eta edges c' k :
  generate_new_graph rnd fuel beta T m0 m c = Ok (eta, edges) c' ->
  exists G,
    generate_graph edges k = Ok G k /\
    length (adj G) = length edges /\
    forall i, i < length edges ->
      adj G !!! i ≡ₚ flatnonzero (edges !!! i) /\
      length (adj G !!! i) = degree edges i /\
      1 <= length (adj G !!! i) /\
      i ∉ adj G !!! i.
Proof.
  intros Hrun.
  pose proof (generated_graph_simple _ _ _ _ _ _ _ _ _ _ Hrun)
    as (seed & c1 & _ & _ & _ & Hlen & Hsimple & _).
  apply generate_new_graph_phases in Hrun
    as (seed' & c1' & c2 & Hseed & Hgrow & Heta).
  apply generate_eta_spec in Heta as (_ & Hnb & _).
  rewrite <- Hlen in Hsimple.
  pose proof Hsimple as (Hsq & Hsym & Hbin & Hdiag).
  destruct (generate_graph_spec _ edges k Hsq)
    as (G & HG & HlenG & Hnd & Hadj).
  exists G. split; [done|]. split; [done|]. intros i Hi.
  assert (adj G !!! i ≡ₚ flatnonzero (edges !!! i)) as Hperm.
  { apply NoDup_Permutation; [done|apply NoDup_filter, NoDup_seq|].
    intros b. change (flatnonzero (edges !!! i)) with (neighbours edges i).
    rewrite (simple_graph_neighbours _ edges i b Hsimple Hi), Hadj.
    assert (at2 edges (i `min` b) (i `max` b) = at2 edges i b) as ->.
    { destruct (Nat.le_ge_cases i b).
      - by rewrite Nat.min_l, Nat.max_r.
      - rewrite Nat.min_r, Nat.max_l by done. apply Hsym. }
    naive_solver. }
  split_and!.
  - done.
  - rewrite Hperm.
    by rewrite (simple_graph_degree _ edges i Hsimple).
  - rewrite Hperm. specialize (Hnb i Hi).
    change (flatnonzero (edges !!! i)) with (neighbours edges i).
    destruct (neighbours edges i); [done|simpl; lia].
  - rewrite Hadj. intros (_ & _ & Hone).
    rewrite Nat.min_id, Nat.max_id, Hdiag in Hone. done.
Qed.

Lemma plotted_graph_is_simulated_graph_witness :
  exists eta edges c',
    generate_new_graph (from_list retry_draws) 3 1 2 5 2 0
    = Ok (eta, edges) c' /\
    generate_graph edges 0
    = Ok (Graph [[1; 5; 6]; [0; 2; 5; 6]; [1; 3]; [2; 4]; [3]; [0; 1];
                 [0; 1]]) 0 /\
    exists G,
      generate_graph edges 0 = Ok G 0 /\
      length (adj G) = length edges /\
      forall i, i < length edges ->
        adj G !!! i ≡ₚ flatnonzero (edges !!! i) /\
        length (adj G !!! i) = degree edges i /\
        1 <= length (adj G !!! i) /\
        i ∉ adj G !!! i.
Proof.
  eexists _, _, _. split; [vm_compute; reflexivity|].
  split; [vm_compute; reflexivity|].
  eapply (plotted_graph_is_simulated_graph (from_list retry_draws) 3 1 2 5 2
                                           0).
  vm_compute; reflexivity.
Defined.

(** ** The generator *)

(** X14. The matrix returned by [generate_new_graph] is the adjacency matrix
    of a simple graph on [m0 + T] nodes: square, symmetric, with entries
    0 or 1 and an empty diagonal; every degree lies between 1 and the
    number of the other nodes. *)
Theorem generated_graph_is_simple rnd fuel beta T m0 m c eta edges c' :
  generate_new_graph rnd fuel beta T m0 m c = Ok (eta, edges) c' ->
  length edges = m0 + T /\
  square (m0 + T) edges /\
  (forall i j, at2 edges i j = at2 edges j i) /\
  (forall i j, at2 edges i j = 0 \/ at2 edges i j = 1) /\
  (forall i, at2 edges i i = 0) /\
  (forall i, i < m0 + T -> 1 <= degree edges i <= m0 + T - 1).
Proof.
  intros Hrun.
  pose proof (generated_graph_simple _ _ _ _ _ _ _ _ _ _ Hrun)
    as (seed & c1 & _ & _ & _ & Hlen & Hsimple & _).
  pose proof Hsimple as (Hsq & Hsym & Hbin & Hdiag).
  apply generate_new_graph_phases in Hrun
    as (seed' & c1' & c2 & Hseed & Hgrow & Heta).
  apply generate_eta_spec in Heta as (_ & Hnb & _).
  split_and!; [done|done|done| |done|].
  - intros i j. specialize (Hbin i j). lia.
  - intros i Hi. split.
    + apply neighbours_degree, Hnb. lia.
    + by apply (simple_graph_degree_le (m0 + T)).
Qed.

Lemma generated_graph_is_simple_witness :
  exists eta edges c',
    generate_new_graph (from_list retry_draws) 3 1 2 5 2 0
    = Ok (eta, edges) c' /\
    length edges = 5 + 2 /\
    square (5 + 2) edges /\
    (forall i j, at2 edges i j = at2 edges j i) /\
    (forall i j, at2 edges i j = 0 \/ at2 edges i j = 1) /\
    (forall i, at2 edges i i = 0) /\
    (forall i, i < 5 + 2 -> 1 <= degree edges i <= 5 + 2 - 1).
Proof.
  eexists _, _, _. split; [vm_compute; reflexivity|].
  eapply (generated_graph_is_simple (from_list retry_draws) 3 1 2 5 2 0).
  vm_compute; reflexivity.
Defined.

(** X15. Every growth step adds [m] edges: the degrees of the returned graph
    sum to the degree sum of the accepted seed graph plus [2 * m * T]. *)
Theorem growth_adds_m_edges_per_step rnd fuel beta T m0 m c eta edges c' :
  generate_new_graph rnd fuel beta T m0 m c = Ok (eta, edges) c' ->
  exists seed c1,
    seed_phase rnd fuel m0 c = Ok seed c1 /\
    degree_sum edges = degree_sum seed + 2 * m * T /\
    m0 <= degree_sum seed <= m0 * (m0 - 1).
Proof.
  intros Hrun.
  pose proof (generated_graph_simple _ _ _ _ _ _ _ _ _ _ Hrun)
    as (seed & c1 & Hseed & Hsimple & Hdeg & _ & _ & Hsum).
  exists seed, c1. split; [done|]. split; [done|].
  pose proof Hsimple as ([Hlen _] & _).
  unfold degree_sum. rewrite Hlen.
  assert (forall k, k <= m0 ->
            k <= sum_list ((fun i => degree seed i) <$> seq 0 k)
            <= k * (m0 - 1)) as Hk; [|by apply Hk].
  induction k as [|k IH]; intros Hle; [simpl; lia|].
  rewrite seq_S, fmap_app, sum_list_with_app. csimpl.
  specialize (IH ltac:(lia)). specialize (Hdeg k ltac:(lia)).
  pose proof (simple_graph_degree_le m0 seed k Hsimple ltac:(lia)). lia.
Qed.

Lemma growth_adds_m_edges_per_step_witness :
  exists eta edges c',
    generate_new_graph (from_list retry_draws) 3 1 2 5 2 0
    = Ok (eta, edges) c' /\
    degree_sum edges = 16 /\
    exists seed c1,
      seed_phase (from_list retry_draws) 3 5 0 = Ok seed c1 /\
      degree_sum edges = degree_sum seed + 2 * 2 * 2 /\
      5 <= degree_sum seed <= 5 * (5 - 1).
Proof.
  eexists _, _, _. split; [vm_compute; reflexivity|].
  split; [vm_compute; reflexivity|].
  eapply (growth_adds_m_edges_per_step (from_list retry_draws) 3 1 2 5 2 0).
  vm_compute; reflexivity.
Defined.

(** X16. With [beta = 0] trust is uniform: every entry of the returned trust
    matrix is 1. *)
Theorem zero_beta_gives_uniform_trust rnd fuel T m0 m c eta edges c' :
  generate_new_graph rnd fuel 0 T m0 m c = Ok (eta, edges) c' ->
  forall i j, i < length edges -> j < length edges -> at2 eta i j = 1%R.
Proof.
  intros Hrun i j Hi Hj.
  apply generated_eta_spec in Hrun as (_ & _ & Hnb & Heta).
  rewrite Heta by done. apply trust_uniform, Hnb. lia.
Qed.

Lemma zero_beta_gives_uniform_trust_witness :
  exists eta edges c',
    generate_new_graph (from_list retry_draws) 3 0 2 5 2 0
    = Ok (eta, edges) c' /\
    length edges = 7 /\
    forall i j, i < length edges -> j < length edges -> at2 eta i j = 1%R.
Proof.
  eexists _, _, _. split; [vm_compute; reflexivity|].
  split; [reflexivity|].
  eapply (zero_beta_gives_uniform_trust (from_list retry_draws) 3 2 5 2 0).
  vm_compute; reflexivity.
Defined.

(** X17. For [beta >= 0] a node trusts a better connected node at least as
    much: in the row of [i], at and after the diagonal, the entries of
    the trust matrix grow with the degree of the column. *)
Theorem trust_grows_with_degree rnd fuel beta T m0 m c eta edges c' :
  generate_new_graph rnd fuel beta T m0 m c = Ok (eta, edges) c' ->
  (0 <= beta)%R ->
  forall i j j', i <= j -> i <= j' -> j < length edges -> j' < length edges ->
    degree edges j <= degree edges j' ->
    (at2 eta i j <= at2 eta i j')%R.
Proof.
  intros Hrun Hbeta i j j' Hij Hij' Hj Hj' Hdeg.
  apply generated_eta_spec in Hrun as (_ & _ & Hnb & Heta).
  rewrite !Heta by lia.
  rewrite !Nat.min_l, !Nat.max_r by lia.
  apply trust_mono; [done|apply Hnb; lia|].
  split; [|done]. apply neighbours_degree, Hnb. lia.
Qed.

Lemma trust_grows_with_degree_witness :
  exists eta edges c',
    generate_new_graph (from_list path_draws) 3 2 0 5 2 0
    = Ok (eta, edges) c' /\
    edges = path5 /\
    ((0 <= 2)%R /\ 0 <= 4 /\ 0 <= 1 /\ 4 < length edges /\ 1 < length edges /\
     degree edges 4 <= degree edges 1) /\
    (at2 eta 0 4 <= at2 eta 0 1)%R.
Proof.
  eexists _, _, _. split; [vm_compute; reflexivity|].
  split; [reflexivity|].
  split; [split_and!; [lra|lia|lia|simpl; lia|simpl; lia|vm_compute; lia]|].
  eapply (trust_grows_with_degree (from_list path_draws) 3 2 0 5 2 0);
    [vm_compute; reflexivity|lra|lia|lia|simpl; lia|simpl; lia|
     vm_compute; lia].
Defined.

(** X18. Once the seed loop has ended, [generate_new_graph] returns exactly
    when there is no growth step or the attach count lies between 1 and
    the seed size.  Otherwise it raises: [TypeError] for an empty seed
    graph (a list divided by an integer), [ValueError] for an attach
    count above the seed size (the first sample is too large) and for an
    attach count of 0 (the isolated new node has no neighbour to take the
    largest trust from). *)
Theorem generate_new_graph_accepts rnd fuel beta T m0 m c seed c1 :
  seed_phase rnd fuel m0 c = Ok seed c1 ->
  ((exists eta edges c',
      generate_new_graph rnd fuel beta T m0 m c = Ok (eta, edges) c')
   <-> T = 0 \/ 1 <= m <= m0) /\
  (0 < T -> m0 = 0 ->
   generate_new_graph rnd fuel beta T m0 m c = Raise TypeError) /\
  (0 < T -> 0 < m0 -> m = 0 \/ m0 < m ->
   generate_new_graph rnd fuel beta T m0 m c = Raise ValueError).
Proof.
  intros Hseed.
  assert (0 < T -> m0 = 0 ->
          generate_new_graph rnd fuel beta T m0 m c = Raise TypeError)
    as Hempty.
  { intros HT ->. by eapply generate_new_graph_empty_seed. }
  assert (0 < T -> 0 < m0 -> m = 0 \/ m0 < m ->
          generate_new_graph rnd fuel beta T m0 m c = Raise ValueError)
    as Hbad.
  { intros HT Hm0 [-> |Hm].
    - by eapply generate_new_graph_no_attachment.
    - destruct (seed_phase_length _ _ _ _ _ _ Hseed) as (_ & _ & Hlen & _).
      unfold generate_new_graph. unfold bind at 1. rewrite Hseed.
      unfold bind at 1. destruct T as [|T]; [lia|]. simpl.
      unfold bind at 1. rewrite grow_step_too_many; [done|lia]. }
  split_and!; [|done|done].
  split.
  - intros (eta & edges & c' & Hrun).
    destruct (decide (T = 0)) as [|HT]; [by left|]. right.
    destruct (decide (m0 = 0)) as [Hz|Hz].
    { rewrite Hempty in Hrun by lia. done. }
    destruct (decide (1 <= m <= m0)) as [|Hm]; [done|].
    rewrite Hbad in Hrun by lia. done.
  - intros Hok. by eapply generate_new_graph_total.
Qed.

Lemma generate_new_graph_accepts_witness :
  seed_phase (from_list path_draws) 3 5 0 = Ok path5 25 /\
  ((exists eta edges c',
      generate_new_graph (from_list path_draws) 3 1 1 5 2 0
      = Ok (eta, edges) c')
   <-> 1 = 0 \/ 1 <= 2 <= 5) /\
  (0 < 1 -> 5 = 0 ->
   generate_new_graph (from_list path_draws) 3 1 1 5 2 0 = Raise TypeError) /\
  (0 < 1 -> 0 < 5 -> 2 = 0 \/ 5 < 2 ->
   generate_new_graph (from_list path_draws) 3 1 1 5 2 0 = Raise ValueError).
Proof.
  split; [vm_compute; reflexivity|].
  apply (generate_new_graph_accepts (from_list path_draws) 3 1 1 5 2 0 path5
                                    25).
  vm_compute; reflexivity.
Defined.

(** X19. Two seed sizes never give a seed graph with an edge.  With seed size
    1 the single node has no neighbour in any pass, so the seed loop
    rejects every pass and never ends, whatever is drawn; with seed size
    0 the first pass is accepted without a draw and, with no growth
    step, two empty matrices are returned. *)
Theorem degenerate_seed_sizes rnd fuel beta T m c :
  seed_phase rnd fuel 1 c = Spin /\
  generate_new_graph rnd fuel beta T 1 m c = Spin /\
  seed_phase rnd (S fuel) 0 c = Ok [] c /\
  generate_new_graph rnd (S fuel) beta 0 0 m c = Ok ([], []) c.
Proof.
  split_and!.
  - apply seed_phase_single.
  - unfold generate_new_graph, bind. by rewrite seed_phase_single.
  - apply seed_phase_none.
  - done.
Qed.

(** ** Memories across a round *)

Lemma insert_mem_list L m up :
  (insert_mem L m up).1.2
  = if (L <? Z.of_nat (S (length m.1.2)))%Z
    then drop 1 (m.1.2 ++ [up]) else m.1.2 ++ [up].
Proof.
  destruct m as [[count l] ins]. unfold insert_mem, append_mem, evict_mem.
  simpl. destruct (l ++ [up]) as [|first rest] eqn:Heq; [by destruct l|].
  assert (length (first :: rest) = S (length l)) as Hlen.
  { rewrite <- Heq, length_app. simpl. lia. }
  rewrite Hlen. by destruct (L <? Z.of_nat (S (length l)))%Z.
Qed.

Lemma insert_mem_inserted L m up : (insert_mem L m up).2 = S m.2.
Proof.
  destruct m as [[count l] ins]. unfold insert_mem, append_mem, evict_mem.
  destruct (l ++ [up]) as [|first rest]; [done|].
  by destruct (L <? Z.of_nat (length (first :: rest)))%Z.
Qed.

Lemma insert_mem_length L m up :
  length m.1.2 <= length (insert_mem L m up).1.2 /\
  ((L < 1)%Z -> length (insert_mem L m up).1.2 = length m.1.2).
Proof.
  rewrite insert_mem_list.
  destruct (Z.ltb_spec L (Z.of_nat (S (length m.1.2)))) as [Hlt|Hge].
  - rewrite length_drop, length_app. simpl. lia.
  - rewrite length_app. simpl. lia.
Qed.

Lemma foldl_insert_mem_length L m ul :
  length m.1.2 <= length (foldl (insert_mem L) m ul).1.2 /\
  ((L < 1)%Z -> length (foldl (insert_mem L) m ul).1.2 = length m.1.2).
Proof.
  revert m. induction ul as [|up ul IH]; intros m; [done|]. simpl.
  destruct (IH (insert_mem L m up)) as [Hle Heq].
  destruct (insert_mem_length L m up) as [Hle' Heq']. split; [lia|].
  intros HL. rewrite Heq, Heq' by done. done.
Qed.

(** The sequence after a queue of insertions: the last [L] entries of
    the old sequence followed by the queue. *)
Lemma foldl_insert_mem_window L m ul :
  (1 <= L)%Z -> (Z.of_nat (length m.1.2) <= L)%Z ->
  let all := m.1.2 ++ ul in
  (foldl (insert_mem L) m ul).1.2 = drop (length all - Z.to_nat L) all /\
  (foldl (insert_mem L) m ul).2 = m.2 + length ul.
Proof.
  intros HL Hlen. induction ul as [|up ul IH] using rev_ind.
  - simpl. rewrite app_nil_r.
    replace (length m.1.2 - Z.to_nat L) with 0 by lia. split; [done|lia].
  - rewrite foldl_app. simpl. destruct IH as [IHl IHi].
    rewrite insert_mem_list, insert_mem_inserted, IHl, IHi.
    rewrite !length_app. simpl. split; [|lia].
    rewrite length_drop, length_app.
    set (a := length m.1.2) in *. set (b := length ul).
    destruct (Z.ltb_spec L (Z.of_nat (S (a + b - (a + b - Z.to_nat L)))))
      as [Hlt|Hge].
    + assert (Z.to_nat L <= a + b) as Hfull by lia.
      rewrite app_assoc.
      rewrite (drop_app_le (m.1.2 ++ ul) [up] (a + (b + 1) - Z.to_nat L))
        by (rewrite length_app; fold a b; lia).
      rewrite (drop_app_le (drop (a + b - Z.to_nat L) (m.1.2 ++ ul)) [up] 1)
        by (rewrite length_drop, length_app; fold a b; lia).
      rewrite drop_drop. f_equal. f_equal. lia.
    + assert (a + b < Z.to_nat L) as Hroom by lia.
      replace (a + b - Z.to_nat L) with 0 by lia.
      replace (a + (b + 1) - Z.to_nat L) with 0 by lia.
      simpl. by rewrite app_assoc.
Qed.

Section RoundMemories.

Variables (rnd : nat -> Z) (bernoulli : option R -> Z -> option bool).
Variables (edges : matrix nat) (K Hmax : R) (eta : matrix R) (L : Z)
          (mcr : bool) (liars truths : list nat).

Local Abbreviation n := (length edges).
Local Abbreviation role j := (j ∈ liars \/ j ∈ truths).

(** The memories after a round: the memories after the broadcast loop
    with the queued rumors inserted. *)
Lemma round_memories st c st2 c2 :
  sim_wf n st ->
  round rnd bernoulli edges K Hmax eta L mcr liars truths st c = Ok st2 c2 ->
  exists st1 updates c1,
    broadcast_phase rnd bernoulli edges K Hmax eta mcr liars truths st c
    = Ok (st1, updates) c1 /\
    length updates = n /\
    (forall j, own_mutation liars truths st st1 j) /\
    (forall j, j < n ->
       node_mem st2 j
       = foldl (insert_mem L) (node_mem st1 j) (updates !!! j)).
Proof.
  intros Hwf Hround.
  apply round_phases in Hround as (st1 & updates & c1 & Hb & Hstats).
  exists st1, updates, c1. split; [done|].
  apply record_stats_frame in Hstats as (Hd & Hl & _ & Hi).
  unfold broadcast_phase in Hb.
  apply broadcast_prefix in Hb as (Hwf1 & (Hlen & _) & _ & Hown & _);
    [|done|done].
  rewrite length_replicate in Hlen.
  split; [done|]. split; [done|]. intros j Hj.
  destruct (apply_updates_node L n st1 0 updates Hwf1) as (_ & _ & Hnode);
    [lia|].
  assert (node_mem st2 j = node_mem (apply_updates L 0 updates st1) j)
    as -> by (unfold node_mem; by rewrite Hd, Hl, Hi).
  rewrite Hnode, decide_True, Nat.sub_0_r; [done|lia].
Qed.

Lemma own_mutation_length st st1 j :
  own_mutation liars truths st st1 j ->
  length (mem_list st1 !!! j) = length (mem_list st !!! j) /\
  inserted st1 !!! j = inserted st !!! j.
Proof.
  intros [Heq|(rumor & new_rumor & _ & _ & Heq)]; unfold node_mem in Heq.
  - by injection Heq as _ -> ->.
  - simpl in Heq. injection Heq as _ -> ->.
    by rewrite relabel_first_length.
Qed.

Lemma round_lengths st c st2 c2 j :
  sim_wf n st -> j < n ->
  round rnd bernoulli edges K Hmax eta L mcr liars truths st c = Ok st2 c2 ->
  length (mem_list st !!! j) <= length (mem_list st2 !!! j) /\
  ((L < 1)%Z -> length (mem_list st2 !!! j) = length (mem_list st !!! j)).
Proof.
  intros Hwf Hj Hround.
  apply round_memories in Hround
    as (st1 & updates & c1 & _ & _ & Hown & Hmem); [|done].
  destruct (own_mutation_length st st1 j (Hown j)) as [Hlen _].
  specialize (Hmem j Hj).
  assert (mem_list st2 !!! j = (node_mem st2 j).1.2) as -> by done.
  rewrite Hmem, <- Hlen.
  apply (foldl_insert_mem_length L (node_mem st1 j)).
Qed.

Lemma rounds_lengths num_rounds st c st' c' j :
  sim_wf n st -> j < n ->
  rounds rnd bernoulli edges K Hmax eta L mcr liars truths num_rounds st c
  = Ok st' c' ->
  length (mem_list st !!! j) <= length (mem_list st' !!! j) /\
  ((L < 1)%Z -> length (mem_list st' !!! j) = length (mem_list st !!! j)).
Proof.
  intros Hwf Hj. revert st c Hwf.
  induction num_rounds as [|k IH]; intros st c Hwf Hrun; simpl in Hrun.
  - by apply ret_Ok in Hrun as [<- _].
  - apply bind_Ok in Hrun as (st1 & c1 & Hround & Hrun).
    pose proof (round_wf rnd bernoulli edges K Hmax eta L mcr liars truths
                  _ _ _ _ Hwf Hround) as Hwf1.
    destruct (round_lengths _ _ _ _ j Hwf Hj Hround) as [Hle Heq].
    destruct (IH st1 c1 Hwf1 Hrun) as [Hle' Heq']. split; [lia|].
    intros HL. rewrite Heq', Heq by done. done.
Qed.


Lemma offer_sources i rumor updates c updates' c' :
  offer rnd bernoulli edges eta liars truths i rumor updates c
  = Ok updates' c' ->
  forall j, updates' !!! j = updates !!! j
            \/ (j ∈ flatnonzero (edges !!! i) /\ ~ role j).
Proof.
  unfold offer. intros Hrun.
  eapply (forM_inv (fun upd => forall j,
            upd !!! j = updates !!! j
            \/ (j ∈ flatnonzero (edges !!! i) /\ ~ role j)));
    [|by left|exact Hrun].
  clear. intros j upd c upd' c' Hj Hinv Hstep j'.
  apply bind_Ok in Hstep as (accept & c1 & Hacc & Hstep).
  destruct accept; [|apply ret_Ok in Hstep as [<- _]; apply Hinv].
  case_decide; [|done]. apply ret_Ok in Hstep as [<- _].
  destruct (decide (j' = j)) as [->|Hne].
  - right. split; [done|]. intros Hrole.
    rewrite decide_True in Hacc by done. by apply ret_Ok in Hacc as [? _].
  - rewrite list_lookup_total_alter_ne by done. apply Hinv.
Qed.

(** Every node with a rumor in the queue has it from a node handled
    before that held a rumor and has the node among the nonzero entries
    of its row. *)
Lemma broadcast_sources k st0 upd0 c stk updk ck :
  k <= n -> sim_wf n st0 ->
  forM (node_step rnd bernoulli edges K Hmax eta mcr liars truths)
       (seq 0 k) (st0, upd0) c = Ok (stk, updk) ck ->
  forall j, updk !!! j = upd0 !!! j
            \/ (~ role j /\
                exists i, i < k /\ j ∈ flatnonzero (edges !!! i) /\
                          mem_dict st0 !!! i <> []).
Proof.
  intros Hk Hwf. revert stk updk ck.
  induction k as [|k IH]; intros stk updk ck Hrun j.
  - apply ret_Ok in Hrun as [[= <- <-] _]. by left.
  - rewrite seq_S, forM_app in Hrun. simpl in Hrun.
    apply bind_Ok in Hrun as ([st1 upd1] & c1 & Hpre & Hrun).
    apply bind_Ok in Hrun as ([st2 upd2] & c2 & Hstep & Hrun).
    apply ret_Ok in Hrun as [[= <- <-] _].
    assert (upd1 !!! j = upd0 !!! j
            \/ (~ role j /\
                exists i, i < S k /\ j ∈ flatnonzero (edges !!! i) /\
                          mem_dict st0 !!! i <> [])) as Hprev.
    { destruct (IH ltac:(lia) _ _ _ Hpre j) as [Heq|(Hr & i & Hi & Hrest)];
        [by left|].
      right. split; [done|]. exists i. split; [lia|done]. }
    destruct (broadcast_prefix rnd bernoulli edges K Hmax eta mcr liars truths
                k st0 upd0 c st1 upd1 c1 ltac:(lia) Hwf Hpre)
      as (_ & _ & Hrest & _).
    destruct (Hrest k ltac:(lia)) as [Hmem _].
    unfold node_step in Hstep.
    destruct (Z.eqb_spec (sumZ (values (mem_dict st1 !!! k))) 0) as [|Htot].
    { apply ret_Ok in Hstep as [[= <- <-] _]. done. }
    apply bind_Ok in Hstep as ([rumor st1'] & c3 & _ & Hstep).
    apply bind_Ok in Hstep as (upd & c4 & Hoff & Hstep).
    apply ret_Ok in Hstep as [[= <- <-] _].
    destruct (offer_sources _ _ _ _ _ _ Hoff j) as [Heq|[Hnb Hr]].
    + by rewrite Heq.
    + right. split; [done|]. exists k. split_and!; [lia|done|].
      unfold node_mem in Hmem. injection Hmem as Hd _ _.
      rewrite <- Hd. intros Hnil. by rewrite Hnil in Htot.
Qed.

End RoundMemories.

Lemma init_sim_roles rnd init_person edges liarnum truthnum c st liars truths
      c' :
  init_sim rnd init_person edges liarnum truthnum c
  = Ok (st, liars, truths) c' ->
  NoDup liars /\ length liars = liarnum /\
  NoDup truths /\ length truths = truthnum /\
  liarnum + truthnum + 1 <= length edges.
Proof.
  intros Hinit.
  pose proof (init_sim_spec _ _ _ _ _ _ _ _ _ _ Hinit)
    as (_ & Hip & Hl & Ht & _).
  unfold init_sim in Hinit.
  apply bind_Ok in Hinit as (ls & c1 & Hls & Hinit).
  apply bind_Ok in Hinit as (ts & c2 & Hts & Hinit).
  case_decide; [|done]. apply ret_Ok in Hinit as [[= _ <- <-] _].
  apply sample_spec in Hls as (Hnd1 & _ & Hlen1);
    [|apply NoDup_filter, NoDup_seq].
  apply sample_spec in Hts as (Hnd2 & _ & Hlen2);
    [|apply NoDup_filter, NoDup_seq].
  split_and!; [done..|].
  assert (ls ++ ts ++ [init_person] ⊆+ seq 0 (length edges)) as Hsub.
  { apply NoDup_submseteq.
    - apply NoDup_app. split_and!; [done| |].
      + intros x Hx [Hin|Hin%list_elem_of_singleton]%elem_of_app.
        * by apply Hl in Hx as (_ & _ & ?).
        * by apply Hl in Hx as (_ & ? & _).
      + apply NoDup_app. split_and!; [done| |apply NoDup_singleton].
        intros x Hx Hin%list_elem_of_singleton. by apply Ht in Hx as [_ ?].
    - intros x [Hx|[Hx|Hx%list_elem_of_singleton]%elem_of_app]%elem_of_app;
        apply elem_of_seq.
      + apply Hl in Hx as (? & _). lia.
      + apply Ht in Hx as (? & _). lia.
      + lia. }
  apply submseteq_length in Hsub.
  rewrite !length_app, length_seq in Hsub. simpl in Hsub. lia.
Qed.

(** ** Roles and memories in a run *)

(** X20. In a run that returns, the liars are [liarnum] distinct nodes, the
    truth-tellers [truthnum] distinct nodes, no node is both, the seed
    node is neither, and the graph has room for all of them. *)
Theorem roles_are_distinct_nodes rnd bernoulli init_person edges K Hmax
        num_rounds eta L mcr liarnum truthnum c st liars truths c' :
  run_state rnd bernoulli init_person edges K Hmax num_rounds eta L mcr
            liarnum truthnum c = Ok (st, liars, truths) c' ->
  NoDup liars /\ length liars = liarnum /\
  NoDup truths /\ length truths = truthnum /\
  (forall l, l ∈ liars ->
             l < length edges /\ l <> init_person /\ l ∉ truths) /\
  (forall t, t ∈ truths -> t < length edges /\ t <> init_person) /\
  init_person < length edges /\
  liarnum + truthnum + 1 <= length edges.
Proof.
  intros Hrun.
  apply run_state_phases in Hrun as (st0 & c0 & Hinit & _).
  pose proof (init_sim_spec _ _ _ _ _ _ _ _ _ _ Hinit)
    as (_ & Hip & Hl & Ht & _).
  apply init_sim_roles in Hinit as (? & ? & ? & ? & ?).
  by split_and!.
Qed.

Lemma roles_are_distinct_nodes_witness :
  exists st liars truths c',
    run_state counting by_parity 0 star3 1 5 3 ones3 2 true 1 1 0
    = Ok (st, liars, truths) c' /\
    liars = [1] /\ truths = [2] /\
    NoDup liars /\ length liars = 1 /\
    NoDup truths /\ length truths = 1 /\
    (forall l, l ∈ liars -> l < length star3 /\ l <> 0 /\ l ∉ truths) /\
    (forall t, t ∈ truths -> t < length star3 /\ t <> 0) /\
    0 < length star3 /\
    1 + 1 + 1 <= length star3.
Proof.
  eexists _, _, _, _. split; [vm_compute; reflexivity|].
  split; [reflexivity|]. split; [reflexivity|].
  eapply (roles_are_distinct_nodes counting by_parity 0 star3 1 5 3 ones3 2
                                   true 1 1 0).
  vm_compute; reflexivity.
Defined.

(** X21. From any state the round loop reaches, further rounds never
    shorten a memory, whatever the capacity: a node that holds a rumor
    keeps holding one.  With a capacity below 1 every insertion evicts
    an entry at once, so no memory ever changes its length and a node
    without a rumor never gets one. *)
Theorem memories_never_shrink rnd bernoulli init_person edges K Hmax
        num_rounds eta L mcr liarnum truthnum c0 st0 liars truths c
        more st' c' :
  run_state rnd bernoulli init_person edges K Hmax num_rounds eta L mcr
            liarnum truthnum c0 = Ok (st0, liars, truths) c ->
  rounds rnd bernoulli edges K Hmax eta L mcr liars truths more st0 c
  = Ok st' c' ->
  forall j, j < length edges ->
    length (mem_list st0 !!! j) <= length (mem_list st' !!! j) /\
    (mem_list st0 !!! j <> [] -> mem_list st' !!! j <> []) /\
    ((L < 1)%Z ->
     length (mem_list st' !!! j) = length (mem_list st0 !!! j) /\
     (mem_list st0 !!! j = [] -> mem_list st' !!! j = [])).
Proof.
  intros Hrun Hmore j Hj.
  apply (run_state_inv _ _ _ _ _ _ _ _ L) in Hrun as [Hwf _].
  destruct (rounds_lengths rnd bernoulli edges K Hmax eta L mcr liars truths
              more st0 c st' c' j Hwf Hj Hmore) as [Hle Heq].
  split_and!; [done| |].
  - intros Hne Hnil. rewrite Hnil in Hle.
    destruct (mem_list st0 !!! j); [done|simpl in Hle; lia].
  - intros HL. specialize (Heq HL). split; [done|].
    intros Hnil. rewrite Hnil in Heq.
    by destruct (mem_list st' !!! j).
Qed.

Lemma memories_never_shrink_witness :
  exists st0 liars truths c st' c',
    run_state counting by_parity 0 star3 1 5 1 halves3 0 true 0 0 0
    = Ok (st0, liars, truths) c /\
    rounds counting by_parity star3 1 5 halves3 0 true liars truths 2 st0 c
    = Ok st' c' /\
    mem_list st0 = [["00100"]; []; []] /\
    mem_list st' = [["00111"]; []; []] /\
    inserted st' = [1; 3; 0] /\
    forall j, j < length star3 ->
      length (mem_list st0 !!! j) <= length (mem_list st' !!! j) /\
      (mem_list st0 !!! j <> [] -> mem_list st' !!! j <> []) /\
      ((0 < 1)%Z ->
       length (mem_list st' !!! j) = length (mem_list st0 !!! j) /\
       (mem_list st0 !!! j = [] -> mem_list st' !!! j = [])).
Proof.
  eexists _, _, _, _, _, _. split; [vm_compute; reflexivity|].
  split; [vm_compute; reflexivity|].
  split; [reflexivity|]. split; [reflexivity|]. split; [reflexivity|].
  eapply (memories_never_shrink counting by_parity 0 star3 1 5 1 halves3 0
                                true 0 0 0) with (more := 2).
  - vm_compute; reflexivity.
  - vm_compute; reflexivity.
Defined.

(** X22. For a capacity of at least 1, a round leaves in every memory the
    last [L] entries of what the broadcast loop left there followed by
    the rumors the node accepted, in the order of acceptance; the
    number of appends grows by the number of accepted rumors. *)
Theorem memory_keeps_last_L rnd bernoulli init_person edges K Hmax
        num_rounds eta L mcr liarnum truthnum c0 st0 liars truths c st2 c2 :
  run_state rnd bernoulli init_person edges K Hmax num_rounds eta L mcr
            liarnum truthnum c0 = Ok (st0, liars, truths) c ->
  round rnd bernoulli edges K Hmax eta L mcr liars truths st0 c = Ok st2 c2 ->
  (1 <= L)%Z ->
  exists st1 updates c1,
    broadcast_phase rnd bernoulli edges K Hmax eta mcr liars truths st0 c
    = Ok (st1, updates) c1 /\
    forall j, j < length edges ->
      let all := mem_list st1 !!! j ++ updates !!! j in
      mem_list st2 !!! j = drop (length all - Z.to_nat L) all /\
      inserted st2 !!! j = inserted st0 !!! j + length (updates !!! j).
Proof.
  intros Hrun Hround HL.
  apply (run_state_inv _ _ _ _ _ _ _ _ L) in Hrun as Hinv.
  pose proof Hinv as [Hwf _].
  pose proof (round_memories _ _ _ _ _ _ _ _ _ _ _ _ _ _ Hwf Hround)
    as (st1 & updates & c1 & Hb & Hlen & Hown & Hmem).
  exists st1, updates, c1. split; [done|]. intros j Hj all.
  pose proof (broadcast_phase_inv _ _ _ _ _ _ _ _ _ _ _ _ _ _ _ Hinv Hb)
    as [_ Hinv1].
  destruct (mem_inv_counts L _ (Hinv1 j Hj)) as [_ Hcap].
  destruct (Hcap HL) as [Hle _].
  destruct (foldl_insert_mem_window L (node_mem st1 j) (updates !!! j) HL Hle)
    as [Hlist Hins].
  destruct (own_mutation_length _ _ _ _ _ (Hown j)) as [_ Hins0].
  specialize (Hmem j Hj).
  assert (mem_list st2 !!! j = (node_mem st2 j).1.2) as -> by done.
  assert (inserted st2 !!! j = (node_mem st2 j).2) as -> by done.
  rewrite Hmem, Hlist, Hins. split; [done|]. simpl. by rewrite Hins0.
Qed.

Lemma memory_keeps_last_L_witness :
  exists st0 liars truths c st2 c2,
    run_state counting by_parity 0 star3 1 5 1 ones3 2 true 1 0 0
    = Ok (st0, liars, truths) c /\
    round counting by_parity star3 1 5 ones3 2 true liars truths st0 c
    = Ok st2 c2 /\
    mem_list st0 = [["00000"; "11111"]; ["11111"]; ["00000"]] /\
    mem_list st2 = [["11111"; "01000"]; ["11111"]; ["01000"; "11111"]] /\
    (1 <= 2)%Z /\
    exists st1 updates c1,
      broadcast_phase counting by_parity star3 1 5 ones3 true liars truths
                      st0 c = Ok (st1, updates) c1 /\
      forall j, j < length star3 ->
        let all := mem_list st1 !!! j ++ updates !!! j in
        mem_list st2 !!! j = drop (length all - Z.to_nat 2) all /\
        inserted st2 !!! j = inserted st0 !!! j + length (updates !!! j).
Proof.
  eexists _, _, _, _, _, _. split; [vm_compute; reflexivity|].
  split; [vm_compute; reflexivity|].
  split; [reflexivity|]. split; [reflexivity|]. split; [lia|].
  eapply (memory_keeps_last_L counting by_parity 0 star3 1 5 1 ones3 2 true
                              1 0 0).
  - vm_compute; reflexivity.
  - vm_compute; reflexivity.
  - lia.
Defined.

(** X23. Rumors travel along edges only: a node that holds no rumor at the
    start of a round and holds one at its end is no liar and no
    truth-teller, and some node that held a rumor at the start of the
    round has it among the nonzero entries of its row. *)
Theorem rumors_travel_along_edges rnd bernoulli init_person edges K Hmax
        num_rounds eta L mcr liarnum truthnum c0 st0 liars truths c st2 c2 j :
  run_state rnd bernoulli init_person edges K Hmax num_rounds eta L mcr
            liarnum truthnum c0 = Ok (st0, liars, truths) c ->
  round rnd bernoulli edges K Hmax eta L mcr liars truths st0 c = Ok st2 c2 ->
  j < length edges ->
  mem_list st0 !!! j = [] -> mem_list st2 !!! j <> [] ->
  ~ (j ∈ liars \/ j ∈ truths) /\
  exists i, i < length edges /\
            j ∈ flatnonzero (edges !!! i) /\
            mem_list st0 !!! i <> [].
Proof.
  intros Hrun Hround Hj Hempty Hfull.
  apply (run_state_inv _ _ _ _ _ _ _ _ L) in Hrun as Hinv.
  pose proof Hinv as [Hwf Hmemok].
  pose proof (round_memories _ _ _ _ _ _ _ _ _ _ _ _ _ _ Hwf Hround)
    as (st1 & updates & c1 & Hb & Hlen & Hown & Hmem).
  destruct (own_mutation_length _ _ _ _ _ (Hown j)) as [Hlen1 _].
  specialize (Hmem j Hj).
  assert (updates !!! j <> []) as Hupd.
  { intros Hnil. apply Hfull.
    assert (mem_list st2 !!! j = (node_mem st2 j).1.2) as -> by done.
    rewrite Hmem, Hnil. simpl. rewrite Hempty in Hlen1.
    by destruct (mem_list st1 !!! j). }
  unfold broadcast_phase in Hb.
  destruct (broadcast_sources _ _ _ _ _ _ _ _ _ _ _ _ _ _ _ _
              (le_n (length edges)) Hwf Hb j)
    as [Heq|(Hrole & i & Hi & Hnb & Hheld)].
  { rewrite lookup_total_replicate_2 in Heq by done. done. }
  split; [done|]. exists i. split_and!; [done|done|].
  destruct (Hmemok i Hi) as [Hok _].
  intros Hnil. by apply (mem_ok_empty _ _ Hok) in Hnil.
Qed.

Lemma rumors_travel_along_edges_witness :
  exists st0 liars truths c st2 c2,
    run_state counting by_parity 0 star3 1 5 0 ones3 2 true 1 0 0
    = Ok (st0, liars, truths) c /\
    round counting by_parity star3 1 5 ones3 2 true liars truths st0 c
    = Ok st2 c2 /\
    mem_list st0 = [["00000"]; ["11111"]; []] /\
    mem_list st2 = [["00000"; "11111"]; ["11111"]; ["00000"]] /\
    ~ (2 ∈ liars \/ 2 ∈ truths) /\
    exists i, i < length star3 /\
              2 ∈ flatnonzero (star3 !!! i) /\
              mem_list st0 !!! i <> [].
Proof.
  eexists _, _, _, _, _, _. split; [vm_compute; reflexivity|].
  split; [vm_compute; reflexivity|].
  split; [reflexivity|]. split; [reflexivity|].
  eapply (rumors_travel_along_edges counting by_parity 0 star3 1 5 0 ones3 2
                                    true 1 0 0).
  - vm_compute; reflexivity.
  - vm_compute; reflexivity.
  - simpl; lia.
  - reflexivity.
  - discriminate.
Defined.

(** ** From the generator to the simulation *)

(** X24. The pipeline of [main], which generates its graph with
    [beta = 1]: what [generate_new_graph] returns is a valid input of
    [run_rumors].  Both matrices are square of the same size and the
    trust a node reads before it accepts a rumor (entry [j, i] for [j]
    among the nonzero entries of row [i]) is a probability in (0, 1];
    so, when [np.random.choice] accepts every weight of [0,1] and [Hmax]
    is not 0, [run_rumors] returns for every seed node of the graph and
    every number of liars and truth-tellers that fits beside it. *)
Theorem generated_graph_runs rnd bernoulli fuel T m0 m c eta edges c1
        init_person K Hmax num_rounds L mcr liarnum truthnum :
  generate_new_graph rnd fuel 1 T m0 m c = Ok (eta, edges) c1 ->
  accepts_probabilities bernoulli ->
  init_person < length edges ->
  liarnum + truthnum + 1 <= length edges ->
  Hmax <> 0%R ->
  square (length edges) edges /\ square (length edges) eta /\
  (forall i j, i < length edges -> j ∈ flatnonzero (edges !!! i) ->
               (0 < at2 eta j i <= 1)%R) /\
  exists avg var mx mn frag c2,
    run_rumors rnd bernoulli init_person edges K Hmax num_rounds eta L mcr
               liarnum truthnum c1 = Ok (avg, var, mx, mn, frag) c2.
Proof.
  intros Hgen Hacc Hinit Hfit HHmax.
  pose proof (generated_eta_spec _ _ _ _ _ _ _ _ _ _ Hgen)
    as (Hsq & Hsym & Hnb & Heta).
  apply generate_new_graph_phases in Hgen as (seed & c0 & c0' & _ & _ & Hgen).
  apply generate_eta_spec in Hgen as (Hsqe & _).
  assert (forall i j, i < length edges -> j ∈ flatnonzero (edges !!! i) ->
                      (0 < at2 eta j i <= 1)%R) as Htrust.
  { intros i j Hi Hj.
    pose proof Hj as Hj'. apply flatnonzero_elem in Hj' as [Hjn Hij].
    rewrite (square_row (length edges)) in Hjn by done.
    rewrite Heta by done.
    assert (i ∈ neighbours edges j) as Hji.
    { unfold neighbours. apply flatnonzero_elem.
      rewrite (square_row (length edges)) by done. split; [done|].
      specialize (Hsym i j). unfold at2 in Hsym. by rewrite <- Hsym. }
    destruct (Nat.le_ge_cases i j) as [Hle|Hge].
    + rewrite Nat.min_r, Nat.max_l by done.
      split; [apply trust_pos; by apply Hnb|by apply trust_le_1].
    + rewrite Nat.min_l, Nat.max_r by done.
      split; [apply trust_pos; by apply Hnb|by apply trust_le_1]. }
  split_and!; [done|done|done|].
  destruct (run_state_total rnd bernoulli init_person edges K Hmax
              num_rounds eta L mcr liarnum truthnum c1 Hacc Hsq Hsqe Hinit
              Hfit HHmax)
    as (st & liars & truths & c2 & Hrun).
  { intros i j Hi Hj. destruct (Htrust i j Hi Hj). lra. }
  exists (avgH st), (varH st), (maxH st), (minH st), (opinion_frag st), c2.
  unfold run_rumors, bind. by rewrite Hrun.
Qed.

Lemma generated_graph_runs_witness :
  exists eta edges c1,
    generate_new_graph (from_list retry_draws) 3 1 2 5 2 0
    = Ok (eta, edges) c1 /\
    (accepts_probabilities by_parity /\
     3 < length edges /\ 1 + 1 + 1 <= length edges /\ 5%R <> 0%R) /\
    square (length edges) edges /\ square (length edges) eta /\
    (forall i j, i < length edges -> j ∈ flatnonzero (edges !!! i) ->
                 (0 < at2 eta j i <= 1)%R) /\
    exists avg var mx mn frag c2,
      run_rumors (from_list retry_draws) by_parity 3 edges 1 5 2 eta 320 true
                 1 1 c1 = Ok (avg, var, mx, mn, frag) c2.
Proof.
  eexists _, _, _. split; [vm_compute; reflexivity|].
  split; [split_and!; [apply by_parity_accepts|simpl; lia|simpl; lia|lra]|].
  eapply (generated_graph_runs (from_list retry_draws) by_parity 3 2 5 2 0);
    [vm_compute; reflexivity|apply by_parity_accepts|simpl; lia|simpl; lia
    |lra].
Defined.
